(** * A shallow embedding of [LibgpiodSpiBitbang]

    The software SPI master of [src/libgpiodSpiBitbang.cpp]: four GPIO lines
    (CS, SCK, MOSI, MISO) toggled one edge at a time through libgpiod.

    The engine is a record of the fields of the C++ class that the transfer
    code reads and writes.  The libgpiod library is the environment: a record
    of oracles that answer each call from the history of the calls made so
    far.  Every operation is a function in a small state-and-exception monad
    over the engine; the calls made to libgpiod are appended to a history kept
    beside the fields, and the diagnostics printed are appended to a second
    list.  Both generations of the libgpiod API that the source is compiled
    against are modelled, selected by a parameter.

    The file has three parts: the driver; the devices, observations of
    histories and predicates the properties are stated with; the facts,
    ending with the properties C1 to C10 of the specification. *)

From Stdlib Require Import ZArith List String Bool Lia.
Import ListNotations.
Local Open Scope Z_scope.

Set Implicit Arguments.

(** ** Lines, histories and the libgpiod environment *)

Inductive line : Type := CS | SCK | MOSI | MISO.

Definition line_eqb (a b : line) : bool :=
  match a, b with
  | CS, CS | SCK, SCK | MOSI, MOSI | MISO, MISO => true
  | _, _ => false
  end.

(** The two generations of the libgpiod API the source is written against
    ([#ifdef GPIOD_APIV2]). *)
Inductive gpiod_api : Type := APIv1 | APIv2.

(** One entry per call that reaches the GPIO character device. *)
Inductive hw_event : Type :=
| ChipOpen (dev : string)
| ChipGetLine (offset : Z)
| LineRequest (offset : Z) (output : bool) (val : Z)
| ChipRequestLines (l : line) (offset : Z) (output : bool)
| SetValue (l : line) (v : Z)
| GetValue.

Definition history := list hw_event.

(** What [display] and [printf] write. *)
Inductive diag : Type :=
| MsgUnableSet (l : line)
| MsgErrorReadingMiso
| MsgWriteError (ret tx_len : Z)
| MsgReadError
| MsgTimeout (rx count : Z)
| MsgPoll (rx mask cond count : Z)
| MsgWaitError (rx : Z)
| MsgBanner (dev : string)
| MsgInvalidChip (dev : string)
| MsgPinRange (pin : Z)
| MsgPinDuplicate (pin : Z)
| MsgUnableOpen (dev : string)
| MsgUnableGetLine (offset : Z)
| MsgErrorRequesting (offset : Z).

(** The answers of libgpiod.  Each oracle sees the history of the calls made
    before the one it answers. *)
Record gpiod : Type := {
  gpiod_chip_open : string -> bool;
  gpiod_chip_get_line : history -> Z -> bool;
  gpiod_line_request : history -> Z -> Z;
  gpiod_set_value : history -> line -> Z -> Z;
  gpiod_get_value : history -> Z;
  (* the indeterminate byte found at an index of a fresh automatic array *)
  stack_byte : nat -> Z
}.

(** [gpiod_line_value] of the v2 API. *)
Definition GPIOD_LINE_VALUE_ERROR : Z := -1.
Definition GPIOD_LINE_VALUE_INACTIVE : Z := 0.
Definition GPIOD_LINE_VALUE_ACTIVE : Z := 1.

(** [ETIME] of [errno.h] on Linux. *)
Definition ETIME : Z := 62.

(** ** The engine *)

Inductive SPI_CS_mode : Type := SPI_CS_AUTO | SPI_CS_MANUAL.

Record engine : Type := {
  _verbose : bool;
  _cs_pin : Z;
  _sck_pin : Z;
  _mosi_pin : Z;
  _miso_pin : Z;
  _cs_mode : SPI_CS_mode;
  _curr_cs : Z;
  _curr_sck : Z;
  _curr_mosi : Z;
  hw : history;
  out : list diag
}.

Definition set_cs_mode (m : SPI_CS_mode) (e : engine) : engine :=
  {| _verbose := _verbose e; _cs_pin := _cs_pin e; _sck_pin := _sck_pin e;
     _mosi_pin := _mosi_pin e; _miso_pin := _miso_pin e;
     _cs_mode := m;
     _curr_cs := _curr_cs e; _curr_sck := _curr_sck e;
     _curr_mosi := _curr_mosi e; hw := hw e; out := out e |}.

Definition set_curr (cs sck mosi : Z) (e : engine) : engine :=
  {| _verbose := _verbose e; _cs_pin := _cs_pin e; _sck_pin := _sck_pin e;
     _mosi_pin := _mosi_pin e; _miso_pin := _miso_pin e;
     _cs_mode := _cs_mode e;
     _curr_cs := cs; _curr_sck := sck; _curr_mosi := mosi;
     hw := hw e; out := out e |}.

Definition log_hw (ev : hw_event) (e : engine) : engine :=
  {| _verbose := _verbose e; _cs_pin := _cs_pin e; _sck_pin := _sck_pin e;
     _mosi_pin := _mosi_pin e; _miso_pin := _miso_pin e;
     _cs_mode := _cs_mode e;
     _curr_cs := _curr_cs e; _curr_sck := _curr_sck e;
     _curr_mosi := _curr_mosi e; hw := hw e ++ [ev]; out := out e |}.

Definition log_out (d : diag) (e : engine) : engine :=
  {| _verbose := _verbose e; _cs_pin := _cs_pin e; _sck_pin := _sck_pin e;
     _mosi_pin := _mosi_pin e; _miso_pin := _miso_pin e;
     _cs_mode := _cs_mode e;
     _curr_cs := _curr_cs e; _curr_sck := _curr_sck e;
     _curr_mosi := _curr_mosi e; hw := hw e; out := out e ++ [d] |}.

(** [spi_pins_conf_t] is declared in [board.hpp]; these are the four fields
    the constructor reads, with the values they have once converted to the
    type of the members [_cs_pin] ... [_miso_pin]. *)
Record spi_pins_conf_t : Type := {
  cs_pin : Z;
  sck_pin : Z;
  mosi_pin : Z;
  miso_pin : Z
}.

Definition set_config (verbose : bool) (c : spi_pins_conf_t) (e : engine)
  : engine :=
  {| _verbose := verbose; _cs_pin := cs_pin c; _sck_pin := sck_pin c;
     _mosi_pin := mosi_pin c; _miso_pin := miso_pin c;
     _cs_mode := _cs_mode e;
     _curr_cs := _curr_cs e; _curr_sck := _curr_sck e;
     _curr_mosi := _curr_mosi e; hw := hw e; out := out e |}.

(** ** Outcomes and the monad *)

(** The [std::runtime_error]s the source throws. *)
Inductive exn : Type :=
| InvalidGpioChip
| PinOutsideValidRange
| PinsSameNumber
| UnableToOpenChip
| UnableToGetLine
| ErrorRequestingLine
| ErrorReadingMiso.

(** What has no defined behaviour in C++ (an access past the end of a buffer)
    and the exhaustion of the bound given to the polling loop. *)
Inductive fault : Type := OutOfBounds | OutOfFuel.

Inductive outcome (A : Type) : Type :=
| Ok (a : A)
| Throw (e : exn)
| Fault (f : fault).

Arguments Ok {A} a.
Arguments Throw {A} e.
Arguments Fault {A} f.

Definition M (A : Type) : Type := engine -> outcome A * engine.

Definition ret {A} (a : A) : M A := fun e => (Ok a, e).

Definition bind {A B} (m : M A) (f : A -> M B) : M B :=
  fun e =>
    match m e with
    | (Ok a, e') => f a e'
    | (Throw x, e') => (Throw x, e')
    | (Fault x, e') => (Fault x, e')
    end.

Definition throw {A} (x : exn) : M A := fun e => (Throw x, e).
Definition undefined {A} (x : fault) : M A := fun e => (Fault x, e).
Definition gets {A} (f : engine -> A) : M A := fun e => (Ok (f e), e).
Definition modify (f : engine -> engine) : M unit := fun e => (Ok tt, f e).

Declare Scope spi_scope.
Delimit Scope spi_scope with spi.
Notation "x <- m ;; k" := (bind m (fun x => k))
  (at level 61, m at next level, right associativity) : spi_scope.
Notation "m ;; k" := (bind m (fun _ => k))
  (at level 61, right associativity) : spi_scope.
Local Open Scope spi_scope.

Definition when (b : bool) (m : M unit) : M unit := if b then m else ret tt.

(** [display(...)]: printed only when [_verbose] is set ([DEBUG] is defined). *)
Definition display (d : diag) : M unit :=
  v <- gets _verbose ;; when v (modify (log_out d)).

Definition printf (d : diag) : M unit := modify (log_out d).

(** ** 8-bit and 32-bit values *)

Definition u8 (z : Z) : Z := z mod 256.
Definition u32 (z : Z) : Z := z mod 4294967296.

Section Driver.

Variable api : gpiod_api.
Variable lib : gpiod.

(** The level handed to libgpiod for a requested value: the v1 call passes
    the integer on, the v2 call maps zero to INACTIVE and the rest to
    ACTIVE. *)
Definition level (v : Z) : Z :=
  match api with
  | APIv1 => v
  | APIv2 => if v =? 0 then GPIOD_LINE_VALUE_INACTIVE
             else GPIOD_LINE_VALUE_ACTIVE
  end.

(** One [gpiod_line_set_value] / [gpiod_line_request_set_value] call with
    its [display] on a negative return. *)
Definition set_line (l : line) (v : Z) : M unit :=
  h <- gets hw ;;
  modify (log_hw (SetValue l (level v))) ;;
  when (gpiod_set_value lib h l (level v) <? 0) (display (MsgUnableSet l)).

Definition update_pins (cs sck mosi : Z) : M Z :=
  curr_mosi <- gets _curr_mosi ;;
  when (negb (mosi =? curr_mosi)) (set_line MOSI mosi) ;;
  curr_sck <- gets _curr_sck ;;
  when (negb (sck =? curr_sck)) (set_line SCK sck) ;;
  curr_cs <- gets _curr_cs ;;
  when (negb (cs =? curr_cs)) (set_line CS cs) ;;
  modify (set_curr cs sck mosi) ;;
  ret 0.

Definition read_miso : M Z :=
  h <- gets hw ;;
  modify (log_hw GetValue) ;;
  let req := gpiod_get_value lib h in
  match api with
  | APIv2 =>
      if req =? GPIOD_LINE_VALUE_ERROR then
        display MsgErrorReadingMiso ;; throw ErrorReadingMiso
      else ret (if req =? GPIOD_LINE_VALUE_ACTIVE then 1 else 0)
  | APIv1 => ret req
  end.

Definition setCSmode (m : SPI_CS_mode) : M unit := modify (set_cs_mode m).

Definition setCs : M unit :=
  sck <- gets _curr_sck ;; mosi <- gets _curr_mosi ;;
  update_pins 1 sck mosi ;; ret tt.

Definition clearCs : M unit :=
  sck <- gets _curr_sck ;; mosi <- gets _curr_mosi ;;
  update_pins 0 sck mosi ;; ret tt.

(** *** [spi_wr_and_rd] *)

(** The body of the loop over [j]: one bit out on MOSI, one bit in from
    MISO.  [wv] and [rv] are [uint8_t]. *)
Definition clock_bit (wv rv : Z) : M (Z * Z) :=
  cs <- gets _curr_cs ;;
  update_pins cs 0 (if Z.land wv 128 =? 0 then 0 else 1) ;;
  let wv' := u8 (Z.shiftl wv 1) in
  cs <- gets _curr_cs ;;
  mosi <- gets _curr_mosi ;;
  update_pins cs 1 mosi ;;
  b <- read_miso ;;
  let rv' := u8 (Z.lor (Z.shiftl rv 1) (if b =? 0 then 0 else 1)) in
  cs <- gets _curr_cs ;;
  mosi <- gets _curr_mosi ;;
  update_pins cs 0 mosi ;;
  ret (wv', rv').

(** [for (int j = 0; j < 8; j++)], by the number of passes left. *)
Fixpoint clock_bits (n : nat) (wv rv : Z) : M Z :=
  match n with
  | O => ret rv
  | S n' => p <- clock_bit wv rv ;; clock_bits n' (fst p) (snd p)
  end.

(** [if (wp) wv = *wp++;] with [wv] zero otherwise.  A write pointer is
    the list of the bytes from it to the end of its buffer. *)
Definition next_write (wp : option (list Z)) : M (Z * option (list Z)) :=
  match wp with
  | None => ret (0, None)
  | Some (b :: rest) => ret (b, Some rest)
  | Some [] => undefined OutOfBounds
  end.

(** [if (rp) *rp++ = rv;].  A read pointer is the list of the bytes stored
    through it so far. *)
Definition store_read (rp : option (list Z)) (rv : Z) : option (list Z) :=
  match rp with
  | None => None
  | Some stored => Some (stored ++ [rv])
  end.

(** [for (int i = 0; i < writecnt; i++)], by the number of passes left. *)
Fixpoint clock_bytes (n : nat) (wp rp : option (list Z))
  : M (option (list Z)) :=
  match n with
  | O => ret rp
  | S n' =>
      w <- next_write wp ;;
      rv <- clock_bits 8 (fst w) 0 ;;
      clock_bytes n' (snd w) (store_read rp rv)
  end.

Definition is_auto (m : SPI_CS_mode) : bool :=
  match m with SPI_CS_AUTO => true | SPI_CS_MANUAL => false end.

(** Returns the status and, when [readarr] is present, the bytes stored
    through it. *)
Definition spi_wr_and_rd (writecnt : Z) (writearr : option (list Z))
    (readarr : bool) : M (Z * option (list Z)) :=
  mode <- gets _cs_mode ;;
  when (is_auto mode) clearCs ;;
  rd <- clock_bytes (Z.to_nat writecnt) writearr
          (if readarr then Some [] else None) ;;
  mode <- gets _cs_mode ;;
  when (is_auto mode) setCs ;;
  ret (0, rd).

(** *** [spi_wr_then_rd] *)

Definition spi_wr_then_rd (tx_data : option (list Z)) (tx_len : Z)
    (rx_data : bool) (rx_len : Z) : M (Z * option (list Z)) :=
  setCSmode SPI_CS_MANUAL ;;
  clearCs ;;
  w <- spi_wr_and_rd tx_len tx_data false ;;
  r <- (if negb (u32 (fst w) =? 0) then
          printf (MsgWriteError (u32 (fst w)) tx_len) ;;
          ret (u32 (fst w), None)
        else
          r <- spi_wr_and_rd rx_len None rx_data ;;
          when (negb (u32 (fst r) =? 0)) (printf MsgReadError) ;;
          ret (u32 (fst r), snd r)) ;;
  setCs ;;
  setCSmode SPI_CS_AUTO ;;
  ret r.

(** *** [spi_put] *)

(** [if (rx != NULL) memcpy(rx, jrx+1, len)]: what the caller's buffer
    receives, if there is one. *)
Definition copy_response (len : Z) (jrx : option (list Z))
  : option (list Z) :=
  match jrx with
  | None => None
  | Some l => Some (firstn (Z.to_nat len) (skipn 1 l))
  end.

(** The command-prefixed overload.  [jtx] is an automatic array that is
    not initialised: its bytes are what the stack holds. *)
Definition spi_put_cmd (cmd : Z) (tx : option (list Z)) (rx : bool)
    (len : Z) : M (Z * option (list Z)) :=
  let xfer_len := u32 (len + 1) in
  let jtx := map (stack_byte lib) (seq 0 (Z.to_nat xfer_len)) in
  (* jtx[0] = cmd *)
  jtx <- match jtx with
         | [] => undefined OutOfBounds
         | _ :: rest => ret (cmd :: rest)
         end ;;
  (* if (tx != NULL) memcpy(jtx+1, tx, len) *)
  jtx <- match tx with
         | None => ret jtx
         | Some t =>
             if (Z.of_nat (List.length t) <? len)
                || (Z.of_nat (List.length jtx) <? 1 + len)
             then undefined OutOfBounds
             else ret (firstn 1 jtx ++ firstn (Z.to_nat len) t
                         ++ skipn (1 + Z.to_nat len) jtx)
         end ;;
  r <- spi_wr_and_rd xfer_len (Some jtx) rx ;;
  (* if (rx != NULL) memcpy(rx, jrx+1, len) *)
  ret (0, copy_response len (snd r)).

(** The raw overload. *)
Definition spi_put (tx : option (list Z)) (rx : bool) (len : Z)
  : M (Z * option (list Z)) :=
  spi_wr_and_rd len tx rx.

(** *** [spi_wait] *)

(** The [do ... while] loop.  [count] is a [uint32_t]: it leaves the loop
    when it meets [timeout], at the latest after it has wrapped around, so
    the loop makes at most [wait_bound timeout] passes.  Returns the last
    [rx] and [count]. *)
Fixpoint wait_loop (fuel : nat) (mask cond timeout : Z) (verbose : bool)
    (count : Z) : M (Z * Z) :=
  match fuel with
  | O => undefined OutOfFuel
  | S fuel' =>
      r <- spi_wr_and_rd 1 None true ;;
      let rx := match snd r with Some (b :: _) => b | _ => 0 end in
      let count := u32 (count + 1) in
      if count =? timeout then
        printf (MsgTimeout rx count) ;; ret (rx, count)
      else
        when verbose (printf (MsgPoll rx mask cond count)) ;;
        if negb (Z.land rx mask =? cond) then
          wait_loop fuel' mask cond timeout verbose count
        else ret (rx, count)
  end.

Definition wait_bound (timeout : Z) : nat :=
  Z.to_nat (if timeout =? 0 then 4294967296 else timeout).

Definition spi_wait (cmd mask cond timeout : Z) (verbose : bool) : M Z :=
  let timeout := u32 timeout in
  setCSmode SPI_CS_MANUAL ;;
  clearCs ;;
  spi_wr_and_rd 1 (Some [cmd]) false ;;
  w <- wait_loop (wait_bound timeout) mask cond timeout verbose 0 ;;
  setCs ;;
  setCSmode SPI_CS_AUTO ;;
  if snd w =? timeout then
    printf (MsgWaitError (fst w)) ;; ret (- ETIME)
  else ret 0.

(** *** The constructor *)

(** [get_line] of the v1 API. *)
Definition get_line (offset val : Z) (output : bool) : M unit :=
  h <- gets hw ;;
  modify (log_hw (ChipGetLine offset)) ;;
  if negb (gpiod_chip_get_line lib h offset) then
    display (MsgUnableGetLine offset) ;; throw UnableToGetLine
  else
    h <- gets hw ;;
    modify (log_hw (LineRequest offset output val)) ;;
    if gpiod_line_request lib h offset <? 0 then
      display (MsgErrorRequesting offset) ;; throw ErrorRequestingLine
    else ret tt.

(** [for (j = i + 1; ...)]: [pins[i]] against the pins after it. *)
Fixpoint check_duplicate (p : Z) (rest : list Z) : M unit :=
  match rest with
  | [] => ret tt
  | q :: rest' =>
      if p =? q then display (MsgPinDuplicate p) ;; throw PinsSameNumber
      else check_duplicate p rest'
  end.

(** [for (i = 0; ...)] over the array [pins]. *)
Fixpoint validate_pins (pins : list Z) : M unit :=
  match pins with
  | [] => ret tt
  | p :: rest =>
      if (p <? 0) || (p >=? 1000) then
        display (MsgPinRange p) ;; throw PinOutsideValidRange
      else check_duplicate p rest ;; validate_pins rest
  end.

Definition request_lines : M unit :=
  cs <- gets _cs_pin ;;
  sck <- gets _sck_pin ;;
  mosi <- gets _mosi_pin ;;
  miso <- gets _miso_pin ;;
  match api with
  | APIv2 =>
      (* the results of gpiod_chip_request_lines are not looked at *)
      modify (log_hw (ChipRequestLines CS cs true)) ;;
      modify (log_hw (ChipRequestLines SCK sck true)) ;;
      modify (log_hw (ChipRequestLines MOSI mosi true)) ;;
      modify (log_hw (ChipRequestLines MISO miso false))
  | APIv1 =>
      get_line cs 1 true ;;
      get_line sck 0 true ;;
      get_line mosi 0 true ;;
      get_line miso 0 false
  end.

Definition LibgpiodSpiBitbang (pin_conf : spi_pins_conf_t) (dev : string)
    (verbose : Z) : M unit :=
  modify (set_config (negb (verbose =? 0)) pin_conf) ;;
  let chip_dev := if (dev =? "")%string then "/dev/gpiochip0"%string
                  else dev in
  display (MsgBanner chip_dev) ;;
  if (Z.of_nat (String.length chip_dev) <? 14)
     || negb (substring 0 13 chip_dev =? "/dev/gpiochip")%string
  then display (MsgInvalidChip chip_dev) ;; throw InvalidGpioChip
  else
    cs <- gets _cs_pin ;;
    sck <- gets _sck_pin ;;
    mosi <- gets _mosi_pin ;;
    miso <- gets _miso_pin ;;
    validate_pins [cs; sck; mosi; miso] ;;
    modify (log_hw (ChipOpen chip_dev)) ;;
    if negb (gpiod_chip_open lib chip_dev) then
      display (MsgUnableOpen chip_dev) ;; throw UnableToOpenChip
    else
      request_lines ;;
      modify (set_curr 0 1 1) ;;
      update_pins 1 0 0 ;;
      setCSmode SPI_CS_AUTO.

End Driver.

(** * Devices, histories and the vocabulary of the properties *)

(** The memory of an engine before its constructor has run: nothing has been
    done yet, and the fields hold whatever the allocation left there. *)
Definition raw_engine (mode : SPI_CS_mode) (cs sck mosi : Z) : engine :=
  {| _verbose := false; _cs_pin := 0; _sck_pin := 0; _mosi_pin := 0;
     _miso_pin := 0; _cs_mode := mode;
     _curr_cs := cs; _curr_sck := sck; _curr_mosi := mosi;
     hw := []; out := [] |}.

(** The level last handed to libgpiod for a line. *)
Fixpoint last_set (l : line) (h : history) : option Z :=
  match h with
  | [] => None
  | ev :: h' =>
      match last_set l h' with
      | Some v => Some v
      | None =>
          match ev with
          | SetValue l' v => if line_eqb l l' then Some v else None
          | _ => None
          end
      end
  end.

(** The number of reads of MISO. *)
Fixpoint count_reads (h : history) : nat :=
  match h with
  | [] => O
  | GetValue :: h' => S (count_reads h')
  | _ :: h' => count_reads h'
  end.

(** A chip that grants every request and accepts every write, with the
    given behaviour of the MISO line and the given stack contents. *)
Definition board (miso : history -> Z) (stack : nat -> Z) : gpiod :=
  {| gpiod_chip_open := fun _ => true;
     gpiod_chip_get_line := fun _ _ => true;
     gpiod_line_request := fun _ _ => 0;
     gpiod_set_value := fun _ _ _ => 0;
     gpiod_get_value := miso;
     stack_byte := stack |}.

(** MOSI wired to MISO. *)
Definition loopback_miso (h : history) : Z :=
  match last_set MOSI h with Some v => v | None => 0 end.

(** A peripheral that answers the successive samples with the given bits. *)
Definition stream_miso (bits : list Z) (h : history) : Z :=
  nth (count_reads h) bits 0.

(** The eight levels of a byte, most significant first. *)
Definition bits_of (b : Z) : list Z :=
  map (fun i => if Z.testbit b (Z.of_nat i) then 1 else 0)
      [7; 6; 5; 4; 3; 2; 1; 0]%nat.

(** The pin assignment of the scenario: cs 0, sck 1, mosi 2, miso 3. *)
Definition pins0123 : spi_pins_conf_t :=
  {| cs_pin := 0; sck_pin := 1; mosi_pin := 2; miso_pin := 3 |}.

(** The levels written to a line, in order. *)
Fixpoint writes_to (l : line) (h : history) : list Z :=
  match h with
  | [] => []
  | SetValue l' v :: h' =>
      if line_eqb l l' then v :: writes_to l h' else writes_to l h'
  | _ :: h' => writes_to l h'
  end.

(** ** What the steps of the driver do and leave alone *)

Section Vocabulary.

Variable api : gpiod_api.
Variable lib : gpiod.

(** The write [update_pins] issues for one line. *)
Definition pin_write (l : line) (req cur : Z) : history :=
  if req =? cur then [] else [SetValue l (level api req)].

(** What a step leaves alone: everything but the two logs. *)
Definition same_fields (e e' : engine) : Prop :=
  _verbose e' = _verbose e /\ _cs_mode e' = _cs_mode e
  /\ _curr_cs e' = _curr_cs e /\ _curr_sck e' = _curr_sck e
  /\ _curr_mosi e' = _curr_mosi e.

(** The bit the loop shifts into [rv] for an answer of libgpiod, if the
    read does not throw: [read_miso() ? 1 : 0]. *)
Definition sampled (req : Z) : option Z :=
  match api with
  | APIv1 => Some (if req =? 0 then 0 else 1)
  | APIv2 =>
      if req =? GPIOD_LINE_VALUE_ERROR then None
      else Some (if req =? GPIOD_LINE_VALUE_ACTIVE then 1 else 0)
  end.

(** [wv & 0x80 ? 1 : 0] *)
Definition msb (wv : Z) : Z := if Z.land wv 128 =? 0 then 0 else 1.

(** The history up to the rising edge of one bit. *)
Definition rising_edge (wv : Z) (e : engine) : history :=
  hw e ++ pin_write MOSI (msb wv) (_curr_mosi e)
       ++ pin_write SCK 0 (_curr_sck e)
       ++ [SetValue SCK (level api 1)].

(** What the clocking loops leave alone: the CS mode, the cached CS and
    the CS line itself. *)
Definition quiet (e e' : engine) : Prop :=
  _verbose e' = _verbose e /\ _cs_mode e' = _cs_mode e
  /\ _curr_cs e' = _curr_cs e
  /\ exists evs, hw e' = hw e ++ evs /\ writes_to CS evs = [].

(** The ways a transfer ends: it returns, or a v2 read of MISO throws. *)
Definition benign A (o : outcome A) : Prop :=
  match o with
  | Ok _ => True
  | Throw x => x = ErrorReadingMiso /\ api = APIv2
  | Fault _ => False
  end.

(** A write pointer that can be advanced [n] times. *)
Definition wp_ok (n : nat) (wp : option (list Z)) : Prop :=
  match wp with
  | None => True
  | Some l => (n <= List.length l)%nat
  end.

(** The bytes a read pointer has gained after [n] stores. *)
Definition stored (n : nat) (rp rp' : option (list Z)) : Prop :=
  match rp with
  | None => rp' = None
  | Some l => exists l', rp' = Some (l ++ l') /\ List.length l' = n
  end.

(** The read buffer a transfer starts from. *)
Definition read_start (readarr : bool) : option (list Z) :=
  if readarr then Some [] else None.

(** The three ends of [spi_wr_and_rd]: it returns 0 with CS bracketed
    (AUTO) or untouched (MANUAL); or a v2 read of MISO throws and CS is
    left as the loop had it; or the write buffer is too short. *)
Definition wr_and_rd_returns writecnt wp rd e e' mid : Prop :=
  exists rx,
    spi_wr_and_rd api lib writecnt wp rd e = (Ok (0, rx), e')
    /\ stored (Z.to_nat writecnt) (read_start rd) rx
    /\ if is_auto (_cs_mode e)
       then _curr_cs e' = 1
            /\ hw e' = hw e ++ pin_write CS 0 (_curr_cs e) ++ mid
                            ++ [SetValue CS (level api 1)]
       else _curr_cs e' = _curr_cs e /\ hw e' = hw e ++ mid.

Definition wr_and_rd_throws writecnt wp rd e e' mid : Prop :=
  spi_wr_and_rd api lib writecnt wp rd e = (Throw ErrorReadingMiso, e')
  /\ api = APIv2
  /\ if is_auto (_cs_mode e)
     then _curr_cs e' = 0
          /\ hw e' = hw e ++ pin_write CS 0 (_curr_cs e) ++ mid
     else _curr_cs e' = _curr_cs e /\ hw e' = hw e ++ mid.

Definition wr_and_rd_overruns writecnt wp rd e e' : Prop :=
  (exists f, spi_wr_and_rd api lib writecnt wp rd e = (Fault f, e'))
  /\ ~ wp_ok (Z.to_nat writecnt) wp.

End Vocabulary.

(** ** Arguments, devices and invariants *)

(** The contents of [jtx] when [spi_wr_and_rd] is called: the command, then
    the payload, or what the stack held when there is no payload. *)
Definition jtx_buffer (lib : gpiod) (cmd : Z) (tx : option (list Z))
    (len : Z) : list Z :=
  cmd :: match tx with
         | Some t => firstn (Z.to_nat len) t
         | None => map (stack_byte lib) (seq 1 (Z.to_nat len))
         end.

(** The arguments [spi_put] can be called with: [len] and [len + 1] fit a
    [uint32_t], and a payload holds at least [len] bytes. *)
Definition put_args_ok (tx : option (list Z)) (len : Z) : Prop :=
  0 <= len < 4294967295 /\ wp_ok (Z.to_nat len) tx.

(** The engine the constructor returns on a board with the given MISO
    behaviour ([/dev/gpiochip0], pins 0 to 3, not verbose). *)
Definition engine_on (api : gpiod_api) (miso : history -> Z) : engine :=
  snd (LibgpiodSpiBitbang api (board miso (fun _ => 0)) pins0123
         "/dev/gpiochip0" 0 (raw_engine SPI_CS_MANUAL 0 0 0)).

(** The part of a history added since an engine that held its beginning. *)
Definition added_since (e : engine) (h : history) : history :=
  skipn (List.length (hw e)) h.

(** A pin the constructor accepts: not [pins[i] < 0 || pins[i] >= 1000]. *)
Definition in_range (p : Z) : Prop := 0 <= p <= 999.

(** The chip the constructor opens: [/dev/gpiochip0] for an empty [dev]. *)
Definition chip_path (dev : string) : string :=
  if (dev =? "")%string then "/dev/gpiochip0"%string else dev.

(** A device path the constructor accepts. *)
Definition valid_dev (dev : string) : Prop :=
  14 <= Z.of_nat (String.length (chip_path dev))
  /\ substring 0 13 (chip_path dev) = "/dev/gpiochip"%string.

(** The array [pins] of the constructor. *)
Definition pins_of (c : spi_pins_conf_t) : list Z :=
  [cs_pin c; sck_pin c; mosi_pin c; miso_pin c].

(** A chip that hands out every line asked of it (v1 API). *)
Definition grants_lines (lib : gpiod) : Prop :=
  (forall h offset, gpiod_chip_get_line lib h offset = true)
  /\ (forall h offset, 0 <= gpiod_line_request lib h offset).

(** The calls by which the constructor acquires the four lines. *)
Definition request_events (api : gpiod_api) (cs sck mosi miso : Z)
  : history :=
  match api with
  | APIv2 =>
      [ChipRequestLines CS cs true; ChipRequestLines SCK sck true;
       ChipRequestLines MOSI mosi true; ChipRequestLines MISO miso false]
  | APIv1 =>
      [ChipGetLine cs; LineRequest cs true 1;
       ChipGetLine sck; LineRequest sck true 0;
       ChipGetLine mosi; LineRequest mosi true 0;
       ChipGetLine miso; LineRequest miso false 0]
  end.

(** The cache agrees with the line: the level last written to MOSI is the
    level of the cached value. *)
Definition mosi_synced (api : gpiod_api) (e : engine) : Prop :=
  last_set MOSI (hw e) = Some (level api (_curr_mosi e)).

(** MOSI wired to MISO: a read returns the level last written to MOSI. *)
Definition loopback (lib : gpiod) : Prop :=
  forall h v, last_set MOSI h = Some v -> gpiod_get_value lib h = v.

(** A value of a [uint8_t]. *)
Definition is_byte (b : Z) : Prop := 0 <= b < 256.

(** What eight passes of the bit loop compute when every sampled bit is the
    bit just driven. *)
Fixpoint shift_in (n : nat) (wv rv : Z) : Z :=
  match n with
  | O => rv
  | S n' => shift_in n' (u8 (Z.shiftl wv 1))
              (u8 (Z.lor (Z.shiftl rv 1) (msb wv)))
  end.

(** The level of MOSI at each sample of MISO, given the level before the
    history starts.  Every sample is taken between the rising and the
    falling edge of one bit. *)
Fixpoint mosi_at_samples (mosi : Z) (h : history) : list Z :=
  match h with
  | [] => []
  | SetValue MOSI v :: h' => mosi_at_samples v h'
  | GetValue :: h' => mosi :: mosi_at_samples mosi h'
  | _ :: h' => mosi_at_samples mosi h'
  end.

(** Bits to bytes, eight at a time, most significant first. *)
Fixpoint pack_bytes (fuel : nat) (bits : list Z) : list Z :=
  match fuel, bits with
  | S fuel', b7 :: b6 :: b5 :: b4 :: b3 :: b2 :: b1 :: b0 :: rest =>
      (128 * b7 + 64 * b6 + 32 * b5 + 16 * b4 + 8 * b3 + 4 * b2 + 2 * b1 + b0)
        :: pack_bytes fuel' rest
  | _, _ => []
  end.

(** The bytes a call clocked out, read off the history it added. *)
Definition bytes_clocked (e e' : engine) : list Z :=
  let bits := mosi_at_samples (_curr_mosi e) (added_since e (hw e')) in
  pack_bytes (List.length bits) bits.

(** A peripheral whose status bytes, after the command slot, are the given
    ones. *)
Definition status_miso (statuses : list Z) : history -> Z :=
  stream_miso (bits_of 0 ++ flat_map bits_of statuses).

(** The one-byte read attempts of a call: its samples of MISO, less the
    eight of the command byte, by eights. *)
Definition read_attempts (e e' : engine) : Z :=
  (Z.of_nat (count_reads (added_since e (hw e'))) - 8) / 8.

(** A step keeps a property of the engine when it holds after the step,
    however the step ends, if it held before. *)
Definition keeps A (P : engine -> Prop) (m : M A) : Prop :=
  forall e, P e -> P (snd (m e)).

(** A step adds [n] reads of MISO when every run of it that returns has
    extended the history by entries with [n] reads among them. *)
Definition adds_reads A (n : nat) (m : M A) : Prop :=
  forall e a e',
    m e = (Ok a, e') ->
    exists evs, hw e' = hw e ++ evs /\ count_reads evs = n.

(** The engines a caller can hold: what the constructor returned, after any
    number of public operations that returned. *)
Inductive boundary (api : gpiod_api) (lib : gpiod) : engine -> Prop :=
| boundary_constructed c dev verbose e0 e :
    LibgpiodSpiBitbang api lib c dev verbose e0 = (Ok tt, e) ->
    boundary api lib e
| boundary_put_cmd e cmd tx rx len v e' :
    boundary api lib e ->
    spi_put_cmd api lib cmd tx rx len e = (Ok v, e') ->
    boundary api lib e'
| boundary_put e tx rx len v e' :
    boundary api lib e ->
    spi_put api lib tx rx len e = (Ok v, e') ->
    boundary api lib e'
| boundary_wait e cmd mask cond timeout verbose v e' :
    boundary api lib e ->
    spi_wait api lib cmd mask cond timeout verbose e = (Ok v, e') ->
    boundary api lib e'.

(** ** The wire *)

(** The libgpiod calls of one pass of the bit loop that returns, from a
    cache holding [m] for MOSI and [s] for SCK: MOSI to the top bit of [wv]
    and SCK low, each only if it differs from the cache, then SCK high, the
    sample of MISO and SCK low. *)
Definition bit_wire (api : gpiod_api) (wv m s : Z) : history :=
  pin_write api MOSI (msb wv) m ++ pin_write api SCK 0 s
  ++ [SetValue SCK (level api 1); GetValue; SetValue SCK (level api 0)].

(** The calls of [n] passes on [wv], which is shifted left after each. *)
Fixpoint bits_wire (api : gpiod_api) (n : nat) (wv m s : Z) : history :=
  match n with
  | O => []
  | S n' => bit_wire api wv m s
            ++ bits_wire api n' (u8 (Z.shiftl wv 1)) (msb wv) 0
  end.

(** The MOSI cache after [n] passes on [wv]. *)
Fixpoint last_bit (n : nat) (wv m : Z) : Z :=
  match n with
  | O => m
  | S n' => last_bit n' (u8 (Z.shiftl wv 1)) (msb wv)
  end.

(** The calls of the byte loop on the bytes [l]. *)
Fixpoint bytes_wire (api : gpiod_api) (l : list Z) (m s : Z) : history :=
  match l with
  | [] => []
  | b :: l' => bits_wire api 8 b m s
               ++ bytes_wire api l' (last_bit 8 b m) 0
  end.

(** The MOSI and SCK cache after the byte loop on [l]. *)
Fixpoint final_mosi (l : list Z) (m : Z) : Z :=
  match l with
  | [] => m
  | b :: l' => final_mosi l' (last_bit 8 b m)
  end.

Definition final_sck (l : list Z) (s : Z) : Z :=
  match l with [] => s | _ :: _ => 0 end.

(** The bytes a transfer of [n] bytes takes from its write pointer: zeros
    when there is none. *)
Definition bytes_sent (n : nat) (wp : option (list Z)) : list Z :=
  match wp with
  | Some l => firstn n l
  | None => repeat 0 n
  end.

(** The calls of a whole [spi_wr_and_rd] that returns: the byte loop,
    between the assert and the deassert of CS in AUTO mode. *)
Definition transfer_wire (api : gpiod_api) (mode : SPI_CS_mode)
    (l : list Z) (cs m s : Z) : history :=
  match mode with
  | SPI_CS_AUTO =>
      pin_write api CS 0 cs ++ bytes_wire api l m s
      ++ [SetValue CS (level api 1)]
  | SPI_CS_MANUAL => bytes_wire api l m s
  end.

(** [k] clock pulses: SCK high, then low. *)
Definition sck_pulses (api : gpiod_api) (k : nat) : list Z :=
  List.concat (repeat [level api 1; level api 0] k).

(** SPI mode 0 on a history, from the given level of SCK: MOSI is written
    only while SCK is low, and MISO is read only while SCK is high. *)
Fixpoint mode0 (sck : Z) (h : history) : bool :=
  match h with
  | [] => true
  | SetValue SCK v :: h' => mode0 v h'
  | SetValue MOSI _ :: h' => (sck =? 0) && mode0 sck h'
  | GetValue :: h' => negb (sck =? 0) && mode0 sck h'
  | _ :: h' => mode0 sck h'
  end.

(** The level of SCK after a history, from the given one. *)
Definition sck_after (sck : Z) (h : history) : Z :=
  match last_set SCK h with Some v => v | None => sck end.

(** The level of MOSI after a history, from the given one. *)
Definition mosi_after (mosi : Z) (h : history) : Z :=
  match last_set MOSI h with Some v => v | None => mosi end.

(** What the bit loop makes of the sampled bits [l], from [rv]. *)
Definition shift_bits (rv : Z) (l : list Z) : Z :=
  fold_left (fun rv b => u8 (Z.lor (Z.shiftl rv 1) b)) l rv.

(** A level of a line: 0 or 1. *)
Definition is_bit (b : Z) : Prop := b = 0 \/ b = 1.

(** The top bits of [wv] over [n] passes of the bit loop. *)
Fixpoint msb_seq (n : nat) (wv : Z) : list Z :=
  match n with
  | O => []
  | S n' => msb wv :: msb_seq n' (u8 (Z.shiftl wv 1))
  end.

(** Equality of two lists of integers. *)
Fixpoint list_eqb (a b : list Z) : bool :=
  match a, b with
  | [], [] => true
  | x :: a', y :: b' => (x =? y) && list_eqb a' b'
  | _, _ => false
  end.

(** ** What a transfer receives *)

(** The bits sampled at the reads of MISO of a history [evs] that follows
    the history [base]: at each read, what [read_miso() ? 1 : 0] makes of
    the answer of libgpiod to the history up to that read. *)
Fixpoint answers (api : gpiod_api) (lib : gpiod) (base evs : history)
  : list Z :=
  match evs with
  | [] => []
  | GetValue :: evs' =>
      match sampled api (gpiod_get_value lib base) with
      | Some b => b
      | None => 0
      end :: answers api lib (base ++ [GetValue]) evs'
  | ev :: evs' => answers api lib (base ++ [ev]) evs'
  end.

(** [n] bytes from sampled bits, eight bits each, as the bit loop shifts
    them in. *)
Fixpoint assemble (n : nat) (bits : list Z) : list Z :=
  match n with
  | O => []
  | S n' => shift_bits 0 (firstn 8 bits) :: assemble n' (skipn 8 bits)
  end.

(** The value a run returned, for a run that did return. *)
Definition fst_ok (r : outcome (Z * option (list Z)) * engine)
  : Z * option (list Z) :=
  match fst r with
  | Ok v => v
  | _ => (0, None)
  end.

(** A MISO line whose reads never throw: always with the v1 API, and with
    the v2 API when libgpiod never answers GPIOD_LINE_VALUE_ERROR. *)
Definition reads_never_throw (api : gpiod_api) (lib : gpiod) : Prop :=
  forall h, sampled api (gpiod_get_value lib h) <> None.

(** The number of read attempts after which the counter of [spi_wait]
    meets [timeout]: [timeout] itself, and 2^32 for a [timeout] of 0, which
    the [uint32_t] counter meets only once it has wrapped around. *)
Definition wait_limit (timeout : Z) : Z :=
  if timeout =? 0 then 4294967296 else timeout.

(** ** The constructor's failures *)

(** The CS mode and the cached levels of an engine. *)
Definition cache_of (e : engine) : SPI_CS_mode * Z * Z * Z :=
  (_cs_mode e, _curr_cs e, _curr_sck e, _curr_mosi e).

(** A step keeps a property on failure when every run of it that throws
    from an engine with the property leaves an engine with it. *)
Definition keeps_if_thrown A (P : engine -> Prop) (m : M A) : Prop :=
  forall e x e', P e -> m e = (Throw x, e') -> P e'.

(** A run of a step that acquires lines by the calls [full]: it returns
    after exactly these calls, or it throws for a line it did not get after
    some first part of them. *)
Definition acquired (full : history) (e : engine)
    (r : outcome unit * engine) : Prop :=
  exists evs,
    hw (snd r) = hw e ++ evs
    /\ match fst r with
       | Ok _ => evs = full
       | Throw x =>
           (x = UnableToGetLine \/ x = ErrorRequestingLine)
           /\ exists rest, full = evs ++ rest
       | Fault _ => False
       end.

(** The calls by which the constructor opens the chip and acquires the
    four lines of a pin assignment. *)
Definition opening_calls (api : gpiod_api) (c : spi_pins_conf_t)
    (dev : string) : history :=
  ChipOpen (chip_path dev)
  :: request_events api (cs_pin c) (sck_pin c) (mosi_pin c) (miso_pin c).

(** The lines at rest: AUTO mode, CS cached and last driven inactive, SCK
    cached and last driven low, the MOSI cache in agreement with the
    line. *)
Definition idle (api : gpiod_api) (e : engine) : Prop :=
  _cs_mode e = SPI_CS_AUTO
  /\ _curr_cs e = 1 /\ last_set CS (hw e) = Some (level api 1)
  /\ _curr_sck e = 0 /\ last_set SCK (hw e) = Some (level api 0)
  /\ mosi_synced api e.

(** An engine that is not verbose and has printed [o] so far. *)
Definition silent (o : list diag) (e : engine) : Prop :=
  _verbose e = false /\ out e = o.

(** * Facts about the driver *)

(** ** Reading histories *)

Lemma writes_to_app l h1 h2 :
  writes_to l (h1 ++ h2) = writes_to l h1 ++ writes_to l h2.
Proof.
  induction h1 as [|ev h1 IH]; simpl; [reflexivity|].
  destruct ev; auto.
  destruct (line_eqb l l0); simpl; now rewrite IH.
Qed.

Lemma last_set_app l h1 h2 :
  last_set l (h1 ++ h2) =
  match last_set l h2 with Some v => Some v | None => last_set l h1 end.
Proof.
  induction h1 as [|ev h1 IH]; simpl.
  - now destruct (last_set l h2).
  - rewrite IH. destruct (last_set l h2); [reflexivity|].
    reflexivity.
Qed.

(** ** Laws of the monad *)

Lemma bind_gets A B (f : engine -> A) (k : A -> M B) e :
  bind (gets f) k e = k (f e) e.
Proof. reflexivity. Qed.

Lemma bind_modify B (f : engine -> engine) (k : unit -> M B) e :
  bind (modify f) k e = k tt (f e).
Proof. reflexivity. Qed.

Lemma bind_ret A B (a : A) (k : A -> M B) e : bind (ret a) k e = k a e.
Proof. reflexivity. Qed.

Lemma bind_ok A B (m : M A) (k : A -> M B) e a e' :
  m e = (Ok a, e') -> bind m k e = k a e'.
Proof. intros H. unfold bind. now rewrite H. Qed.

Lemma bind_throw A B (m : M A) (k : A -> M B) e x e' :
  m e = (Throw x, e') -> bind m k e = (Throw x, e').
Proof. intros H. unfold bind. now rewrite H. Qed.

Lemma bind_fault A B (m : M A) (k : A -> M B) e x e' :
  m e = (Fault x, e') -> bind m k e = (Fault x, e').
Proof. intros H. unfold bind. now rewrite H. Qed.

Arguments bind_ok {A B m} k {e a e'} _.
Arguments bind_throw {A B m} k {e x e'} _.
Arguments bind_fault {A B m} k {e x e'} _.

Lemma bind_assoc A B C (m : M A) (f : A -> M B) (g : B -> M C) e :
  bind (bind m f) g e = bind m (fun a => bind (f a) g) e.
Proof. unfold bind. destruct (m e) as [[a|x|x] e']; reflexivity. Qed.

Section DriverFacts.

Variable api : gpiod_api.
Variable lib : gpiod.

(** *** [update_pins] *)

Lemma display_spec d e :
  exists e', display d e = (Ok tt, e') /\ same_fields e e' /\ hw e' = hw e.
Proof.
  unfold display. rewrite bind_gets. unfold when, same_fields.
  destruct (_verbose e) eqn:V; eexists; (split; [reflexivity|]);
    simpl; auto 10.
Qed.

Lemma set_line_spec l v e :
  exists e',
    set_line api lib l v e = (Ok tt, e') /\ same_fields e e'
    /\ hw e' = hw e ++ [SetValue l (level api v)].
Proof.
  unfold set_line. rewrite bind_gets, bind_modify. unfold when.
  destruct (gpiod_set_value lib (hw e) l (level api v) <? 0).
  - destruct (display_spec (MsgUnableSet l)
                (log_hw (SetValue l (level api v)) e)) as (e' & E & F & H).
    exists e'. split; [exact E|]. split; [exact F|]. now rewrite H.
  - eexists. split; [reflexivity|]. unfold same_fields. simpl. auto 10.
Qed.

Lemma when_differs_spec l req cur e :
  exists e',
    when (negb (req =? cur)) (set_line api lib l req) e = (Ok tt, e')
    /\ same_fields e e' /\ hw e' = hw e ++ pin_write api l req cur.
Proof.
  unfold when, pin_write. destruct (req =? cur); simpl.
  - exists e. unfold same_fields. rewrite app_nil_r. auto 10.
  - apply set_line_spec.
Qed.

Lemma update_pins_spec cs sck mosi e :
  exists e',
    update_pins api lib cs sck mosi e = (Ok 0, e')
    /\ _cs_mode e' = _cs_mode e
    /\ _verbose e' = _verbose e
    /\ _curr_cs e' = cs /\ _curr_sck e' = sck /\ _curr_mosi e' = mosi
    /\ hw e' = hw e ++ pin_write api MOSI mosi (_curr_mosi e)
                   ++ pin_write api SCK sck (_curr_sck e)
                   ++ pin_write api CS cs (_curr_cs e).
Proof.
  unfold update_pins. rewrite bind_gets.
  destruct (when_differs_spec MOSI mosi (_curr_mosi e) e)
    as (e1 & E1 & (V1 & M1 & C1 & S1 & O1) & H1).
  rewrite (bind_ok _ E1), bind_gets.
  destruct (when_differs_spec SCK sck (_curr_sck e1) e1)
    as (e2 & E2 & (V2 & M2 & C2 & S2 & O2) & H2).
  rewrite (bind_ok _ E2), bind_gets.
  destruct (when_differs_spec CS cs (_curr_cs e2) e2)
    as (e3 & E3 & (V3 & M3 & C3 & S3 & O3) & H3).
  rewrite (bind_ok _ E3), bind_modify.
  eexists. split; [reflexivity|]. simpl.
  rewrite H3, H2, H1, C2, C1, S1, M3, M2, M1, V3, V2, V1.
  rewrite <- !app_assoc. auto 10.
Qed.

(** *** [read_miso] and one clocked bit *)

Lemma read_miso_spec e :
  exists e',
    same_fields e e' /\ hw e' = hw e ++ [GetValue]
    /\ match sampled api (gpiod_get_value lib (hw e)) with
       | Some b =>
           exists v, read_miso api lib e = (Ok v, e')
                     /\ (if v =? 0 then 0 else 1) = b
       | None => read_miso api lib e = (Throw ErrorReadingMiso, e')
       end.
Proof.
  unfold read_miso, sampled. rewrite bind_gets, bind_modify.
  destruct api.
  - exists (log_hw GetValue e). split; [|split; [reflexivity|]].
    + unfold same_fields; simpl; auto 10.
    + eexists. split; reflexivity.
  - destruct (gpiod_get_value lib (hw e) =? GPIOD_LINE_VALUE_ERROR).
    + destruct (display_spec MsgErrorReadingMiso (log_hw GetValue e))
        as (e' & E & F & H).
      exists e'. rewrite H. split; [exact F|]. split; [reflexivity|].
      now rewrite (bind_ok _ E).
    + exists (log_hw GetValue e). split; [|split; [reflexivity|]].
      * unfold same_fields; simpl; auto 10.
      * eexists. split; [reflexivity|].
        now destruct (gpiod_get_value lib (hw e) =? GPIOD_LINE_VALUE_ACTIVE).
Qed.

Lemma pin_write_same l v : pin_write api l v v = [].
Proof. unfold pin_write. now rewrite Z.eqb_refl. Qed.

Lemma clock_bit_spec wv rv e :
  exists e',
    _verbose e' = _verbose e /\ _cs_mode e' = _cs_mode e
    /\ _curr_cs e' = _curr_cs e /\ _curr_mosi e' = msb wv
    /\ match sampled api (gpiod_get_value lib (rising_edge api wv e)) with
       | Some b =>
           clock_bit api lib wv rv e =
             (Ok (u8 (Z.shiftl wv 1), u8 (Z.lor (Z.shiftl rv 1) b)), e')
           /\ _curr_sck e' = 0
           /\ hw e' = rising_edge api wv e
                        ++ [GetValue; SetValue SCK (level api 0)]
       | None =>
           clock_bit api lib wv rv e = (Throw ErrorReadingMiso, e')
           /\ hw e' = rising_edge api wv e ++ [GetValue]
       end.
Proof.
  unfold clock_bit, rising_edge. fold (msb wv). rewrite bind_gets.
  destruct (update_pins_spec (_curr_cs e) 0 (msb wv) e)
    as (e1 & E1 & M1 & V1 & C1 & S1 & O1 & H1).
  rewrite (bind_ok _ E1), !bind_gets.
  destruct (update_pins_spec (_curr_cs e1) 1 (_curr_mosi e1) e1)
    as (e2 & E2 & M2 & V2 & C2 & S2 & O2 & H2).
  rewrite (bind_ok _ E2).
  rewrite !pin_write_same, S1 in H2. rewrite pin_write_same in H1.
  change (pin_write api SCK 1 0) with [SetValue SCK (level api 1)] in H2.
  rewrite app_nil_r in H1, H2. simpl in H2. rewrite H1 in H2.
  rewrite <- !app_assoc in H2.
  destruct (read_miso_spec e2) as (e3 & (V3 & M3 & C3 & S3 & O3) & H3 & R).
  rewrite H2 in R.
  destruct (sampled api _) as [b|].
  - destruct R as (v & R & Hb).
    rewrite (bind_ok _ R), !bind_gets.
    destruct (update_pins_spec (_curr_cs e3) 0 (_curr_mosi e3) e3)
      as (e4 & E4 & M4 & V4 & C4 & S4 & O4 & H4).
    rewrite (bind_ok _ E4), Hb. unfold ret.
    exists e4. rewrite !pin_write_same, S3, S2 in H4.
    change (pin_write api SCK 0 1) with [SetValue SCK (level api 0)] in H4.
    simpl in H4. rewrite H3, H2 in H4. rewrite <- !app_assoc in H4.
    simpl in H4.
    rewrite <- !app_assoc. simpl.
    intuition congruence.
  - rewrite (bind_throw _ R). exists e3.
    rewrite H3, H2. rewrite <- !app_assoc.
    intuition congruence.
Qed.

(** *** The loops of [spi_wr_and_rd] *)

Lemma quiet_refl e : quiet e e.
Proof.
  unfold quiet. repeat split. exists []. now rewrite app_nil_r.
Qed.

Lemma quiet_trans e1 e2 e3 : quiet e1 e2 -> quiet e2 e3 -> quiet e1 e3.
Proof.
  intros (V1 & M1 & C1 & x & H1 & W1) (V2 & M2 & C2 & y & H2 & W2).
  unfold quiet. repeat split; try congruence.
  exists (x ++ y). rewrite H2, H1, app_assoc, writes_to_app, W1, W2.
  now split.
Qed.

Lemma writes_to_pin_write l l' req cur :
  line_eqb l l' = false -> writes_to l (pin_write api l' req cur) = [].
Proof.
  intros H. unfold pin_write. destruct (req =? cur); simpl; [reflexivity|].
  now rewrite H.
Qed.

Lemma sampled_none req : sampled api req = None -> api = APIv2.
Proof. unfold sampled. now destruct api. Qed.

Lemma clock_bit_quiet wv rv e :
  quiet e (snd (clock_bit api lib wv rv e))
  /\ benign api (fst (clock_bit api lib wv rv e)).
Proof.
  destruct (clock_bit_spec wv rv e) as (e' & V & M & C & _ & R).
  destruct (sampled api _) as [b|] eqn:S.
  - destruct R as (-> & _ & H). simpl. split; [|exact I].
    unfold quiet. repeat split; auto. eexists. split.
    + rewrite H. unfold rising_edge. rewrite <- !app_assoc. reflexivity.
    + rewrite !writes_to_app, !writes_to_pin_write by reflexivity.
      reflexivity.
  - destruct R as (-> & H). simpl. split.
    + unfold quiet. repeat split; auto. eexists. split.
      * rewrite H. unfold rising_edge. rewrite <- !app_assoc. reflexivity.
      * rewrite !writes_to_app, !writes_to_pin_write by reflexivity.
        reflexivity.
    + split; [reflexivity|]. exact (sampled_none _ S).
Qed.

Lemma clock_bits_quiet n : forall wv rv e,
  quiet e (snd (clock_bits api lib n wv rv e))
  /\ benign api (fst (clock_bits api lib n wv rv e)).
Proof.
  induction n as [|n IH]; intros wv rv e; cbn [clock_bits].
  - split; [apply quiet_refl | exact I].
  - destruct (clock_bit_quiet wv rv e) as [Q B].
    destruct (clock_bit api lib wv rv e) as [[p|x|x] e1] eqn:E;
      simpl in Q, B;
      [rewrite (bind_ok _ E) | rewrite (bind_throw _ E) | contradiction].
    + destruct (IH (fst p) (snd p) e1) as [Q' B'].
      split; [eapply quiet_trans; eassumption | exact B'].
    + now split.
Qed.

(** The loop over the bytes ends in one of three ways: it returns with
    [n] more bytes stored, a v2 read of MISO throws, or the write buffer
    is too short. *)
Lemma clock_bytes_quiet n : forall wp rp e,
  quiet e (snd (clock_bytes api lib n wp rp e))
  /\ match fst (clock_bytes api lib n wp rp e) with
     | Ok rp' => stored n rp rp'
     | Throw x => x = ErrorReadingMiso /\ api = APIv2
     | Fault _ => ~ wp_ok n wp
     end.
Proof.
  induction n as [|n IH]; intros wp rp e; cbn [clock_bytes].
  - split; [apply quiet_refl|]. simpl.
    unfold stored. destruct rp as [l|]; [|reflexivity].
    exists []. now rewrite app_nil_r.
  - destruct wp as [[|b l]|]; cbn [next_write].
    + simpl. split; [apply quiet_refl | lia].
    + rewrite bind_ret. cbn [fst snd].
      destruct (clock_bits_quiet 8 b 0 e) as [Q B].
      destruct (clock_bits api lib 8 b 0 e) as [[rv|x|x] e1] eqn:E;
        simpl in Q, B;
        [rewrite (bind_ok _ E) | rewrite (bind_throw _ E) | contradiction].
      * destruct (IH (Some l) (store_read rp rv) e1) as (Q' & S').
        split; [eapply quiet_trans; eassumption|].
        destruct (fst (clock_bytes api lib n (Some l) (store_read rp rv) e1));
          auto.
        -- unfold stored in *. destruct rp as [l0|]; simpl in S'; auto.
           destruct S' as (l' & -> & L). exists (rv :: l').
           rewrite <- app_assoc. simpl.
           split; [reflexivity | now rewrite L].
        -- simpl in *. lia.
      * simpl. auto.
    + rewrite bind_ret. cbn [fst snd].
      destruct (clock_bits_quiet 8 0 0 e) as [Q B].
      destruct (clock_bits api lib 8 0 0 e) as [[rv|x|x] e1] eqn:E;
        simpl in Q, B;
        [rewrite (bind_ok _ E) | rewrite (bind_throw _ E) | contradiction].
      * destruct (IH None (store_read rp rv) e1) as (Q' & S').
        split; [eapply quiet_trans; eassumption|].
        destruct (fst (clock_bytes api lib n None (store_read rp rv) e1));
          auto.
        unfold stored in *. destruct rp as [l0|]; simpl in S'; auto.
        destruct S' as (l' & -> & L). exists (rv :: l').
        rewrite <- app_assoc. simpl.
        split; [reflexivity | now rewrite L].
      * simpl. auto.
Qed.

(** *** [setCs], [clearCs] and [spi_wr_and_rd] *)

Lemma clearCs_spec e :
  exists e',
    clearCs api lib e = (Ok tt, e')
    /\ _verbose e' = _verbose e /\ _cs_mode e' = _cs_mode e
    /\ _curr_cs e' = 0 /\ _curr_sck e' = _curr_sck e
    /\ _curr_mosi e' = _curr_mosi e
    /\ hw e' = hw e ++ pin_write api CS 0 (_curr_cs e).
Proof.
  unfold clearCs. rewrite !bind_gets.
  destruct (update_pins_spec 0 (_curr_sck e) (_curr_mosi e) e)
    as (e' & E & M' & V & C & S & O & H).
  rewrite (bind_ok _ E). exists e'.
  rewrite !pin_write_same in H. simpl in H. unfold ret. auto 10.
Qed.

Lemma setCs_spec e :
  exists e',
    setCs api lib e = (Ok tt, e')
    /\ _verbose e' = _verbose e /\ _cs_mode e' = _cs_mode e
    /\ _curr_cs e' = 1 /\ _curr_sck e' = _curr_sck e
    /\ _curr_mosi e' = _curr_mosi e
    /\ hw e' = hw e ++ pin_write api CS 1 (_curr_cs e).
Proof.
  unfold setCs. rewrite !bind_gets.
  destruct (update_pins_spec 1 (_curr_sck e) (_curr_mosi e) e)
    as (e' & E & M' & V & C & S & O & H).
  rewrite (bind_ok _ E). exists e'.
  rewrite !pin_write_same in H. simpl in H. unfold ret. auto 10.
Qed.

Lemma spi_wr_and_rd_spec writecnt wp rd e :
  exists e' mid,
    _verbose e' = _verbose e /\ _cs_mode e' = _cs_mode e
    /\ writes_to CS mid = []
    /\ (wr_and_rd_returns api lib writecnt wp rd e e' mid
        \/ wr_and_rd_throws api lib writecnt wp rd e e' mid
        \/ wr_and_rd_overruns api lib writecnt wp rd e e').
Proof.
  unfold wr_and_rd_returns, wr_and_rd_throws, wr_and_rd_overruns.
  unfold spi_wr_and_rd. fold (read_start rd). rewrite bind_gets.
  unfold when. destruct (is_auto (_cs_mode e)) eqn:A.
  - destruct (clearCs_spec e) as (e1 & E1 & V1 & M1 & C1 & _ & _ & H1).
    rewrite (bind_ok _ E1).
    destruct (clock_bytes_quiet (Z.to_nat writecnt) wp (read_start rd) e1)
      as ((V2 & M2 & C2 & mid & H2 & N2) & S).
    destruct (clock_bytes api lib (Z.to_nat writecnt) wp (read_start rd) e1)
      as [[rx|x|x] e2] eqn:E2; simpl in V2, M2, C2, H2, S.
    + rewrite (bind_ok _ E2), bind_gets, M2, M1, A.
      destruct (setCs_spec e2) as (e3 & E3 & V3 & M3 & C3 & _ & _ & H3).
      rewrite (bind_ok _ E3). unfold ret.
      exists e3, mid. repeat split; try congruence.
      left. exists rx. split; [reflexivity|]. split; [exact S|].
      split; [exact C3|].
      rewrite H3, H2, H1, C2, C1, <- !app_assoc. reflexivity.
    + destruct S as [-> Hapi]. rewrite (bind_throw _ E2).
      exists e2, mid. repeat split; try congruence.
      right; left. split; [reflexivity|]. split; [exact Hapi|].
      split; [congruence|].
      rewrite H2, H1, <- !app_assoc. reflexivity.
    + rewrite (bind_fault _ E2).
      exists e2, mid. repeat split; try congruence.
      right; right. split; [now exists x | exact S].
  - rewrite bind_ret.
    destruct (clock_bytes_quiet (Z.to_nat writecnt) wp (read_start rd) e)
      as ((V2 & M2 & C2 & mid & H2 & N2) & S).
    destruct (clock_bytes api lib (Z.to_nat writecnt) wp (read_start rd) e)
      as [[rx|x|x] e2] eqn:E2; simpl in V2, M2, C2, H2, S.
    + rewrite (bind_ok _ E2), bind_gets, M2, A.
      rewrite bind_ret. unfold ret.
      exists e2, mid. repeat split; auto.
      left. exists rx. repeat split; auto.
    + destruct S as [-> Hapi]. rewrite (bind_throw _ E2).
      exists e2, mid. repeat split; auto.
      right; left. repeat split; auto.
    + rewrite (bind_fault _ E2).
      exists e2, mid. repeat split; auto.
      right; right. split; [now exists x | exact S].
Qed.

(** [spi_wr_and_rd] never changes the CS mode, however it ends. *)
Lemma spi_wr_and_rd_mode writecnt wp rd e :
  _cs_mode (snd (spi_wr_and_rd api lib writecnt wp rd e)) = _cs_mode e.
Proof.
  destruct (spi_wr_and_rd_spec writecnt wp rd e)
    as (e' & mid & _ & M' & _ & [(rx & -> & _) | [(-> & _) | ((f & ->) & _)]]);
    exact M'.
Qed.

End DriverFacts.

(** * The properties of the specification *)

(** ** [update_pins] *)

(** C6. For every requested (cs, sck, mosi) and every cached state, under
    every behaviour of libgpiod (failing writes included), [update_pins]
    returns 0, leaves the three requested values in the cache, and extends
    the history by exactly one write per line whose requested value differs
    from the cached one (MOSI, then SCK, then CS) and by nothing else. *)
Theorem update_pins_writes_changed_lines :
  forall api lib cs sck mosi e,
    let r := update_pins api lib cs sck mosi e in
    fst r = Ok 0
    /\ _curr_cs (snd r) = cs
    /\ _curr_sck (snd r) = sck
    /\ _curr_mosi (snd r) = mosi
    /\ _cs_mode (snd r) = _cs_mode e
    /\ hw (snd r) =
         hw e
         ++ (if mosi =? _curr_mosi e then []
             else [SetValue MOSI (level api mosi)])
         ++ (if sck =? _curr_sck e then []
             else [SetValue SCK (level api sck)])
         ++ (if cs =? _curr_cs e then []
             else [SetValue CS (level api cs)]).
Proof.
  intros api lib cs sck mosi e r. subst r.
  destruct (update_pins_spec api lib cs sck mosi e)
    as (e' & E & M' & V & C & S & O & H).
  rewrite E. simpl. unfold pin_write in H. auto 10.
Qed.

(** A write that libgpiod refuses is printed when [_verbose] is set and
    changes nothing else: the cache still takes the requested values. *)
Lemma update_pins_failed_write :
  let lib := {| gpiod_chip_open := fun _ => true;
                gpiod_chip_get_line := fun _ _ => true;
                gpiod_line_request := fun _ _ => 0;
                gpiod_set_value := fun _ _ _ => -1;
                gpiod_get_value := fun _ => 0;
                stack_byte := fun _ => 0 |} in
  let e := set_config true pins0123 (raw_engine SPI_CS_AUTO 1 0 0) in
  let r := update_pins APIv2 lib 0 0 1 e in
  fst r = Ok 0
  /\ (_curr_cs (snd r), _curr_sck (snd r), _curr_mosi (snd r)) = (0, 0, 1)
  /\ hw (snd r) = [SetValue MOSI 1; SetValue CS 0]
  /\ out (snd r) = [MsgUnableSet MOSI; MsgUnableSet CS].
Proof. vm_compute. auto. Qed.

(** ** Transfers of no byte, and CS around [spi_put] *)

Lemma spi_wr_and_rd_zero api lib wp rd e :
  exists e',
    spi_wr_and_rd api lib 0 wp rd e = (Ok (0, read_start rd), e')
    /\ _cs_mode e' = _cs_mode e
    /\ _curr_sck e' = _curr_sck e
    /\ _curr_mosi e' = _curr_mosi e
    /\ match _cs_mode e with
       | SPI_CS_AUTO =>
           _curr_cs e' = 1
           /\ hw e' = hw e ++ pin_write api CS 0 (_curr_cs e)
                           ++ [SetValue CS (level api 1)]
       | SPI_CS_MANUAL => e' = e
       end.
Proof.
  unfold spi_wr_and_rd. fold (read_start rd). rewrite bind_gets.
  unfold when. change (Z.to_nat 0) with O. cbn [clock_bytes].
  destruct (_cs_mode e) eqn:A; cbn [is_auto].
  - destruct (clearCs_spec api lib e) as (e1 & E1 & V1 & M1 & C1 & S1 & O1 & H1).
    rewrite (bind_ok _ E1), bind_ret, bind_gets, M1, A. cbn [is_auto].
    destruct (setCs_spec api lib e1) as (e2 & E2 & V2 & M2 & C2 & S2 & O2 & H2).
    rewrite (bind_ok _ E2). unfold ret. exists e2.
    rewrite H2, H1, C1, <- app_assoc.
    repeat split; congruence.
  - rewrite !bind_ret, bind_gets, A. cbn [is_auto]. rewrite bind_ret.
    exists e. auto.
Qed.

(** ** The buffer of the command-prefixed [spi_put] *)

Lemma jtx_buffer_length lib cmd tx len :
  put_args_ok tx len ->
  List.length (jtx_buffer lib cmd tx len) = Z.to_nat (len + 1).
Proof.
  intros [R W]. unfold jtx_buffer. simpl.
  replace (Z.to_nat (len + 1)) with (S (Z.to_nat len)) by lia. f_equal.
  destruct tx as [t|]; simpl in W.
  - rewrite length_firstn. lia.
  - now rewrite length_map, length_seq.
Qed.

Lemma spi_put_cmd_unfold api lib cmd tx rx len e :
  put_args_ok tx len ->
  spi_put_cmd api lib cmd tx rx len e =
  bind (spi_wr_and_rd api lib (len + 1)
          (Some (jtx_buffer lib cmd tx len)) rx)
       (fun r => ret (0, copy_response len (snd r))) e.
Proof.
  intros [R W]. unfold spi_put_cmd, jtx_buffer.
  replace (u32 (len + 1)) with (len + 1)
    by (unfold u32; rewrite Z.mod_small; lia).
  replace (Z.to_nat (len + 1)) with (S (Z.to_nat len)) by lia.
  cbn [seq map]. rewrite bind_ret.
  destruct tx as [t|]; simpl in W.
  - assert (L : List.length (map (stack_byte lib) (seq 1 (Z.to_nat len)))
                = Z.to_nat len) by now rewrite length_map, length_seq.
    replace (Z.of_nat (List.length t) <? len) with false
      by (symmetry; apply Z.ltb_ge; lia).
    replace (Z.of_nat (List.length
               (cmd :: map (stack_byte lib) (seq 1 (Z.to_nat len))))
             <? 1 + len) with false
      by (symmetry; apply Z.ltb_ge; cbn [List.length]; rewrite L; lia).
    cbn [orb]. rewrite bind_ret.
    replace (skipn (1 + Z.to_nat len)
               (cmd :: map (stack_byte lib) (seq 1 (Z.to_nat len))))
      with (@nil Z)
      by (symmetry; apply skipn_all2; cbn [List.length]; rewrite L; lia).
    cbn [firstn]. rewrite app_nil_r. reflexivity.
  - rewrite bind_ret. reflexivity.
Qed.

(** How the command-prefixed [spi_put] ends on arguments it can be called
    with: as its one [spi_wr_and_rd] call does, with status 0 when that call
    returns. *)
Lemma spi_put_cmd_ends api lib cmd tx rx len e :
  put_args_ok tx len ->
  exists e' mid,
    _cs_mode e' = _cs_mode e
    /\ writes_to CS mid = []
    /\ ((exists jrx,
           spi_wr_and_rd api lib (len + 1)
             (Some (jtx_buffer lib cmd tx len)) rx e = (Ok (0, jrx), e')
           /\ spi_put_cmd api lib cmd tx rx len e =
                (Ok (0, copy_response len jrx), e')
           /\ wr_and_rd_returns api lib (len + 1)
                (Some (jtx_buffer lib cmd tx len)) rx e e' mid)
        \/ (spi_put_cmd api lib cmd tx rx len e = (Throw ErrorReadingMiso, e')
            /\ wr_and_rd_throws api lib (len + 1)
                 (Some (jtx_buffer lib cmd tx len)) rx e e' mid)).
Proof.
  intros A. rewrite (spi_put_cmd_unfold api lib cmd rx e A).
  destruct (spi_wr_and_rd_spec api lib (len + 1)
              (Some (jtx_buffer lib cmd tx len)) rx e)
    as (e' & mid & V & M' & N & [R | [T | [_ O]]]).
  - exists e', mid. split; [exact M'|]. split; [exact N|]. left.
    destruct R as (jrx & E & S & C). exists jrx.
    split; [exact E|]. split.
    + now rewrite (bind_ok _ E).
    + exists jrx. auto.
  - exists e', mid. split; [exact M'|]. split; [exact N|]. right.
    split; [|exact T]. destruct T as (E & _). now rewrite (bind_throw _ E).
  - exfalso. apply O. unfold wp_ok.
    rewrite (jtx_buffer_length lib cmd A). lia.
Qed.

(** Whatever its arguments, the command-prefixed [spi_put] stops on a
    buffer overrun before its transfer, or is one [spi_wr_and_rd] call on
    [jtx] followed by the return of the constant 0. *)
Lemma spi_put_cmd_shape api lib cmd tx rx len e :
  (exists f, spi_put_cmd api lib cmd tx rx len e = (Fault f, e))
  \/ (exists jtx k,
        spi_put_cmd api lib cmd tx rx len e =
        bind (spi_wr_and_rd api lib (u32 (len + 1)) (Some jtx) rx)
             (fun w => ret (0, k (snd w))) e).
Proof.
  unfold spi_put_cmd.
  destruct (map (stack_byte lib) (seq 0 (Z.to_nat (u32 (len + 1)))))
    as [|b rest]; [left; now exists OutOfBounds|].
  rewrite bind_ret.
  destruct tx as [t|].
  - destruct ((Z.of_nat (List.length t) <? len)
              || (Z.of_nat (List.length (cmd :: rest)) <? 1 + len));
      [left; now exists OutOfBounds|].
    rewrite bind_ret. right. eexists.
    exists (copy_response len).
    reflexivity.
  - rewrite bind_ret. right. eexists.
    exists (copy_response len).
    reflexivity.
Qed.

(** A [spi_put] call of either overload that returns has returned 0, and in
    AUTO mode has left the cached CS at 1. *)
Lemma spi_put_cmd_returned api lib cmd tx rx len e v e' :
  spi_put_cmd api lib cmd tx rx len e = (Ok v, e') ->
  fst v = 0 /\ (_cs_mode e = SPI_CS_AUTO -> _curr_cs e' = 1).
Proof.
  intros H.
  destruct (spi_put_cmd_shape api lib cmd tx rx len e)
    as [(f & E) | (jtx & k & E)]; rewrite E in H; [discriminate|].
  destruct (spi_wr_and_rd_spec api lib (u32 (len + 1)) (Some jtx) rx e)
    as (e1 & mid & _ & _ & _ & [R | [(T & _) | [(f & F) _]]]).
  - destruct R as (jrx & R & _ & C). rewrite (bind_ok _ R) in H.
    inversion H; subst. split; [reflexivity|].
    intros A. rewrite A in C. apply C.
  - rewrite (bind_throw _ T) in H. discriminate.
  - rewrite (bind_fault _ F) in H. discriminate.
Qed.

Lemma spi_put_returned api lib tx rx len e v e' :
  spi_put api lib tx rx len e = (Ok v, e') ->
  fst v = 0 /\ (_cs_mode e = SPI_CS_AUTO -> _curr_cs e' = 1).
Proof.
  unfold spi_put. intros H.
  destruct (spi_wr_and_rd_spec api lib len tx rx e)
    as (e1 & mid & _ & _ & _ & [R | [(T & _) | [(f & F) _]]]).
  - destruct R as (jrx & R & _ & C). rewrite R in H.
    inversion H; subst. split; [reflexivity|].
    intros A. rewrite A in C. apply C.
  - rewrite T in H. discriminate.
  - rewrite F in H. discriminate.
Qed.

(** C7. In AUTO mode with CS cached inactive, a [spi_put] call of either
    overload, whatever its arguments, that returns has left the cached CS at
    the inactive level it had before the call; and on arguments it can be
    called with, the call does return unless it ends in a MISO read error.
    [spi_wr_and_rd] with [writecnt = 0] returns with no write to SCK or MOSI
    and no read of MISO, the SCK and MOSI cache unchanged, and CS changed
    only by the assert and deassert of AUTO mode. *)
Theorem auto_mode_cs_returns_inactive :
  forall api lib e,
    (_cs_mode e = SPI_CS_AUTO -> _curr_cs e = 1 ->
     (forall cmd tx rx len,
        let r := spi_put_cmd api lib cmd tx rx len e in
        (forall v, fst r = Ok v -> _curr_cs (snd r) = _curr_cs e)
        /\ (put_args_ok tx len ->
            (exists v, fst r = Ok v) \/ fst r = Throw ErrorReadingMiso))
     /\ (forall tx rx len,
           let r := spi_put api lib tx rx len e in
           (forall v, fst r = Ok v -> _curr_cs (snd r) = _curr_cs e)
           /\ (wp_ok (Z.to_nat len) tx ->
               (exists v, fst r = Ok v) \/ fst r = Throw ErrorReadingMiso)))
    /\ (forall writearr readarr,
          let r := spi_wr_and_rd api lib 0 writearr readarr e in
          fst r = Ok (0, if readarr then Some [] else None)
          /\ _curr_sck (snd r) = _curr_sck e
          /\ _curr_mosi (snd r) = _curr_mosi e
          /\ _cs_mode (snd r) = _cs_mode e
          /\ match _cs_mode e with
             | SPI_CS_AUTO =>
                 _curr_cs (snd r) = 1
                 /\ hw (snd r) =
                      hw e ++ (if 0 =? _curr_cs e then []
                               else [SetValue CS (level api 0)])
                           ++ [SetValue CS (level api 1)]
             | SPI_CS_MANUAL => snd r = e
             end).
Proof.
  intros api lib e. split; [intros A C; split|].
  - intros cmd tx rx len r. subst r. split.
    + intros v H.
      destruct (spi_put_cmd api lib cmd tx rx len e) as [o e'] eqn:E.
      simpl in H. subst o.
      destruct (spi_put_cmd_returned _ _ _ _ _ _ _ E) as [_ C'].
      simpl. rewrite C. now apply C'.
    + intros W.
      destruct (spi_put_cmd_ends api lib cmd rx e W)
        as (e' & mid & _ & _ & [(jrx & _ & -> & R) | (-> & _)]);
        simpl; eauto.
  - intros tx rx len r. subst r. split.
    + intros v H.
      destruct (spi_put api lib tx rx len e) as [o e'] eqn:E.
      simpl in H. subst o.
      destruct (spi_put_returned _ _ _ _ _ _ E) as [_ C'].
      simpl. rewrite C. now apply C'.
    + intros W. unfold spi_put.
      destruct (spi_wr_and_rd_spec api lib len tx rx e)
        as (e' & mid & _ & _ & _ & [R | [(-> & _) | [_ O]]]);
        [left | now right | contradiction].
      destruct R as (rx' & -> & _). simpl. eauto.
  - intros wp rd r. subst r.
    destruct (spi_wr_and_rd_zero api lib wp rd e)
      as (e' & -> & M' & S & O & H).
    simpl. unfold read_start. repeat split; auto.
Qed.

(** C7 at work: after construction on a loopback board, a command-prefixed
    [spi_put] of two payload bytes. *)
Lemma auto_mode_cs_returns_inactive_witness :
  let lib := board loopback_miso (fun _ => 0) in
  let e := snd (LibgpiodSpiBitbang APIv2 lib pins0123 "/dev/gpiochip0" 0
                  (raw_engine SPI_CS_MANUAL 0 0 0)) in
  let r := spi_put_cmd APIv2 lib 171 (Some [1; 2]) true 2 e in
  _curr_cs (snd r) = _curr_cs e.
Proof.
  intros lib e.
  refine (proj1 (proj1 (proj1 (auto_mode_cs_returns_inactive APIv2 lib e) _ _)
                   171 (Some [1; 2]) true 2) (0, Some [1; 2]) _).
  - reflexivity.
  - reflexivity.
  - reflexivity.
Defined.

(** ** [spi_wr_then_rd] *)

Lemma setCSmode_spec m e :
  setCSmode m e = (Ok tt, set_cs_mode m e).
Proof. reflexivity. Qed.

(** The two ends of [spi_wr_then_rd] on a write buffer that is long enough:
    it returns 0 after one assert and one deassert of CS, in AUTO mode; or a
    v2 read of MISO throws, and the engine is left in MANUAL mode with CS
    asserted. *)
Lemma spi_wr_then_rd_spec api lib tx tx_len rx rx_len e :
  wp_ok (Z.to_nat tx_len) tx ->
  exists e' mid,
    writes_to CS mid = []
    /\ ((exists rxd,
           spi_wr_then_rd api lib tx tx_len rx rx_len e = (Ok (0, rxd), e')
           /\ stored (Z.to_nat rx_len) (read_start rx) rxd
           /\ _cs_mode e' = SPI_CS_AUTO
           /\ _curr_cs e' = 1
           /\ hw e' = hw e ++ pin_write api CS 0 (_curr_cs e) ++ mid
                           ++ [SetValue CS (level api 1)])
        \/ (spi_wr_then_rd api lib tx tx_len rx rx_len e
              = (Throw ErrorReadingMiso, e')
            /\ api = APIv2
            /\ _cs_mode e' = SPI_CS_MANUAL
            /\ _curr_cs e' = 0
            /\ hw e' = hw e ++ pin_write api CS 0 (_curr_cs e) ++ mid)).
Proof.
  intros W. unfold spi_wr_then_rd.
  rewrite (bind_ok _ (setCSmode_spec SPI_CS_MANUAL e)).
  set (e0 := set_cs_mode SPI_CS_MANUAL e).
  destruct (clearCs_spec api lib e0) as (e1 & E1 & V1 & M1 & C1 & _ & _ & H1).
  rewrite (bind_ok _ E1).
  change (hw e0) with (hw e) in H1. change (_curr_cs e0) with (_curr_cs e) in H1.
  change (_cs_mode e0) with SPI_CS_MANUAL in M1.
  destruct (spi_wr_and_rd_spec api lib tx_len tx false e1)
    as (e2 & mid1 & V2 & M2 & N1 & [R | [T | [_ O]]]);
    [ | | contradiction].
  - destruct R as (rx1 & E2 & _ & R). rewrite M1 in R. simpl in R.
    destruct R as [C2 H2]. rewrite (bind_ok _ E2). cbn [fst].
    change (u32 0 =? 0) with true. cbn [negb].
    destruct (spi_wr_and_rd_spec api lib rx_len None rx e2)
      as (e3 & mid2 & V3 & M3 & N2 & [R | [T | [_ O]]]);
      [ | | exfalso; apply O; exact I].
    + destruct R as (rx2 & E3 & S3 & R). rewrite M2, M1 in R. simpl in R.
      destruct R as [C3 H3].
      rewrite bind_assoc, (bind_ok _ E3). cbn [fst snd].
      change (u32 0 =? 0) with true. cbn [negb when].
      rewrite bind_assoc, bind_ret, bind_ret.
      change (u32 0) with 0.
      destruct (setCs_spec api lib e3) as (e4 & E4 & V4 & M4 & C4 & _ & _ & H4).
      rewrite (bind_ok _ E4). rewrite (bind_ok _ (setCSmode_spec SPI_CS_AUTO e4)).
      unfold ret. exists (set_cs_mode SPI_CS_AUTO e4), (mid1 ++ mid2).
      split; [now rewrite writes_to_app, N1, N2|]. left.
      exists rx2. split; [reflexivity|]. split; [exact S3|]. simpl.
      split; [reflexivity|]. split; [exact C4|].
      rewrite H4, H3, H2, H1, C3, C2, C1, <- !app_assoc. reflexivity.
    + destruct T as (E3 & Hapi & T). rewrite M2, M1 in T. simpl in T.
      destruct T as [C3 H3].
      rewrite bind_assoc, (bind_throw _ E3).
      exists e3, (mid1 ++ mid2).
      split; [now rewrite writes_to_app, N1, N2|]. right.
      split; [reflexivity|]. split; [exact Hapi|].
      split; [congruence|]. split; [congruence|].
      rewrite H3, H2, H1, <- !app_assoc. reflexivity.
  - destruct T as (E2 & Hapi & T). rewrite M1 in T. simpl in T.
    destruct T as [C2 H2]. rewrite (bind_throw _ E2).
    exists e2, mid1. split; [exact N1|]. right.
    split; [reflexivity|]. split; [exact Hapi|].
    split; [congruence|]. split; [congruence|].
    rewrite H2, H1, <- !app_assoc. reflexivity.
Qed.

(** C8, the failing input.  [spi_wr_then_rd] is written to clean up after
    a transfer that failed: both [ret != 0] branches fall through to
    [setCs()] and [setCSmode(SPI_CS_AUTO)].  But [spi_wr_and_rd] never
    returns anything but 0, and the one error it can meet, a failed read of
    MISO with the v2 API, leaves it as an exception that nothing catches.
    With the v2 API and a MISO line whose reads report an error, the call
    [spi_wr_then_rd({0x9F}, 1, rx, 3)] from the engine the constructor
    returned throws at the first read: CS has been asserted and is never
    deasserted, and the engine stays in MANUAL mode. *)
Theorem spi_wr_then_rd_throw_keeps_cs_asserted :
  let miso := fun _ : history => GPIOD_LINE_VALUE_ERROR in
  let e := engine_on APIv2 miso in
  let r := spi_wr_then_rd APIv2 (board miso (fun _ => 0))
             (Some [159]) 1 true 3 e in
  _cs_mode e = SPI_CS_AUTO /\ _curr_cs e = 1
  /\ fst r = Throw ErrorReadingMiso
  /\ _cs_mode (snd r) = SPI_CS_MANUAL
  /\ _curr_cs (snd r) = 0
  /\ writes_to CS (added_since e (hw (snd r))) = [0].
Proof. vm_compute. auto 10. Qed.

(** The same call on the same line with the v1 API, where the failed reads
    are not detected: it returns, CS has been asserted once and deasserted
    once, and the engine is back in AUTO mode. *)
Lemma spi_wr_then_rd_v1_completes_cleanup :
  let miso := fun _ : history => GPIOD_LINE_VALUE_ERROR in
  let e := engine_on APIv1 miso in
  let r := spi_wr_then_rd APIv1 (board miso (fun _ => 0))
             (Some [159]) 1 true 3 e in
  _cs_mode e = SPI_CS_AUTO /\ _curr_cs e = 1
  /\ fst r = Ok (0, Some [255; 255; 255])
  /\ _cs_mode (snd r) = SPI_CS_AUTO
  /\ _curr_cs (snd r) = 1
  /\ writes_to CS (added_since e (hw (snd r))) = [0; 1].
Proof. vm_compute. auto 10. Qed.

(** When no read of MISO throws, the sequence is complete.  On a write
    buffer of at least [tx_len] bytes, from an engine whose cached CS is
    inactive, a [spi_wr_then_rd] call in which no MISO read throws returns
    status 0, in AUTO mode, having written CS exactly twice: the assert
    first, before anything else, and the deassert last. *)
Lemma spi_wr_then_rd_brackets_cs :
  forall api lib tx_data tx_len rx_data rx_len e,
    wp_ok (Z.to_nat tx_len) tx_data ->
    _curr_cs e = 1 ->
    let r := spi_wr_then_rd api lib tx_data tx_len rx_data rx_len e in
    fst r <> Throw ErrorReadingMiso ->
    (exists rxd, fst r = Ok (0, rxd))
    /\ _cs_mode (snd r) = SPI_CS_AUTO
    /\ _curr_cs (snd r) = 1
    /\ exists mid,
         hw (snd r) = hw e ++ [SetValue CS (level api 0)] ++ mid
                           ++ [SetValue CS (level api 1)]
         /\ writes_to CS mid = [].
Proof.
  intros api lib tx tx_len rx rx_len e W C r NT. subst r.
  destruct (@spi_wr_then_rd_spec api lib tx tx_len rx rx_len e W)
    as (e' & mid & N & [(rxd & E & _ & M' & C' & H) | (E & _)]).
  - rewrite E in *. simpl. split; [eauto|]. split; [exact M'|].
    split; [exact C'|]. exists mid. split; [|exact N].
    rewrite H, C. reflexivity.
  - rewrite E in NT. now elim NT.
Qed.

Lemma spi_wr_then_rd_brackets_cs_on_loopback :
  let e := engine_on APIv2 loopback_miso in
  let r := spi_wr_then_rd APIv2 (board loopback_miso (fun _ => 0))
             (Some [159]) 1 true 3 e in
  (exists rxd, fst r = Ok (0, rxd))
  /\ _cs_mode (snd r) = SPI_CS_AUTO
  /\ _curr_cs (snd r) = 1
  /\ exists mid,
       hw (snd r) = hw e ++ [SetValue CS (level APIv2 0)] ++ mid
                         ++ [SetValue CS (level APIv2 1)]
       /\ writes_to CS mid = [].
Proof.
  intros e.
  apply (spi_wr_then_rd_brackets_cs APIv2 (board loopback_miso (fun _ => 0))
           (Some [159]) 1 true 3 e).
  - simpl. lia.
  - reflexivity.
  - vm_compute. discriminate.
Defined.

(** With the v1 API no read of MISO throws, and [spi_wr_then_rd] always
    returns. *)
Lemma spi_wr_then_rd_v1_returns lib tx tx_len rx rx_len e :
  wp_ok (Z.to_nat tx_len) tx ->
  exists rxd, fst (spi_wr_then_rd APIv1 lib tx tx_len rx rx_len e)
              = Ok (0, rxd).
Proof.
  intros W.
  destruct (@spi_wr_then_rd_spec APIv1 lib tx tx_len rx rx_len e W)
    as (e' & mid & N & [(rxd & E & _) | (_ & A & _)]); [|discriminate].
  exists rxd. now rewrite E.
Qed.

(** ** [spi_wait] *)

Lemma quiet_log_out d e : quiet e (log_out d e).
Proof.
  unfold quiet. simpl. repeat split. exists []. now rewrite app_nil_r.
Qed.

(** In MANUAL mode a transfer leaves CS alone, however it ends. *)
Lemma spi_wr_and_rd_manual_quiet api lib writecnt wp rd e :
  _cs_mode e = SPI_CS_MANUAL ->
  wp_ok (Z.to_nat writecnt) wp ->
  quiet e (snd (spi_wr_and_rd api lib writecnt wp rd e))
  /\ benign api (fst (spi_wr_and_rd api lib writecnt wp rd e)).
Proof.
  intros A W.
  destruct (spi_wr_and_rd_spec api lib writecnt wp rd e)
    as (e' & mid & V & M' & N & [R | [T | [_ O]]]); [ | | contradiction].
  - destruct R as (rx & -> & _ & R). rewrite A in R. simpl in R.
    simpl. split; [|exact I]. unfold quiet. intuition eauto.
  - destruct T as (-> & Hapi & T). rewrite A in T. simpl in T.
    simpl. split; [|now split]. unfold quiet. intuition eauto.
Qed.

Lemma wait_count_step timeout count :
  0 <= timeout < 4294967296 ->
  0 <= count < 4294967296 ->
  u32 (count + 1) <> timeout ->
  (timeout - count - 1) mod 4294967296
  = (timeout - u32 (count + 1) - 1) mod 4294967296 + 1.
Proof.
  unfold u32. intros T C N.
  Z.div_mod_to_equations. lia.
Qed.

(** The polling loop never exhausts the passes it is given: it returns, or
    a v2 read of MISO throws. *)
Lemma wait_loop_ends api lib mask cond timeout verbose fuel :
  forall count e,
    _cs_mode e = SPI_CS_MANUAL ->
    0 <= timeout < 4294967296 ->
    0 <= count < 4294967296 ->
    Z.of_nat fuel = (timeout - count - 1) mod 4294967296 + 1 ->
    quiet e (snd (wait_loop api lib fuel mask cond timeout verbose count e))
    /\ benign api
         (fst (wait_loop api lib fuel mask cond timeout verbose count e)).
Proof.
  induction fuel as [|fuel IH]; intros count e A T C F.
  - exfalso. assert (0 <= (timeout - count - 1) mod 4294967296)
      by (apply Z.mod_pos_bound; lia). lia.
  - cbn [wait_loop].
    destruct (@spi_wr_and_rd_manual_quiet api lib 1 None true e A I) as [Q B].
    destruct (spi_wr_and_rd api lib 1 None true e) as [[r|x|x] e1] eqn:E;
      simpl in Q, B;
      [rewrite (bind_ok _ E) | rewrite (bind_throw _ E) | contradiction].
    + set (rx := match snd r with Some (b :: _) => b | _ => 0 end).
      destruct (u32 (count + 1) =? timeout) eqn:Hc.
      * unfold printf. rewrite bind_modify. unfold ret. simpl.
        split; [|exact I].
        eapply quiet_trans; [exact Q | apply quiet_log_out].
      * apply Z.eqb_neq in Hc.
        assert (Q1 : exists e2,
                   when verbose (printf (MsgPoll rx mask cond (u32 (count + 1))))
                     e1 = (Ok tt, e2) /\ quiet e1 e2).
        { destruct verbose; simpl.
          - eexists. split; [reflexivity | apply quiet_log_out].
          - eexists. split; [reflexivity | apply quiet_refl]. }
        destruct Q1 as (e2 & E2 & Q2). rewrite (bind_ok _ E2).
        destruct (negb (Z.land rx mask =? cond)).
        -- assert (A2 : _cs_mode e2 = SPI_CS_MANUAL).
           { destruct Q as (_ & M1 & _), Q2 as (_ & M2 & _). congruence. }
           assert (C2 : 0 <= u32 (count + 1) < 4294967296)
             by (apply Z.mod_pos_bound; lia).
           assert (F2 : Z.of_nat fuel
                        = (timeout - u32 (count + 1) - 1) mod 4294967296 + 1).
           { pose proof (wait_count_step T C Hc). lia. }
           destruct (IH (u32 (count + 1)) e2 A2 T C2 F2) as [Q3 B3].
           split; [|exact B3].
           eapply quiet_trans; [exact Q|].
           eapply quiet_trans; [exact Q2 | exact Q3].
        -- unfold ret. simpl. split; [|exact I].
           eapply quiet_trans; [exact Q | exact Q2].
    + simpl. now split.
Qed.

Lemma wait_bound_enough timeout :
  0 <= timeout < 4294967296 ->
  Z.of_nat (wait_bound timeout) = (timeout - 0 - 1) mod 4294967296 + 1.
Proof.
  intros T. unfold wait_bound.
  destruct (timeout =? 0) eqn:Z0.
  - apply Z.eqb_eq in Z0. subst. rewrite Z2Nat.id by lia. reflexivity.
  - apply Z.eqb_neq in Z0. rewrite Z2Nat.id by lia.
    rewrite Z.mod_small; lia.
Qed.

(** The two ends of [spi_wait]: it returns 0 or [-ETIME] after one assert
    and one deassert of CS, in AUTO mode; or a v2 read of MISO throws, and
    the engine is left in MANUAL mode with CS asserted. *)
Lemma spi_wait_ends api lib cmd mask cond timeout verbose e :
  exists e' mid,
    writes_to CS mid = []
    /\ ((exists st,
           spi_wait api lib cmd mask cond timeout verbose e = (Ok st, e')
           /\ (st = 0 \/ st = - ETIME)
           /\ _cs_mode e' = SPI_CS_AUTO
           /\ _curr_cs e' = 1
           /\ hw e' = hw e ++ pin_write api CS 0 (_curr_cs e) ++ mid
                           ++ [SetValue CS (level api 1)])
        \/ (spi_wait api lib cmd mask cond timeout verbose e
              = (Throw ErrorReadingMiso, e')
            /\ api = APIv2
            /\ _cs_mode e' = SPI_CS_MANUAL
            /\ _curr_cs e' = 0
            /\ hw e' = hw e ++ pin_write api CS 0 (_curr_cs e) ++ mid)).
Proof.
  unfold spi_wait.
  assert (T : 0 <= u32 timeout < 4294967296) by (apply Z.mod_pos_bound; lia).
  set (t := u32 timeout) in *.
  rewrite (bind_ok _ (setCSmode_spec SPI_CS_MANUAL e)).
  set (e0 := set_cs_mode SPI_CS_MANUAL e).
  destruct (clearCs_spec api lib e0) as (e1 & E1 & V1 & M1 & C1 & _ & _ & H1).
  rewrite (bind_ok _ E1).
  change (hw e0) with (hw e) in H1. change (_curr_cs e0) with (_curr_cs e) in H1.
  change (_cs_mode e0) with SPI_CS_MANUAL in M1.
  assert (W : wp_ok (Z.to_nat 1) (Some [cmd])) by (simpl; lia).
  destruct (@spi_wr_and_rd_manual_quiet api lib 1 (Some [cmd]) false e1 M1 W)
    as [(V2 & M2 & C2 & mid1 & H2 & N1) B2].
  destruct (spi_wr_and_rd api lib 1 (Some [cmd]) false e1) as [[r|x|x] e2] eqn:E2;
    simpl in V2, M2, C2, H2, B2;
    [rewrite (bind_ok _ E2) | rewrite (bind_throw _ E2) | contradiction].
  - assert (A2 : _cs_mode e2 = SPI_CS_MANUAL) by congruence.
    assert (C0 : 0 <= 0 < 4294967296) by lia.
    destruct (@wait_loop_ends api lib mask cond t verbose (wait_bound t) 0 e2
                A2 T C0 (wait_bound_enough T))
      as [(V3 & M3 & C3 & mid2 & H3 & N2) B3].
    destruct (wait_loop api lib (wait_bound t) mask cond t verbose 0 e2)
      as [[w|x|x] e3] eqn:E3; simpl in V3, M3, C3, H3, B3;
      [rewrite (bind_ok _ E3) | rewrite (bind_throw _ E3) | contradiction].
    + destruct (setCs_spec api lib e3) as (e4 & E4 & V4 & M4 & C4 & _ & _ & H4).
      rewrite (bind_ok _ E4), (bind_ok _ (setCSmode_spec SPI_CS_AUTO e4)).
      assert (H : hw e4 = hw e ++ pin_write api CS 0 (_curr_cs e)
                               ++ (mid1 ++ mid2)
                               ++ [SetValue CS (level api 1)]).
      { rewrite H4, H3, H2, H1, C3, C2, C1, <- !app_assoc. reflexivity. }
      assert (N : writes_to CS (mid1 ++ mid2) = [])
        by now rewrite writes_to_app, N1, N2.
      destruct (snd w =? t).
      * unfold printf. rewrite bind_modify. unfold ret.
        exists (log_out (MsgWaitError (fst w)) (set_cs_mode SPI_CS_AUTO e4)),
          (mid1 ++ mid2).
        split; [exact N|]. left. exists (- ETIME). simpl. auto 10.
      * unfold ret. exists (set_cs_mode SPI_CS_AUTO e4), (mid1 ++ mid2).
        split; [exact N|]. left. exists 0. simpl. auto 10.
    + destruct B3 as [-> Hapi].
      exists e3, (mid1 ++ mid2).
      split; [now rewrite writes_to_app, N1, N2|]. right.
      split; [reflexivity|]. split; [exact Hapi|].
      split; [congruence|]. split; [congruence|].
      rewrite H3, H2, H1, <- !app_assoc. reflexivity.
  - destruct B2 as [-> Hapi].
    exists e2, mid1. split; [exact N1|]. right.
    split; [reflexivity|]. split; [exact Hapi|].
    split; [congruence|]. split; [congruence|].
    rewrite H2, H1, <- !app_assoc. reflexivity.
Qed.

(** ** The constructor *)

Lemma display_throw A d (x : exn) e :
  exists e',
    bind (display d) (fun _ => @throw A x) e = (Throw x, e')
    /\ same_fields e e' /\ hw e' = hw e.
Proof.
  destruct (display_spec d e) as (e' & E & F & H).
  exists e'. rewrite (bind_ok _ E). auto.
Qed.

Lemma check_duplicate_spec p rest e :
  (~ In p rest /\ check_duplicate p rest e = (Ok tt, e))
  \/ (In p rest
      /\ exists e', check_duplicate p rest e = (Throw PinsSameNumber, e')
                    /\ hw e' = hw e).
Proof.
  induction rest as [|q rest IH]; cbn [check_duplicate].
  - left. split; [intros [] | reflexivity].
  - destruct (Z.eqb_spec p q) as [->|N].
    + right. split; [now left|].
      destruct (display_throw unit (MsgPinDuplicate q) PinsSameNumber e)
        as (e' & E & _ & H).
      exists e'. auto.
    + destruct IH as [[NI E] | [I (e' & E & H)]].
      * left. split; [|exact E]. intros [Q|Q]; [congruence | contradiction].
      * right. split; [now right | eauto].
Qed.

(** The validation loop returns on pins that are all in range and pairwise
    distinct, and on those only; otherwise it throws, for a pin out of range
    or for two equal pins, before anything reaches the hardware. *)
Lemma validate_pins_spec pins : forall e,
  (Forall in_range pins /\ NoDup pins /\ validate_pins pins e = (Ok tt, e))
  \/ (exists x e',
        validate_pins pins e = (Throw x, e')
        /\ hw e' = hw e
        /\ ((x = PinOutsideValidRange /\ ~ Forall in_range pins)
            \/ (x = PinsSameNumber /\ ~ NoDup pins))).
Proof.
  induction pins as [|p rest IH]; intros e; cbn [validate_pins].
  - left. repeat constructor.
  - destruct ((p <? 0) || (p >=? 1000)) eqn:R.
    + right.
      destruct (display_throw unit (MsgPinRange p) PinOutsideValidRange e)
        as (e' & E & _ & H).
      exists PinOutsideValidRange, e'. split; [exact E|]. split; [exact H|].
      left. split; [reflexivity|]. intros F. inversion F as [|? ? Hp _]; subst.
      unfold in_range in Hp. apply orb_true_iff in R.
      destruct R as [R|R]; [apply Z.ltb_lt in R | apply Z.geb_le in R]; lia.
    + apply orb_false_iff in R. destruct R as [R1 R2].
      apply Z.ltb_ge in R1. rewrite Z.geb_leb in R2. apply Z.leb_gt in R2.
      destruct (check_duplicate_spec p rest e)
        as [[NI E] | [I (e' & E & H)]].
      * rewrite (bind_ok _ E).
        destruct (IH e) as [(F & D & E') | (x & e' & E' & H & C)].
        -- left. split; [|split; [|exact E']].
           ++ constructor; [unfold in_range; lia | exact F].
           ++ now constructor.
        -- right. exists x, e'. split; [exact E'|]. split; [exact H|].
           destruct C as [[-> C] | [-> C]]; [left | right];
             (split; [reflexivity|]); intros Q; apply C;
             inversion Q; assumption.
      * right. rewrite (bind_throw _ E).
        exists PinsSameNumber, e'. split; [reflexivity|]. split; [exact H|].
        right. split; [reflexivity|]. intros Q. inversion Q. contradiction.
Qed.

Lemma display_cases d e :
  display d e = (Ok tt, e) \/ display d e = (Ok tt, log_out d e).
Proof.
  unfold display. rewrite bind_gets. destruct (_verbose e); simpl; auto.
Qed.

Lemma get_line_granted lib offset val output e :
  grants_lines lib ->
  get_line lib offset val output e =
  (Ok tt, log_hw (LineRequest offset output val)
            (log_hw (ChipGetLine offset) e)).
Proof.
  intros [G R]. unfold get_line.
  rewrite bind_gets, bind_modify, G. cbn [negb].
  rewrite bind_gets, bind_modify.
  replace (gpiod_line_request lib (hw (log_hw (ChipGetLine offset) e)) offset
           <? 0) with false; [reflexivity|].
  symmetry. apply Z.ltb_ge. apply R.
Qed.

Lemma request_lines_granted api lib e :
  (api = APIv1 -> grants_lines lib) ->
  exists e',
    request_lines api lib e = (Ok tt, e')
    /\ _verbose e' = _verbose e
    /\ hw e' = hw e ++ request_events api (_cs_pin e) (_sck_pin e)
                        (_mosi_pin e) (_miso_pin e).
Proof.
  intros G. unfold request_lines. rewrite !bind_gets.
  destruct api.
  - specialize (G eq_refl).
    rewrite (bind_ok _ (get_line_granted _ _ _ _ G)).
    rewrite (bind_ok _ (get_line_granted _ _ _ _ G)).
    rewrite (bind_ok _ (get_line_granted _ _ _ _ G)).
    rewrite (get_line_granted _ _ _ _ G).
    eexists. split; [reflexivity|]. simpl.
    rewrite <- !app_assoc. auto.
  - rewrite !bind_modify. unfold modify.
    eexists. split; [reflexivity|]. simpl.
    rewrite <- !app_assoc. auto.
Qed.

(** Every path through the constructor up to the opening of the chip: what
    is thrown for a bad device path or bad pins, with the history as it
    was. *)
Lemma constructor_validates api lib c dev verbose e :
  let r := LibgpiodSpiBitbang api lib c dev verbose e in
  (~ valid_dev dev /\ fst r = Throw InvalidGpioChip /\ hw (snd r) = hw e)
  \/ (valid_dev dev /\ ~ Forall in_range (pins_of c)
      /\ fst r = Throw PinOutsideValidRange /\ hw (snd r) = hw e)
  \/ (valid_dev dev /\ ~ NoDup (pins_of c)
      /\ fst r = Throw PinsSameNumber /\ hw (snd r) = hw e)
  \/ (valid_dev dev /\ Forall in_range (pins_of c) /\ NoDup (pins_of c)
      /\ exists e1,
           _verbose e1 = negb (verbose =? 0)
           /\ hw e1 = hw e ++ [ChipOpen (chip_path dev)]
           /\ (_cs_pin e1, _sck_pin e1, _mosi_pin e1, _miso_pin e1)
              = (cs_pin c, sck_pin c, mosi_pin c, miso_pin c)
           /\ r = (if negb (gpiod_chip_open lib (chip_path dev)) then
                     display (MsgUnableOpen (chip_path dev)) ;;
                     throw UnableToOpenChip
                   else
                     request_lines api lib ;;
                     modify (set_curr 0 1 1) ;;
                     update_pins api lib 1 0 0 ;;
                     setCSmode SPI_CS_AUTO)%spi e1).
Proof.
  intros r. subst r. unfold LibgpiodSpiBitbang. fold (chip_path dev).
  rewrite bind_modify.
  set (e0 := set_config (negb (verbose =? 0)) c e).
  assert (P : exists e1,
             display (MsgBanner (chip_path dev)) e0 = (Ok tt, e1)
             /\ _verbose e1 = negb (verbose =? 0) /\ hw e1 = hw e
             /\ (_cs_pin e1, _sck_pin e1, _mosi_pin e1, _miso_pin e1)
                = (cs_pin c, sck_pin c, mosi_pin c, miso_pin c)).
  { destruct (display_cases (MsgBanner (chip_path dev)) e0) as [E|E];
      eexists; (split; [exact E|]); simpl; auto. }
  destruct P as (e1 & E1 & V1 & H1 & P1). rewrite (bind_ok _ E1).
  destruct ((Z.of_nat (String.length (chip_path dev)) <? 14)
            || negb (substring 0 13 (chip_path dev) =? "/dev/gpiochip")%string)
    eqn:D.
  - left.
    destruct (display_throw unit (MsgInvalidChip (chip_path dev))
                InvalidGpioChip e1) as (e2 & E2 & _ & H2).
    rewrite E2. simpl. split; [|split; [reflexivity | congruence]].
    intros [L S]. apply orb_true_iff in D. destruct D as [D|D].
    + apply Z.ltb_lt in D. lia.
    + rewrite S, String.eqb_refl in D. discriminate.
  - apply orb_false_iff in D. destruct D as [D1 D2].
    apply Z.ltb_ge in D1. apply negb_false_iff, String.eqb_eq in D2.
    assert (VD : valid_dev dev) by (split; assumption).
    rewrite !bind_gets. inversion P1 as [[Pcs Psck Pmosi Pmiso]].
    rewrite Pcs, Psck, Pmosi, Pmiso.
    fold (pins_of c).
    destruct (validate_pins_spec (pins_of c) e1)
      as [(F & N & E) | (x & e2 & E & H & [[-> C] | [-> C]])].
    + right; right; right. rewrite (bind_ok _ E), bind_modify.
      split; [exact VD|]. split; [exact F|]. split; [exact N|].
      exists (log_hw (ChipOpen (chip_path dev)) e1).
      simpl. rewrite H1. auto.
    + right; left. rewrite (bind_throw _ E). simpl.
      split; [exact VD|]. split; [exact C|]. split; [reflexivity|congruence].
    + right; right; left. rewrite (bind_throw _ E). simpl.
      split; [exact VD|]. split; [exact C|]. split; [reflexivity|congruence].
Qed.

Lemma not_all_in_range pins :
  ~ Forall in_range pins -> exists p, In p pins /\ (p < 0 \/ 999 < p).
Proof.
  induction pins as [|p rest IH]; intros N.
  - elim N. constructor.
  - destruct (Z_lt_dec p 0) as [L|L]; [exists p; simpl; auto|].
    destruct (Z_lt_dec 999 p) as [G|G]; [exists p; simpl; auto|].
    destruct IH as (q & I & O).
    + intros F. apply N. constructor; [unfold in_range; lia | exact F].
    + exists q. simpl. auto.
Qed.

(** C5. For every pin assignment with a pin outside 0..999 or with two equal
    pins, the constructor throws a configuration error and the history of
    libgpiod calls is what it was: no chip is opened and no line requested.
    The error is the one for the device path when the path is bad, and
    otherwise one of two different errors: the out-of-range one, thrown only
    when some pin is out of range, or the duplicate one, thrown only when
    two pins are equal. *)
Theorem invalid_pins_fail_before_hardware :
  forall api lib c dev verbose e,
    (exists p, In p (pins_of c) /\ (p < 0 \/ 999 < p))
    \/ ~ NoDup (pins_of c) ->
    let r := LibgpiodSpiBitbang api lib c dev verbose e in
    hw (snd r) = hw e
    /\ PinOutsideValidRange <> PinsSameNumber
    /\ ((fst r = Throw InvalidGpioChip /\ ~ valid_dev dev)
        \/ (fst r = Throw PinOutsideValidRange /\ valid_dev dev
            /\ exists p, In p (pins_of c) /\ (p < 0 \/ 999 < p))
        \/ (fst r = Throw PinsSameNumber /\ valid_dev dev
            /\ ~ NoDup (pins_of c))).
Proof.
  intros api lib c dev verbose e Bad r.
  destruct (constructor_validates api lib c dev verbose e)
    as [(V & T & H) | [(V & F & T & H) | [(V & N & T & H) | (V & F & N & _)]]];
    fold r in T, H || idtac.
  - split; [exact H|]. split; [discriminate|]. left. auto.
  - split; [exact H|]. split; [discriminate|]. right; left.
    split; [exact T|]. split; [exact V|]. now apply not_all_in_range.
  - split; [exact H|]. split; [discriminate|]. right; right. auto.
  - exfalso. destruct Bad as [(p & I & O) | D]; [|contradiction].
    rewrite Forall_forall in F. specialize (F p I). unfold in_range in F. lia.
Qed.

Lemma invalid_pins_fail_before_hardware_witness :
  let c := {| cs_pin := 5; sck_pin := 1000; mosi_pin := 5; miso_pin := 3 |} in
  let e := raw_engine SPI_CS_MANUAL 0 0 0 in
  let r := LibgpiodSpiBitbang APIv1 (board loopback_miso (fun _ => 0)) c
             "/dev/gpiochip0" 1 e in
  hw (snd r) = hw e
  /\ PinOutsideValidRange <> PinsSameNumber
  /\ ((fst r = Throw InvalidGpioChip /\ ~ valid_dev "/dev/gpiochip0")
      \/ (fst r = Throw PinOutsideValidRange /\ valid_dev "/dev/gpiochip0"
          /\ exists p, In p (pins_of c) /\ (p < 0 \/ 999 < p))
      \/ (fst r = Throw PinsSameNumber /\ valid_dev "/dev/gpiochip0"
          /\ ~ NoDup (pins_of c))).
Proof.
  intros c e.
  apply (@invalid_pins_fail_before_hardware APIv1
           (board loopback_miso (fun _ => 0)) c "/dev/gpiochip0"%string 1 e).
  left. exists 1000. split; [simpl; auto | lia].
Defined.

(** The order of the checks decides between the two errors when a pin
    assignment has both defects: pin 0 is compared with the pins after it
    before pin 1 is checked against the range. *)
Lemma duplicate_reported_before_later_range_error :
  let c := {| cs_pin := 5; sck_pin := 1000; mosi_pin := 5; miso_pin := 3 |} in
  let r := LibgpiodSpiBitbang APIv1 (board loopback_miso (fun _ => 0)) c
             "/dev/gpiochip0" 1 (raw_engine SPI_CS_MANUAL 0 0 0) in
  fst r = Throw PinsSameNumber
  /\ hw (snd r) = []
  /\ out (snd r) = [MsgBanner "/dev/gpiochip0"; MsgPinDuplicate 5].
Proof. vm_compute. auto. Qed.

(** C4, as stated, fails: after construction the cache holds SCK = 0 and
    MOSI = 0, not 1.  The constructor stores CS = 0, SCK = 1, MOSI = 1 in the
    cache and then calls [update_pins(1, 0, 0)], which writes all three
    lines and leaves its arguments in the cache. *)
Lemma construction_caches_sck_mosi_low :
  let r := LibgpiodSpiBitbang APIv2 (board loopback_miso (fun _ => 0))
             pins0123 "/dev/gpiochip0" 0 (raw_engine SPI_CS_MANUAL 0 0 0) in
  fst r = Ok tt
  /\ (_curr_cs (snd r), _curr_sck (snd r), _curr_mosi (snd r)) = (1, 0, 0)
  /\ (_curr_cs (snd r), _curr_sck (snd r), _curr_mosi (snd r)) <> (1, 1, 1).
Proof. vm_compute. repeat split; discriminate. Qed.

(** C4, amended. For every pin assignment of four distinct pins in 0..999
    and every accepted device path, on a chip that opens (and, with the v1
    API, hands out its lines), the constructor returns in AUTO mode with the
    cache at CS = 1, SCK = 0, MOSI = 0, after opening the chip, requesting
    the four lines and writing each output line exactly once: MOSI low, SCK
    low, CS high. *)
Theorem construction_drives_idle_state :
  forall api lib c dev verbose e,
    Forall in_range (pins_of c) ->
    NoDup (pins_of c) ->
    valid_dev dev ->
    gpiod_chip_open lib (chip_path dev) = true ->
    (api = APIv1 -> grants_lines lib) ->
    let r := LibgpiodSpiBitbang api lib c dev verbose e in
    fst r = Ok tt
    /\ _curr_cs (snd r) = 1
    /\ _curr_sck (snd r) = 0
    /\ _curr_mosi (snd r) = 0
    /\ _cs_mode (snd r) = SPI_CS_AUTO
    /\ hw (snd r) =
         hw e ++ [ChipOpen (chip_path dev)]
              ++ request_events api (cs_pin c) (sck_pin c) (mosi_pin c)
                   (miso_pin c)
              ++ [SetValue MOSI (level api 0); SetValue SCK (level api 0);
                  SetValue CS (level api 1)].
Proof.
  intros api lib c dev verbose e F N V O G r. subst r.
  destruct (constructor_validates api lib c dev verbose e)
    as [(V' & _) | [(_ & F' & _) | [(_ & N' & _)
       | (_ & _ & _ & e1 & V1 & H1 & P1 & E)]]];
    try contradiction.
  rewrite E, O. cbn [negb].
  inversion P1 as [[Pcs Psck Pmosi Pmiso]].
  destruct (@request_lines_granted api lib e1 G) as (e2 & E2 & V2 & H2).
  rewrite (bind_ok _ E2), bind_modify.
  destruct (update_pins_spec api lib 1 0 0 (set_curr 0 1 1 e2))
    as (e3 & E3 & M3 & V3 & C3 & S3 & O3 & H3).
  rewrite (bind_ok _ E3). simpl.
  repeat (split; [assumption || reflexivity|]).
  rewrite H3. simpl. rewrite H2, H1, Pcs, Psck, Pmosi, Pmiso.
  rewrite <- !app_assoc. reflexivity.
Qed.

Lemma construction_drives_idle_state_witness :
  let lib := board loopback_miso (fun _ => 0) in
  let r := LibgpiodSpiBitbang APIv1 lib pins0123 "" 0
             (raw_engine SPI_CS_MANUAL 1 1 0) in
  fst r = Ok tt
  /\ _curr_cs (snd r) = 1
  /\ _curr_sck (snd r) = 0
  /\ _curr_mosi (snd r) = 0
  /\ _cs_mode (snd r) = SPI_CS_AUTO
  /\ hw (snd r) =
       [] ++ [ChipOpen "/dev/gpiochip0"]
          ++ request_events APIv1 0 1 2 3
          ++ [SetValue MOSI 0; SetValue SCK 0; SetValue CS 1].
Proof.
  intros lib.
  apply (@construction_drives_idle_state APIv1 lib pins0123 ""%string 0
           (raw_engine SPI_CS_MANUAL 1 1 0)).
  - unfold in_range. repeat constructor; simpl; lia.
  - repeat constructor; simpl; intuition lia.
  - split; [simpl; lia | reflexivity].
  - reflexivity.
  - intros _. split; intros; simpl; [reflexivity | lia].
Defined.

(** ** Return values and the CS mode *)

(** C9. A [spi_put] call of either overload, whatever its arguments, that
    returns has returned status 0; and on arguments it can be called with,
    the call does return unless it ends in a MISO read error, which only the
    v2 API raises.  The command-prefixed overload is its one [spi_wr_and_rd]
    call followed by the return of the constant 0: the status of that call
    is not looked at. *)
Theorem spi_put_returns_zero :
  forall api lib e,
    (forall cmd tx rx len,
       let r := spi_put_cmd api lib cmd tx rx len e in
       (forall v, fst r = Ok v -> fst v = 0)
       /\ (put_args_ok tx len ->
           ((exists rxd, fst r = Ok (0, rxd))
            \/ (fst r = Throw ErrorReadingMiso /\ api = APIv2))
           /\ exists k,
                r = bind (spi_wr_and_rd api lib (len + 1)
                            (Some (jtx_buffer lib cmd tx len)) rx)
                         (fun w => ret (0, k (snd w))) e))
    /\ (forall tx rx len,
          let r := spi_put api lib tx rx len e in
          (forall v, fst r = Ok v -> fst v = 0)
          /\ (wp_ok (Z.to_nat len) tx ->
              (exists rxd, fst r = Ok (0, rxd))
              \/ (fst r = Throw ErrorReadingMiso /\ api = APIv2))).
Proof.
  intros api lib e. split.
  - intros cmd tx rx len r. subst r. split.
    + intros v H.
      destruct (spi_put_cmd api lib cmd tx rx len e) as [o e'] eqn:E.
      simpl in H. subst o.
      exact (proj1 (spi_put_cmd_returned _ _ _ _ _ _ _ E)).
    + intros W. split.
      * destruct (spi_put_cmd_ends api lib cmd rx e W)
          as (e' & mid & _ & _ & [(jrx & _ & -> & _) | (-> & _ & A & _)]);
          simpl; eauto.
      * exists (copy_response len).
        apply (spi_put_cmd_unfold api lib cmd rx e W).
  - intros tx rx len r. subst r. split.
    + intros v H.
      destruct (spi_put api lib tx rx len e) as [o e'] eqn:E.
      simpl in H. subst o.
      exact (proj1 (spi_put_returned _ _ _ _ _ _ E)).
    + intros W. unfold spi_put.
      destruct (spi_wr_and_rd_spec api lib len tx rx e)
        as (e' & mid & _ & _ & _
            & [(rxd & -> & _) | [(-> & A & _) | [_ O]]]);
        simpl; eauto. contradiction.
Qed.

Lemma spi_put_returns_zero_witness :
  let lib := board loopback_miso (fun _ => 0) in
  let r := spi_put APIv2 lib (Some [1; 2; 3]) true 3
             (engine_on APIv2 loopback_miso) in
  (exists rxd, fst r = Ok (0, rxd))
  \/ (fst r = Throw ErrorReadingMiso /\ APIv2 = APIv2).
Proof.
  intros lib.
  apply (proj2 (proj2 (spi_put_returns_zero APIv2 lib
                         (engine_on APIv2 loopback_miso))
                  (Some [1; 2; 3]) true 3)).
  simpl. lia.
Defined.

Lemma snd_bind_ret A B (m : M A) (g : A -> B) e :
  snd (bind m (fun a => ret (g a)) e) = snd (m e).
Proof. unfold bind. now destruct (m e) as [[a|x|x] e']. Qed.

(** The command-prefixed [spi_put] never changes the CS mode, whatever its
    arguments and however it ends. *)
Lemma spi_put_cmd_mode api lib cmd tx rx len e :
  _cs_mode (snd (spi_put_cmd api lib cmd tx rx len e)) = _cs_mode e.
Proof.
  unfold spi_put_cmd.
  destruct (map (stack_byte lib) (seq 0 (Z.to_nat (u32 (len + 1)))))
    as [|b rest]; [reflexivity|].
  rewrite bind_ret.
  destruct tx as [t|].
  - destruct ((Z.of_nat (List.length t) <? len)
              || (Z.of_nat (List.length (cmd :: rest)) <? 1 + len));
      [reflexivity|].
    rewrite bind_ret, snd_bind_ret. apply spi_wr_and_rd_mode.
  - rewrite bind_ret, snd_bind_ret. apply spi_wr_and_rd_mode.
Qed.

(** C10. The constructor returns in AUTO mode; both [spi_put] overloads
    leave the CS mode as it was, however they end; [spi_wait] and
    [spi_wr_then_rd] return in AUTO mode whatever the mode was, unless a
    MISO read throws. *)
Theorem cs_mode_auto_at_boundaries :
  forall api lib e,
    (forall c dev verbose,
       let r := LibgpiodSpiBitbang api lib c dev verbose e in
       fst r = Ok tt -> _cs_mode (snd r) = SPI_CS_AUTO)
    /\ (forall cmd tx rx len,
          _cs_mode (snd (spi_put_cmd api lib cmd tx rx len e)) = _cs_mode e)
    /\ (forall tx rx len,
          _cs_mode (snd (spi_put api lib tx rx len e)) = _cs_mode e)
    /\ (forall cmd mask cond timeout verbose,
          let r := spi_wait api lib cmd mask cond timeout verbose e in
          ((exists st, fst r = Ok st) /\ _cs_mode (snd r) = SPI_CS_AUTO)
          \/ (fst r = Throw ErrorReadingMiso /\ api = APIv2))
    /\ (forall tx_data tx_len rx_data rx_len,
          wp_ok (Z.to_nat tx_len) tx_data ->
          let r := spi_wr_then_rd api lib tx_data tx_len rx_data rx_len e in
          ((exists st, fst r = Ok st) /\ _cs_mode (snd r) = SPI_CS_AUTO)
          \/ (fst r = Throw ErrorReadingMiso /\ api = APIv2)).
Proof.
  intros api lib e. repeat split.
  - intros c dev verbose r Hok. subst r.
    destruct (constructor_validates api lib c dev verbose e)
      as [(_ & T & _) | [(_ & _ & T & _) | [(_ & _ & T & _)
         | (_ & _ & _ & e1 & _ & _ & _ & E)]]];
      try (rewrite T in Hok; discriminate).
    rewrite E in *.
    destruct (negb (gpiod_chip_open lib (chip_path dev))).
    + destruct (display_throw unit (MsgUnableOpen (chip_path dev))
                  UnableToOpenChip e1) as (e2 & E2 & _).
      rewrite E2 in Hok. discriminate.
    + destruct (request_lines api lib e1) as [[[]|x|x] e2] eqn:E2;
        [rewrite (bind_ok _ E2) | rewrite (bind_throw _ E2) in Hok; discriminate
        | rewrite (bind_fault _ E2) in Hok; discriminate].
      rewrite bind_modify.
      destruct (update_pins_spec api lib 1 0 0 (set_curr 0 1 1 e2))
        as (e3 & E3 & _).
      rewrite (bind_ok _ E3). reflexivity.
  - intros cmd tx rx len. apply spi_put_cmd_mode.
  - intros tx rx len. apply spi_wr_and_rd_mode.
  - intros cmd mask cond timeout verbose r. subst r.
    destruct (spi_wait_ends api lib cmd mask cond timeout verbose e)
      as (e' & mid & _ & [(st & -> & _ & M' & _) | (-> & A & _)]);
      simpl; eauto.
  - intros tx tx_len rx rx_len W r. subst r.
    destruct (@spi_wr_then_rd_spec api lib tx tx_len rx rx_len e W)
      as (e' & mid & _ & [(rxd & -> & _ & M' & _) | (-> & A & _)]);
      simpl; eauto.
Qed.

Lemma cs_mode_auto_at_boundaries_witness :
  let lib := board loopback_miso (fun _ => 0) in
  let r := LibgpiodSpiBitbang APIv2 lib pins0123 "/dev/gpiochip0" 0
             (raw_engine SPI_CS_MANUAL 0 0 0) in
  _cs_mode (snd r) = SPI_CS_AUTO.
Proof.
  intros lib.
  apply (proj1 (cs_mode_auto_at_boundaries APIv2 lib
                  (raw_engine SPI_CS_MANUAL 0 0 0))
           pins0123 "/dev/gpiochip0"%string 0).
  reflexivity.
Defined.

(** ** Loopback *)

Lemma shift_in_byte wv : is_byte wv -> shift_in 8 wv 0 = wv.
Proof.
  intros B.
  assert (A : forallb (fun w => shift_in 8 w 0 =? w)
                (map Z.of_nat (seq 0 256)) = true) by (vm_compute; reflexivity).
  rewrite forallb_forall in A. apply Z.eqb_eq, A.
  replace wv with (Z.of_nat (Z.to_nat wv)) by (unfold is_byte in B; lia).
  apply in_map, in_seq. unfold is_byte in B. lia.
Qed.

Lemma last_set_pin_write api l l' req cur :
  line_eqb l l' = false -> last_set l (pin_write api l' req cur) = None.
Proof.
  intros H. unfold pin_write. destruct (req =? cur); simpl; [reflexivity|].
  now rewrite H.
Qed.

Lemma msb_cases wv : msb wv = 0 \/ msb wv = 1.
Proof. unfold msb. destruct (Z.land wv 128 =? 0); auto. Qed.

Lemma last_set_rising_edge api wv e :
  mosi_synced api e ->
  last_set MOSI (rising_edge api wv e) = Some (level api (msb wv)).
Proof.
  unfold mosi_synced, rising_edge. intros S.
  rewrite !last_set_app.
  rewrite (last_set_pin_write api MOSI SCK 0 (_curr_sck e) eq_refl).
  cbn [last_set line_eqb].
  unfold pin_write. destruct (Z.eqb_spec (msb wv) (_curr_mosi e)) as [->|N].
  - exact S.
  - reflexivity.
Qed.

Lemma sampled_level api wv : sampled api (level api (msb wv)) = Some (msb wv).
Proof.
  unfold sampled, level. destruct api, (msb_cases wv) as [-> | ->]; reflexivity.
Qed.

Lemma clock_bit_loopback api lib wv rv e :
  loopback lib -> mosi_synced api e ->
  exists e',
    clock_bit api lib wv rv e =
      (Ok (u8 (Z.shiftl wv 1), u8 (Z.lor (Z.shiftl rv 1) (msb wv))), e')
    /\ mosi_synced api e'.
Proof.
  intros L S.
  destruct (clock_bit_spec api lib wv rv e) as (e' & _ & _ & _ & O & R).
  pose proof (@last_set_rising_edge api wv e S) as LS.
  rewrite (L _ _ LS), sampled_level in R. destruct R as (E & _ & H).
  exists e'. split; [exact E|].
  unfold mosi_synced. rewrite H, last_set_app. cbn [last_set line_eqb].
  now rewrite O.
Qed.

Lemma clock_bits_loopback api lib n : forall wv rv e,
  loopback lib -> mosi_synced api e ->
  exists e',
    clock_bits api lib n wv rv e = (Ok (shift_in n wv rv), e')
    /\ mosi_synced api e'.
Proof.
  induction n as [|n IH]; intros wv rv e L S; cbn [clock_bits shift_in].
  - exists e. now split.
  - destruct (@clock_bit_loopback api lib wv rv e L S) as (e1 & E1 & S1).
    rewrite (bind_ok _ E1). cbn [fst snd]. now apply IH.
Qed.

Lemma clock_bytes_loopback api lib n : forall wr acc e,
  loopback lib -> mosi_synced api e ->
  Forall is_byte wr -> (n <= List.length wr)%nat ->
  exists e',
    clock_bytes api lib n (Some wr) (Some acc) e
      = (Ok (Some (acc ++ firstn n wr)), e')
    /\ mosi_synced api e'.
Proof.
  induction n as [|n IH]; intros wr acc e L S B Len; cbn [clock_bytes].
  - exists e. simpl. rewrite app_nil_r. now split.
  - destruct wr as [|b wr]; [simpl in Len; lia|].
    cbn [next_write]. rewrite bind_ret. cbn [fst snd].
    destruct (@clock_bits_loopback api lib 8 b 0 e L S) as (e1 & E1 & S1).
    rewrite (bind_ok _ E1).
    inversion B as [|? ? Bb Bwr]; subst.
    rewrite (@shift_in_byte b Bb). cbn [store_read].
    destruct (IH wr (acc ++ [b]) e1 L S1 Bwr) as (e2 & E2 & S2);
      [simpl in Len; lia|].
    exists e2. split; [|exact S2].
    rewrite E2, <- app_assoc. reflexivity.
Qed.

Lemma clearCs_synced api lib e :
  mosi_synced api e -> mosi_synced api (snd (clearCs api lib e)).
Proof.
  intros S. destruct (clearCs_spec api lib e) as (e' & -> & _ & _ & _ & _ & O & H).
  unfold mosi_synced in *. simpl.
  now rewrite H, O, last_set_app, last_set_pin_write.
Qed.

Lemma setCs_synced api lib e :
  mosi_synced api e -> mosi_synced api (snd (setCs api lib e)).
Proof.
  intros S. destruct (setCs_spec api lib e) as (e' & -> & _ & _ & _ & _ & O & H).
  unfold mosi_synced in *. simpl.
  now rewrite H, O, last_set_app, last_set_pin_write.
Qed.

(** On a loopback, a transfer of the first [writecnt] bytes of a buffer
    reads those bytes back, whatever the count. *)
Lemma spi_wr_and_rd_loopback api lib writecnt wr e :
  loopback lib -> mosi_synced api e ->
  Forall is_byte wr -> (Z.to_nat writecnt <= List.length wr)%nat ->
  exists e',
    spi_wr_and_rd api lib writecnt (Some wr) true e
      = (Ok (0, Some (firstn (Z.to_nat writecnt) wr)), e')
    /\ mosi_synced api e'.
Proof.
  intros L S B Len. unfold spi_wr_and_rd. rewrite bind_gets.
  assert (P : exists e1,
             when (is_auto (_cs_mode e)) (clearCs api lib) e = (Ok tt, e1)
             /\ _cs_mode e1 = _cs_mode e /\ mosi_synced api e1).
  { unfold when. destruct (is_auto (_cs_mode e)).
    - pose proof (@clearCs_synced api lib e S) as S1.
      destruct (clearCs_spec api lib e) as (e1 & E1 & _ & M1 & _).
      rewrite E1 in *. eauto.
    - exists e. auto. }
  destruct P as (e1 & E1 & M1 & S1). rewrite (bind_ok _ E1).
  destruct (@clock_bytes_loopback api lib (Z.to_nat writecnt) wr [] e1
              L S1 B Len)
    as (e2 & E2 & S2).
  rewrite (bind_ok _ E2), bind_gets. cbn [app].
  assert (P : exists e3,
             when (is_auto (_cs_mode e2)) (setCs api lib) e2 = (Ok tt, e3)
             /\ mosi_synced api e3).
  { unfold when. destruct (is_auto (_cs_mode e2)).
    - pose proof (@setCs_synced api lib e2 S2) as S3.
      destruct (setCs_spec api lib e2) as (e3 & E3 & _).
      rewrite E3 in *. eauto.
    - exists e2. auto. }
  destruct P as (e3 & E3 & S3). rewrite (bind_ok _ E3).
  exists e3. now split.
Qed.

(** C1. For every byte count N in {0, 1, 8, 255} and every write buffer of N
    bytes, on a loopback and from an engine whose cache agrees with the MOSI
    line (as it does after construction), [spi_wr_and_rd] returns 0 and has
    stored through the read pointer the very bytes of the write buffer. *)
Theorem loopback_reads_back_written_bytes :
  forall api lib e N wr,
    In N [0; 1; 8; 255] ->
    Z.of_nat (List.length wr) = N ->
    Forall is_byte wr ->
    loopback lib ->
    mosi_synced api e ->
    fst (spi_wr_and_rd api lib N (Some wr) true e) = Ok (0, Some wr).
Proof.
  intros api lib e N wr _ Len B L S.
  destruct (@spi_wr_and_rd_loopback api lib N wr e L S B) as (e' & E & _);
    [lia|].
  rewrite E. simpl. rewrite firstn_all2 by lia. reflexivity.
Qed.

Lemma board_loopback stack : loopback (board loopback_miso stack).
Proof. intros h v H. simpl. unfold loopback_miso. now rewrite H. Qed.

Lemma loopback_reads_back_written_bytes_witness :
  fst (spi_wr_and_rd APIv2 (board loopback_miso (fun _ => 0)) 8
         (Some [222; 173; 190; 239; 0; 255; 128; 1]) true
         (engine_on APIv2 loopback_miso))
  = Ok (0, Some [222; 173; 190; 239; 0; 255; 128; 1]).
Proof.
  apply (@loopback_reads_back_written_bytes APIv2
           (board loopback_miso (fun _ => 0))
           (engine_on APIv2 loopback_miso) 8
           [222; 173; 190; 239; 0; 255; 128; 1]).
  - simpl. auto.
  - reflexivity.
  - unfold is_byte. repeat constructor; lia.
  - apply board_loopback.
  - reflexivity.
Defined.

(** ** The command-prefixed [spi_put] *)

(** With a payload of [len] bytes, [spi_put] is one [spi_wr_and_rd] call of
    [len + 1] bytes on the command followed by the payload; the response
    handed back skips the byte sampled during the command. *)
Lemma spi_put_cmd_with_payload api lib cmd tx rx len e :
  Z.of_nat (List.length tx) = len -> len < 4294967295 ->
  spi_put_cmd api lib cmd (Some tx) rx len e =
  bind (spi_wr_and_rd api lib (len + 1) (Some (cmd :: tx)) rx)
       (fun r => ret (0, copy_response len (snd r))) e.
Proof.
  intros L B.
  assert (A : put_args_ok (Some tx) len) by (split; [lia | simpl; lia]).
  rewrite (spi_put_cmd_unfold api lib cmd rx e A).
  unfold jtx_buffer. rewrite firstn_all2 by lia. reflexivity.
Qed.

(** The scenario of the specification, on a loopback: three bytes clocked
    in one CS window, the two payload slots read back. *)
Lemma spi_put_cmd_scenario :
  let lib := board loopback_miso (fun _ => 0) in
  let e := engine_on APIv2 loopback_miso in
  let r := spi_put_cmd APIv2 lib 171 (Some [1; 2]) true 2 e in
  fst r = Ok (0, Some [1; 2])
  /\ bytes_clocked e (snd r) = [171; 1; 2]
  /\ writes_to CS (added_since e (hw (snd r))) = [0; 1].
Proof. vm_compute. auto. Qed.

(** C3, the failing input.  Without a payload the bytes after the command
    are not zero: [jtx] is not initialised and [spi_wr_and_rd] is handed
    [jtx], so it clocks out what the stack held.  On a stack of 0xFF bytes
    the call [spi_put(0xAB, NULL, rx, 2)] clocks 0xAB, 0xFF, 0xFF, where a
    transfer without write buffer would have clocked zeros. *)
Theorem spi_put_cmd_without_payload_clocks_stack :
  let lib := board loopback_miso (fun _ => 255) in
  let e := engine_on APIv2 loopback_miso in
  let r := spi_put_cmd APIv2 lib 171 None true 2 e in
  fst r = Ok (0, Some [255; 255])
  /\ bytes_clocked e (snd r) = [171; 255; 255]
  /\ bytes_clocked e (snd r) <> [171; 0; 0]
  /\ bytes_clocked e (snd (spi_wr_and_rd APIv2 lib 3 None true e)) = [0; 0; 0].
Proof. vm_compute. repeat split; discriminate. Qed.

(** In general: without a payload, [spi_put] clocks the command and then
    the [len] bytes the stack holds at indices 1 to [len] of [jtx]. *)
Lemma spi_put_cmd_without_payload api lib cmd rx len e :
  0 <= len < 4294967295 ->
  spi_put_cmd api lib cmd None rx len e =
  bind (spi_wr_and_rd api lib (len + 1)
          (Some (cmd :: map (stack_byte lib) (seq 1 (Z.to_nat len)))) rx)
       (fun r => ret (0, copy_response len (snd r))) e.
Proof.
  intros B.
  assert (A : put_args_ok None len) by (split; [lia | exact I]).
  apply (spi_put_cmd_unfold api lib cmd rx e A).
Qed.

(** ** [spi_wait] at its bound *)

(** C2, the failing input.  [count] is compared with [timeout] before the
    sampled byte is compared with the expected value, and the status
    returned depends on [count] alone: a byte that satisfies the condition
    on attempt number [timeout] is reported as a timeout.  With
    [timeout = 1] the first byte already satisfies the condition and the
    call returns [-ETIME]. *)
Theorem spi_wait_match_on_last_attempt_times_out :
  let lib := board (status_miso [1]) (fun _ => 0) in
  let e := engine_on APIv1 (status_miso [1]) in
  let r := spi_wait APIv1 lib 5 1 1 1 false e in
  Z.land 1 1 = 1
  /\ fst r = Ok (- ETIME)
  /\ read_attempts e (snd r) = 1
  /\ out (snd r) = [MsgTimeout 1 1; MsgWaitError 1].
Proof. vm_compute. auto. Qed.

(** The same one attempt later: the condition is met on the third of three
    attempts, and on the second of three. *)
Lemma spi_wait_match_on_third_of_three :
  let lib := board (status_miso [0; 0; 1]) (fun _ => 0) in
  let e := engine_on APIv1 (status_miso [0; 0; 1]) in
  let r := spi_wait APIv1 lib 5 1 1 3 false e in
  fst r = Ok (- ETIME) /\ read_attempts e (snd r) = 3.
Proof. vm_compute. auto. Qed.

Lemma spi_wait_match_on_second_of_three :
  let lib := board (status_miso [0; 1; 1]) (fun _ => 0) in
  let e := engine_on APIv1 (status_miso [0; 1; 1]) in
  let r := spi_wait APIv1 lib 5 1 1 3 false e in
  fst r = Ok 0 /\ read_attempts e (snd r) = 2.
Proof. vm_compute. auto. Qed.

(** With [timeout = 0] the loop still makes its first pass, and [count],
    which starts at 1, meets [timeout] only after wrapping around: a byte
    that satisfies the condition ends the call with success after one
    attempt. *)
Lemma spi_wait_zero_timeout_polls :
  let lib := board (status_miso [1]) (fun _ => 0) in
  let e := engine_on APIv1 (status_miso [1]) in
  let r := spi_wait APIv1 lib 5 1 1 0 false e in
  fst r = Ok 0 /\ read_attempts e (snd r) = 1.
Proof.
  intros lib e. unfold spi_wait. change (u32 0) with 0.
  unfold wait_bound. change (0 =? 0) with true. cbv iota.
  replace (Z.to_nat 4294967296) with (S (Z.to_nat 4294967295)) by lia.
  generalize (Z.to_nat 4294967295). intros f.
  vm_compute. auto.
Qed.

(** ** The engine between public operations *)

Lemma keeps_bind A B (P : engine -> Prop) (m : M A) (k : A -> M B) :
  keeps P m -> (forall a, keeps P (k a)) -> keeps P (bind m k).
Proof.
  intros Hm Hk e Pe. unfold bind. specialize (Hm e Pe).
  destruct (m e) as [[a|x|x] e']; simpl in *; auto.
  now apply Hk.
Qed.

Lemma keeps_pure A (P : engine -> Prop) (o : outcome A) :
  keeps P (fun e => (o, e)).
Proof. intros e Pe. exact Pe. Qed.

Lemma keeps_gets A (P : engine -> Prop) (f : engine -> A) : keeps P (gets f).
Proof. intros e Pe. exact Pe. Qed.

Lemma keeps_ret A (P : engine -> Prop) (a : A) : keeps P (ret a).
Proof. intros e Pe. exact Pe. Qed.

Lemma keeps_throw A (P : engine -> Prop) (x : exn) : keeps P (@throw A x).
Proof. intros e Pe. exact Pe. Qed.

Lemma keeps_undefined A (P : engine -> Prop) (x : fault) :
  keeps P (@undefined A x).
Proof. intros e Pe. exact Pe. Qed.

Lemma keeps_when (P : engine -> Prop) b (m : M unit) :
  keeps P m -> keeps P (when b m).
Proof. intros H. destruct b; [exact H | apply keeps_pure]. Qed.

Lemma keeps_log_out (api : gpiod_api) d :
  keeps (mosi_synced api) (modify (log_out d)).
Proof. intros e S. exact S. Qed.

Lemma keeps_display (api : gpiod_api) d :
  keeps (mosi_synced api) (display d).
Proof.
  unfold display. apply keeps_bind; [apply keeps_gets|].
  intros v. apply keeps_when, keeps_log_out.
Qed.

Lemma keeps_update_pins api lib cs sck mosi :
  keeps (mosi_synced api) (update_pins api lib cs sck mosi).
Proof.
  intros e S.
  destruct (update_pins_spec api lib cs sck mosi e)
    as (e' & -> & _ & _ & _ & _ & O & H).
  unfold mosi_synced in *. simpl.
  rewrite H, O, !last_set_app, !last_set_pin_write by reflexivity.
  unfold pin_write. destruct (Z.eqb_spec mosi (_curr_mosi e)) as [->|N].
  - exact S.
  - reflexivity.
Qed.

Lemma keeps_read_miso api lib : keeps (mosi_synced api) (read_miso api lib).
Proof.
  intros e S.
  destruct (read_miso_spec api lib e) as (e' & (_ & _ & _ & _ & O) & H & R).
  assert (S' : mosi_synced api e').
  { unfold mosi_synced in *. now rewrite H, O, last_set_app. }
  destruct (sampled _) as [b|]; [destruct R as (v & -> & _) | rewrite R];
    exact S'.
Qed.

Lemma keeps_set_cs_mode api m : keeps (mosi_synced api) (setCSmode m).
Proof. intros e S. exact S. Qed.

Ltac keeps_step :=
  first
    [ apply keeps_update_pins | apply keeps_read_miso | apply keeps_display
    | apply keeps_log_out | apply keeps_set_cs_mode
    | apply keeps_gets | apply keeps_ret | apply keeps_throw
    | apply keeps_undefined | apply keeps_when
    | apply keeps_bind; [|intros ?] ].

Lemma keeps_setCs api lib : keeps (mosi_synced api) (setCs api lib).
Proof. unfold setCs. repeat keeps_step. Qed.

Lemma keeps_clearCs api lib : keeps (mosi_synced api) (clearCs api lib).
Proof. unfold clearCs. repeat keeps_step. Qed.

Lemma keeps_clock_bit api lib wv rv :
  keeps (mosi_synced api) (clock_bit api lib wv rv).
Proof. unfold clock_bit. repeat keeps_step. Qed.

Lemma keeps_clock_bits api lib n : forall wv rv,
  keeps (mosi_synced api) (clock_bits api lib n wv rv).
Proof.
  induction n as [|n IH]; intros wv rv; cbn [clock_bits].
  - apply keeps_ret.
  - apply keeps_bind; [apply keeps_clock_bit | intros p; apply IH].
Qed.

Lemma keeps_clock_bytes api lib n : forall wp rp,
  keeps (mosi_synced api) (clock_bytes api lib n wp rp).
Proof.
  induction n as [|n IH]; intros wp rp; cbn [clock_bytes].
  - apply keeps_ret.
  - apply keeps_bind.
    + destruct wp as [[|b l]|]; cbn [next_write]; keeps_step.
    + intros w. apply keeps_bind; [apply keeps_clock_bits | intros rv; apply IH].
Qed.

Lemma keeps_spi_wr_and_rd api lib writecnt wp rd :
  keeps (mosi_synced api) (spi_wr_and_rd api lib writecnt wp rd).
Proof.
  unfold spi_wr_and_rd.
  apply keeps_bind; [apply keeps_gets | intros mode].
  apply keeps_bind; [apply keeps_when, keeps_clearCs | intros _].
  apply keeps_bind; [apply keeps_clock_bytes | intros r].
  apply keeps_bind; [apply keeps_gets | intros mode'].
  apply keeps_bind; [apply keeps_when, keeps_setCs | intros _].
  apply keeps_ret.
Qed.

Lemma keeps_spi_put_cmd api lib cmd tx rx len :
  keeps (mosi_synced api) (spi_put_cmd api lib cmd tx rx len).
Proof.
  intros e S.
  destruct (spi_put_cmd_shape api lib cmd tx rx len e)
    as [(f & ->) | (jtx & k & ->)]; [exact S|].
  rewrite snd_bind_ret. now apply keeps_spi_wr_and_rd.
Qed.

Lemma keeps_wait_loop api lib mask cond timeout verbose fuel : forall count,
  keeps (mosi_synced api)
    (wait_loop api lib fuel mask cond timeout verbose count).
Proof.
  induction fuel as [|fuel IH]; intros count; cbn [wait_loop].
  - apply keeps_undefined.
  - apply keeps_bind; [apply keeps_spi_wr_and_rd | intros r].
    destruct (u32 (count + 1) =? timeout).
    + unfold printf. repeat keeps_step.
    + apply keeps_bind; [unfold printf; repeat keeps_step | intros _].
      destruct (negb _); [apply IH | apply keeps_ret].
Qed.

Lemma keeps_spi_wait api lib cmd mask cond timeout verbose :
  keeps (mosi_synced api) (spi_wait api lib cmd mask cond timeout verbose).
Proof.
  unfold spi_wait.
  apply keeps_bind; [apply keeps_set_cs_mode | intros _].
  apply keeps_bind; [apply keeps_clearCs | intros _].
  apply keeps_bind; [apply keeps_spi_wr_and_rd | intros _].
  apply keeps_bind; [apply keeps_wait_loop | intros w].
  apply keeps_bind; [apply keeps_setCs | intros _].
  apply keeps_bind; [apply keeps_set_cs_mode | intros _].
  destruct (snd w =? u32 timeout); unfold printf; repeat keeps_step.
Qed.

(** What a constructor that returned has left: AUTO mode, the cache at
    CS = 1, SCK = 0, MOSI = 0, in agreement with the MOSI line. *)
Lemma constructor_returned api lib c dev verbose e e' :
  LibgpiodSpiBitbang api lib c dev verbose e = (Ok tt, e') ->
  _cs_mode e' = SPI_CS_AUTO
  /\ (_curr_cs e', _curr_sck e', _curr_mosi e') = (1, 0, 0)
  /\ mosi_synced api e'.
Proof.
  intros Hok.
  destruct (constructor_validates api lib c dev verbose e)
    as [(_ & T & _) | [(_ & _ & T & _) | [(_ & _ & T & _)
       | (_ & _ & _ & e1 & _ & _ & _ & E)]]];
    try (rewrite Hok in T; discriminate).
  rewrite E in Hok.
  destruct (negb (gpiod_chip_open lib (chip_path dev))).
  - destruct (display_throw unit (MsgUnableOpen (chip_path dev))
                UnableToOpenChip e1) as (e2 & E2 & _).
    rewrite E2 in Hok. discriminate.
  - destruct (request_lines api lib e1) as [[[]|x|x] e2] eqn:E2;
      [rewrite (bind_ok _ E2) in Hok
      | rewrite (bind_throw _ E2) in Hok; discriminate
      | rewrite (bind_fault _ E2) in Hok; discriminate].
    rewrite bind_modify in Hok.
    destruct (update_pins_spec api lib 1 0 0 (set_curr 0 1 1 e2))
      as (e3 & E3 & _ & _ & C3 & S3 & O3 & H3).
    rewrite (bind_ok _ E3) in Hok. inversion Hok; subst e'. simpl.
    split; [reflexivity|]. split; [congruence|].
    unfold mosi_synced. simpl. rewrite H3, O3. simpl.
    rewrite !last_set_app. reflexivity.
Qed.

(** Between public operations the engine is in AUTO mode with CS cached
    inactive and the MOSI cache in agreement with the line. *)
Lemma boundary_invariant api lib e :
  boundary api lib e ->
  _cs_mode e = SPI_CS_AUTO /\ _curr_cs e = 1 /\ mosi_synced api e.
Proof.
  induction 1 as [c dev verbose e0 e E
                 | e cmd tx rx len v e' _ (A & C & S) E
                 | e tx rx len v e' _ (A & C & S) E
                 | e cmd mask cond timeout verbose v e' _ (A & C & S) E].
  - destruct (constructor_returned _ _ _ _ _ _ E) as (A & P & S).
    inversion P. auto.
  - pose proof (spi_put_cmd_mode api lib cmd tx rx len e) as M'.
    pose proof (@keeps_spi_put_cmd api lib cmd tx rx len e S) as S'.
    destruct (spi_put_cmd_returned _ _ _ _ _ _ _ E) as [_ C'].
    rewrite E in M', S'. simpl in M', S'. split; [congruence|]. auto.
  - pose proof (spi_wr_and_rd_mode api lib len tx rx e) as M'.
    pose proof (@keeps_spi_wr_and_rd api lib len tx rx e S) as S'.
    destruct (spi_put_returned _ _ _ _ _ _ E) as [_ C'].
    unfold spi_put in E. rewrite E in M', S'. simpl in M', S'.
    split; [congruence|]. auto.
  - pose proof (@keeps_spi_wait api lib cmd mask cond timeout verbose e S)
      as S'.
    destruct (spi_wait_ends api lib cmd mask cond timeout verbose e)
      as (e1 & mid & _ & [(st & E1 & _ & M' & C' & _) | (E1 & _)]);
      rewrite E1 in E; [|discriminate].
    inversion E; subst. rewrite E1 in S'. auto.
Qed.


(** ** Counting the read attempts of [spi_wait] *)

Lemma count_reads_app h1 h2 :
  count_reads (h1 ++ h2) = (count_reads h1 + count_reads h2)%nat.
Proof.
  induction h1 as [|ev h1 IH]; simpl; [reflexivity|].
  destruct ev; simpl; now rewrite IH.
Qed.

Lemma count_reads_pin_write api l req cur :
  count_reads (pin_write api l req cur) = O.
Proof. unfold pin_write. now destruct (req =? cur). Qed.

Lemma bind_ok_inv A B (m : M A) (k : A -> M B) e b e' :
  bind m k e = (Ok b, e') ->
  exists a e1, m e = (Ok a, e1) /\ k a e1 = (Ok b, e').
Proof.
  unfold bind. destruct (m e) as [[a|x|x] e1]; intros H;
    [eauto | discriminate | discriminate].
Qed.

Lemma adds_reads_bind A B n1 n2 (m : M A) (k : A -> M B) :
  adds_reads n1 m -> (forall a, adds_reads n2 (k a)) ->
  adds_reads (n1 + n2) (bind m k).
Proof.
  intros Hm Hk e b e' H.
  destruct (bind_ok_inv _ _ _ H) as (a & e1 & E1 & E2).
  destruct (Hm _ _ _ E1) as (x & H1 & N1).
  destruct (Hk a _ _ _ E2) as (y & H2 & N2).
  exists (x ++ y). rewrite H2, H1, app_assoc, count_reads_app, N1, N2.
  now split.
Qed.

Lemma adds_reads_same A (m : M A) :
  (forall e a e', m e = (Ok a, e') -> hw e' = hw e) -> adds_reads 0 m.
Proof.
  intros H e a e' E. exists []. rewrite app_nil_r. split; [eauto|reflexivity].
Qed.

Lemma adds_reads_gets A (f : engine -> A) : adds_reads 0 (gets f).
Proof. apply adds_reads_same. intros e a e' E. now inversion E. Qed.

Lemma adds_reads_ret A (a : A) : adds_reads 0 (ret a).
Proof. apply adds_reads_same. intros e b e' E. now inversion E. Qed.

Lemma adds_reads_printf d : adds_reads 0 (printf d).
Proof. apply adds_reads_same. intros e b e' E. now inversion E. Qed.

Lemma adds_reads_setCSmode m : adds_reads 0 (setCSmode m).
Proof. apply adds_reads_same. intros e b e' E. now inversion E. Qed.

Lemma adds_reads_update_pins api lib cs sck mosi :
  adds_reads 0 (update_pins api lib cs sck mosi).
Proof.
  intros e a e' E.
  destruct (update_pins_spec api lib cs sck mosi e)
    as (e1 & E1 & _ & _ & _ & _ & _ & H).
  rewrite E1 in E. inversion E; subst. eexists. split; [exact H|].
  now rewrite !count_reads_app, !count_reads_pin_write.
Qed.

Lemma adds_reads_read_miso api lib : adds_reads 1 (read_miso api lib).
Proof.
  intros e a e' E.
  destruct (read_miso_spec api lib e) as (e1 & _ & H & R).
  destruct (sampled _) as [b|]; [destruct R as (v & R & _) | ];
    rewrite R in E; [|discriminate].
  inversion E; subst. exists [GetValue]. now split.
Qed.

Lemma adds_reads_setCs api lib : adds_reads 0 (setCs api lib).
Proof.
  unfold setCs.
  apply (adds_reads_bind (n1 := 0) (n2 := 0)); [apply adds_reads_gets|].
  intros sck.
  apply (adds_reads_bind (n1 := 0) (n2 := 0)); [apply adds_reads_gets|].
  intros mosi.
  apply (adds_reads_bind (n1 := 0) (n2 := 0));
    [apply adds_reads_update_pins | intros _; apply adds_reads_ret].
Qed.

Lemma adds_reads_clearCs api lib : adds_reads 0 (clearCs api lib).
Proof.
  unfold clearCs.
  apply (adds_reads_bind (n1 := 0) (n2 := 0)); [apply adds_reads_gets|].
  intros sck.
  apply (adds_reads_bind (n1 := 0) (n2 := 0)); [apply adds_reads_gets|].
  intros mosi.
  apply (adds_reads_bind (n1 := 0) (n2 := 0));
    [apply adds_reads_update_pins | intros _; apply adds_reads_ret].
Qed.

Lemma adds_reads_when b (m : M unit) : adds_reads 0 m -> adds_reads 0 (when b m).
Proof. intros H. destruct b; [exact H | apply adds_reads_ret]. Qed.

Lemma adds_reads_clock_bit api lib wv rv :
  adds_reads 1 (clock_bit api lib wv rv).
Proof.
  unfold clock_bit.
  apply (adds_reads_bind (n1 := 0) (n2 := 1)); [apply adds_reads_gets|].
  intros cs.
  apply (adds_reads_bind (n1 := 0) (n2 := 1)); [apply adds_reads_update_pins|].
  intros _.
  apply (adds_reads_bind (n1 := 0) (n2 := 1)); [apply adds_reads_gets|].
  intros cs'.
  apply (adds_reads_bind (n1 := 0) (n2 := 1)); [apply adds_reads_gets|].
  intros mosi.
  apply (adds_reads_bind (n1 := 0) (n2 := 1)); [apply adds_reads_update_pins|].
  intros _.
  apply (adds_reads_bind (n1 := 1) (n2 := 0)); [apply adds_reads_read_miso|].
  intros b.
  apply (adds_reads_bind (n1 := 0) (n2 := 0)); [apply adds_reads_gets|].
  intros cs''.
  apply (adds_reads_bind (n1 := 0) (n2 := 0)); [apply adds_reads_gets|].
  intros mosi'.
  apply (adds_reads_bind (n1 := 0) (n2 := 0));
    [apply adds_reads_update_pins | intros _; apply adds_reads_ret].
Qed.

Lemma adds_reads_clock_bits api lib n : forall wv rv,
  adds_reads n (clock_bits api lib n wv rv).
Proof.
  induction n as [|n IH]; intros wv rv; cbn [clock_bits].
  - apply adds_reads_ret.
  - apply (adds_reads_bind (n1 := 1) (n2 := n));
      [apply adds_reads_clock_bit | intros p; apply IH].
Qed.

Lemma adds_reads_clock_bytes api lib n : forall wp rp,
  adds_reads (8 * n) (clock_bytes api lib n wp rp).
Proof.
  induction n as [|n IH]; intros wp rp; cbn [clock_bytes].
  - apply adds_reads_ret.
  - replace (8 * S n)%nat with (0 + (8 + 8 * n))%nat by lia.
    apply adds_reads_bind.
    + destruct wp as [[|b l]|]; cbn [next_write];
        [intros e a e' E; discriminate | apply adds_reads_ret ..].
    + intros w. apply adds_reads_bind;
        [apply adds_reads_clock_bits | intros rv; apply IH].
Qed.

Lemma adds_reads_spi_wr_and_rd api lib writecnt wp rd :
  adds_reads (8 * Z.to_nat writecnt) (spi_wr_and_rd api lib writecnt wp rd).
Proof.
  unfold spi_wr_and_rd.
  replace (8 * Z.to_nat writecnt)%nat
    with (0 + (0 + (8 * Z.to_nat writecnt + (0 + (0 + 0)))))%nat by lia.
  apply adds_reads_bind; [apply adds_reads_gets | intros mode].
  apply adds_reads_bind;
    [apply adds_reads_when, adds_reads_clearCs | intros _].
  apply adds_reads_bind; [apply adds_reads_clock_bytes | intros r].
  apply adds_reads_bind; [apply adds_reads_gets | intros mode'].
  apply adds_reads_bind;
    [apply adds_reads_when, adds_reads_setCs | intros _].
  apply adds_reads_ret.
Qed.

(** A polling loop entered below its bound leaves with [count] at most
    [timeout], after eight reads for each increment of [count]; when it
    leaves below [timeout], the last byte satisfied the condition. *)
Lemma wait_loop_passes api lib mask cond timeout verbose fuel :
  forall count e rx c e',
    0 <= count < timeout -> timeout < 4294967296 ->
    wait_loop api lib fuel mask cond timeout verbose count e
      = (Ok (rx, c), e') ->
    count < c <= timeout
    /\ (c < timeout -> Z.land rx mask = cond)
    /\ exists evs,
         hw e' = hw e ++ evs
         /\ Z.of_nat (count_reads evs) = 8 * (c - count).
Proof.
  induction fuel as [|fuel IH]; intros count e rx c e' C T H;
    cbn [wait_loop] in H; [discriminate|].
  destruct (bind_ok_inv _ _ _ H) as (r & e1 & E1 & H1). clear H.
  destruct (@adds_reads_spi_wr_and_rd api lib 1 None true e r e1 E1)
    as (evs1 & Hw1 & N1).
  change (8 * Z.to_nat 1)%nat with 8%nat in N1.
  replace (u32 (count + 1)) with (count + 1) in H1
    by (unfold u32; rewrite Z.mod_small; lia).
  destruct (Z.eqb_spec (count + 1) timeout) as [Q|Q].
  - unfold printf in H1. rewrite bind_modify in H1. inversion H1; subst.
    split; [lia|]. split; [lia|].
    exists evs1. split; [exact Hw1 | lia].
  - destruct (bind_ok_inv _ _ _ H1) as ([] & e2 & E2 & H2). clear H1.
    assert (Hw2 : hw e2 = hw e1).
    { destruct verbose; simpl in E2; inversion E2; reflexivity. }
    destruct (Z.eqb_spec
                (Z.land match snd r with Some (b :: _) => b | _ => 0 end mask)
                cond) as [L|L]; cbn [negb] in H2.
    + injection H2 as Hrx Hc He. rewrite <- Hrx, <- Hc, <- He.
      split; [lia|]. split; [intros _; exact L|].
      exists evs1. split; [congruence | lia].
    + destruct (IH (count + 1) e2 rx c e') as (B & M' & evs2 & Hw3 & N3);
        [lia | lia | exact H2 |].
      split; [lia|]. split; [exact M'|].
      exists (evs1 ++ evs2).
      rewrite Hw3, Hw2, Hw1, app_assoc, count_reads_app. split; [reflexivity|].
      lia.
Qed.

Lemma added_since_app e e' evs :
  hw e' = hw e ++ evs -> added_since e (hw e') = evs.
Proof.
  intros H. unfold added_since. rewrite H, skipn_app, skipn_all, Nat.sub_diag.
  reflexivity.
Qed.

(** With a bound of at least one attempt, a [spi_wait] call that returns
    has returned [-ETIME] after exactly [timeout] read attempts, or 0 after
    fewer than [timeout]: a byte sampled on attempt number [timeout] is
    never the one that ends the call with success. *)
Lemma spi_wait_attempts api lib cmd mask cond timeout verbose e st e' :
  1 <= timeout < 4294967296 ->
  spi_wait api lib cmd mask cond timeout verbose e = (Ok st, e') ->
  (st = - ETIME /\ read_attempts e e' = timeout)
  \/ (st = 0 /\ 1 <= read_attempts e e' < timeout).
Proof.
  intros T H. unfold spi_wait in H.
  replace (u32 timeout) with timeout in H
    by (unfold u32; rewrite Z.mod_small; lia).
  destruct (bind_ok_inv _ _ _ H) as ([] & e1 & E1 & H1). clear H.
  destruct (bind_ok_inv _ _ _ H1) as ([] & e2 & E2 & H2). clear H1.
  destruct (bind_ok_inv _ _ _ H2) as (r & e3 & E3 & H3). clear H2.
  destruct (bind_ok_inv _ _ _ H3) as ([rx c] & e4 & E4 & H4). clear H3.
  destruct (bind_ok_inv _ _ _ H4) as ([] & e5 & E5 & H5). clear H4.
  destruct (bind_ok_inv _ _ _ H5) as ([] & e6 & E6 & H6). clear H5.
  destruct (@adds_reads_setCSmode _ _ _ _ E1) as (x1 & W1 & N1).
  destruct (@adds_reads_clearCs api lib _ _ _ E2) as (x2 & W2 & N2).
  destruct (@adds_reads_spi_wr_and_rd api lib 1 (Some [cmd]) false _ _ _ E3)
    as (x3 & W3 & N3).
  change (8 * Z.to_nat 1)%nat with 8%nat in N3.
  destruct (@wait_loop_passes api lib mask cond timeout verbose _ 0 _ _ _ _
              ltac:(lia) ltac:(lia) E4) as (B & _ & x4 & W4 & N4).
  destruct (@adds_reads_setCs api lib _ _ _ E5) as (x5 & W5 & N5).
  destruct (@adds_reads_setCSmode _ _ _ _ E6) as (x6 & W6 & N6).
  assert (W : hw e6 = hw e ++ (x1 ++ x2 ++ x3 ++ x4 ++ x5 ++ x6)).
  { rewrite W6, W5, W4, W3, W2, W1, <- !app_assoc. reflexivity. }
  assert (N : Z.of_nat (count_reads (x1 ++ x2 ++ x3 ++ x4 ++ x5 ++ x6))
              = 8 + 8 * c).
  { rewrite !count_reads_app. lia. }
  cbn [fst snd] in H6.
  destruct (Z.eqb_spec c timeout) as [Q|Q].
  - unfold printf in H6. rewrite bind_modify in H6. inversion H6; subst.
    left. split; [reflexivity|].
    unfold read_attempts.
    rewrite (@added_since_app e (log_out (MsgWaitError rx) e6) _ W), N.
    replace (8 + 8 * timeout - 8) with (timeout * 8) by lia.
    apply Z.div_mul. lia.
  - inversion H6; subst. right. split; [reflexivity|].
    unfold read_attempts. rewrite (@added_since_app e e' _ W), N.
    replace (8 + 8 * c - 8) with (c * 8) by lia.
    rewrite Z.div_mul by lia. lia.
Qed.

(** * Further properties of the driver *)

(** ** The calls of a transfer that returns *)

Lemma clock_bit_wire api lib wv rv e p e' :
  clock_bit api lib wv rv e = (Ok p, e') ->
  hw e' = hw e ++ bit_wire api wv (_curr_mosi e) (_curr_sck e)
  /\ _curr_mosi e' = msb wv /\ _curr_sck e' = 0
  /\ fst p = u8 (Z.shiftl wv 1).
Proof.
  intros H.
  destruct (clock_bit_spec api lib wv rv e) as (e1 & _ & _ & _ & O & R).
  destruct (sampled _) as [b|].
  - destruct R as (E & S & Hw). rewrite E in H. inversion H; subst.
    unfold bit_wire. rewrite Hw. unfold rising_edge.
    rewrite <- !app_assoc. auto.
  - destruct R as (E & _). rewrite E in H. discriminate.
Qed.

Lemma clock_bits_wire api lib n : forall wv rv e r e',
  clock_bits api lib n wv rv e = (Ok r, e') ->
  hw e' = hw e ++ bits_wire api n wv (_curr_mosi e) (_curr_sck e)
  /\ _curr_mosi e' = last_bit n wv (_curr_mosi e)
  /\ _curr_sck e' = match n with O => _curr_sck e | S _ => 0 end.
Proof.
  induction n as [|n IH]; intros wv rv e r e' H; cbn [clock_bits] in H.
  - inversion H; subst. simpl. now rewrite app_nil_r.
  - destruct (bind_ok_inv _ _ _ H) as (p & e1 & E1 & H1).
    destruct (clock_bit_wire _ _ _ _ _ E1) as (W1 & M1 & S1 & P1).
    destruct (IH _ _ _ _ _ H1) as (W2 & M2 & S2).
    cbn [bits_wire last_bit]. rewrite W2, W1, M1, S1, P1 in *.
    rewrite <- app_assoc. repeat split; auto.
    destruct n; auto.
Qed.

Lemma clock_bytes_wire api lib n : forall wp rp e rp' e',
  clock_bytes api lib n wp rp e = (Ok rp', e') ->
  wp_ok n wp
  /\ hw e' = hw e ++ bytes_wire api (bytes_sent n wp)
                       (_curr_mosi e) (_curr_sck e)
  /\ _curr_mosi e' = final_mosi (bytes_sent n wp) (_curr_mosi e)
  /\ _curr_sck e' = final_sck (bytes_sent n wp) (_curr_sck e).
Proof.
  induction n as [|n IH]; intros wp rp e rp' e' H; cbn [clock_bytes] in H.
  - inversion H; subst. destruct wp as [l|]; simpl;
      rewrite app_nil_r; repeat split; auto; lia.
  - destruct (bind_ok_inv _ _ _ H) as (w & e1 & E1 & H1). clear H.
    destruct (bind_ok_inv _ _ _ H1) as (rv & e2 & E2 & H2). clear H1.
    destruct (IH _ _ _ _ _ H2) as (K & W3 & M3 & S3).
    destruct (clock_bits_wire _ _ _ _ _ _ E2) as (W2 & M2 & S2).
    destruct wp as [[|b l]|]; cbn [next_write] in E1;
      inversion E1; subst; cbn [fst snd] in *.
    + cbn [wp_ok bytes_sent firstn bytes_wire final_mosi final_sck
             List.length] in K |- *.
      split; [lia|].
      rewrite W3, W2, M3, M2, S3, S2, <- app_assoc.
      repeat split. cbn [bytes_sent]. destruct (firstn n l); reflexivity.
    + cbn [wp_ok bytes_sent repeat bytes_wire final_mosi final_sck] in K |- *.
      split; [exact I|].
      rewrite W3, W2, M3, M2, S3, S2, <- app_assoc.
      repeat split. cbn [bytes_sent]. destruct (repeat 0 n); reflexivity.
Qed.

(** The calls of a [spi_wr_and_rd] that returns, and the cache it leaves,
    are a function of the bytes sent and of the cache it starts from: what
    MISO answers has no part in them. *)
Lemma spi_wr_and_rd_wire api lib writecnt wp rd e r e' :
  spi_wr_and_rd api lib writecnt wp rd e = (Ok r, e') ->
  let l := bytes_sent (Z.to_nat writecnt) wp in
  wp_ok (Z.to_nat writecnt) wp
  /\ hw e' = hw e ++ transfer_wire api (_cs_mode e) l (_curr_cs e)
                       (_curr_mosi e) (_curr_sck e)
  /\ _curr_mosi e' = final_mosi l (_curr_mosi e)
  /\ _curr_sck e' = final_sck l (_curr_sck e)
  /\ _cs_mode e' = _cs_mode e
  /\ _curr_cs e' = match _cs_mode e with
                   | SPI_CS_AUTO => 1
                   | SPI_CS_MANUAL => _curr_cs e
                   end.
Proof.
  intros H l. unfold spi_wr_and_rd in H. rewrite bind_gets in H.
  destruct (bind_ok_inv _ _ _ H) as ([] & e1 & E1 & H1). clear H.
  destruct (bind_ok_inv _ _ _ H1) as (rp & e2 & E2 & H2). clear H1.
  rewrite bind_gets in H2.
  destruct (bind_ok_inv _ _ _ H2) as ([] & e3 & E3 & H3). clear H2.
  inversion H3; subst. clear H3.
  destruct (clock_bytes_wire _ _ _ _ _ _ E2) as (K & W2 & M2 & S2).
  fold l in W2, M2, S2.
  destruct (clock_bytes_quiet api lib (Z.to_nat writecnt) wp
              (if rd then Some [] else None) e1) as ((_ & A2 & C2 & _) & _).
  rewrite E2 in A2, C2. simpl in A2, C2.
  unfold transfer_wire.
  destruct (_cs_mode e) eqn:A; cbn [is_auto when] in E1.
  - destruct (clearCs_spec api lib e) as (x & X & _ & A1 & C1 & S1 & M1 & W1).
    rewrite X in E1. inversion E1; subst x.
    rewrite A2, A1, A in E3. cbn [is_auto when] in E3.
    destruct (setCs_spec api lib e2) as (y & Y & _ & A3 & C3 & S3 & M3 & W3).
    rewrite Y in E3. inversion E3; subst y.
    split; [exact K|].
    rewrite W3, W2, W1, C2, C1, M3, M2, M1, S3, S2, S1, A3, A2, A1.
    rewrite <- !app_assoc. auto 10.
  - inversion E1; subst e1.
    rewrite A2, A in E3. cbn [is_auto when] in E3. inversion E3; subst e'.
    split; [exact K|]. rewrite W2, A2. auto 10.
Qed.

(** ** What the wire shows *)

Lemma level_0 api : level api 0 = 0.
Proof. now destruct api. Qed.

Lemma level_1 api : level api 1 = 1.
Proof. now destruct api. Qed.

Lemma level_msb api wv : level api (msb wv) = msb wv.
Proof. destruct api, (msb_cases wv) as [-> | ->]; reflexivity. Qed.

Lemma count_reads_bits_wire api n : forall wv m s,
  count_reads (bits_wire api n wv m s) = n.
Proof.
  induction n as [|n IH]; intros wv m s; cbn [bits_wire]; [reflexivity|].
  unfold bit_wire.
  rewrite !count_reads_app, !count_reads_pin_write, IH. reflexivity.
Qed.

Lemma count_reads_bytes_wire api l : forall m s,
  count_reads (bytes_wire api l m s) = (8 * List.length l)%nat.
Proof.
  induction l as [|b l IH]; intros m s; cbn [bytes_wire]; [reflexivity|].
  rewrite count_reads_app, count_reads_bits_wire, IH. simpl List.length. lia.
Qed.

Lemma writes_to_cs_bits_wire api n : forall wv m s,
  writes_to CS (bits_wire api n wv m s) = [].
Proof.
  induction n as [|n IH]; intros wv m s; cbn [bits_wire]; [reflexivity|].
  unfold bit_wire.
  rewrite !writes_to_app, !writes_to_pin_write, IH by reflexivity.
  reflexivity.
Qed.

Lemma writes_to_cs_bytes_wire api l : forall m s,
  writes_to CS (bytes_wire api l m s) = [].
Proof.
  induction l as [|b l IH]; intros m s; cbn [bytes_wire]; [reflexivity|].
  now rewrite writes_to_app, writes_to_cs_bits_wire, IH.
Qed.

Lemma writes_to_sck_bits_wire_low api n : forall wv m,
  writes_to SCK (bits_wire api n wv m 0) = sck_pulses api n.
Proof.
  induction n as [|n IH]; intros wv m; cbn [bits_wire]; [reflexivity|].
  unfold bit_wire.
  rewrite !writes_to_app, writes_to_pin_write, pin_write_same, IH
    by reflexivity.
  reflexivity.
Qed.

Lemma writes_to_sck_bits_wire api n wv m s :
  writes_to SCK (bits_wire api (S n) wv m s)
  = writes_to SCK (pin_write api SCK 0 s) ++ sck_pulses api (S n).
Proof.
  cbn [bits_wire]. unfold bit_wire.
  rewrite !writes_to_app, writes_to_pin_write, writes_to_sck_bits_wire_low
    by reflexivity.
  change (sck_pulses api (S n))
    with ([level api 1; level api 0] ++ sck_pulses api n).
  cbn [app writes_to line_eqb]. rewrite <- app_assoc. reflexivity.
Qed.

Lemma sck_pulses_add api a b :
  sck_pulses api (a + b) = sck_pulses api a ++ sck_pulses api b.
Proof.
  unfold sck_pulses. now rewrite repeat_app, concat_app.
Qed.

Lemma writes_to_sck_bytes_wire_low api l : forall m,
  writes_to SCK (bytes_wire api l m 0)
  = sck_pulses api (8 * List.length l).
Proof.
  induction l as [|b l IH]; intros m; cbn [bytes_wire]; [reflexivity|].
  rewrite writes_to_app, writes_to_sck_bits_wire_low, IH, <- sck_pulses_add.
  f_equal. simpl List.length. lia.
Qed.

Lemma writes_to_sck_bytes_wire api b l m s :
  writes_to SCK (bytes_wire api (b :: l) m s)
  = writes_to SCK (pin_write api SCK 0 s)
    ++ sck_pulses api (8 * List.length (b :: l)).
Proof.
  cbn [bytes_wire].
  rewrite writes_to_app, writes_to_sck_bits_wire, writes_to_sck_bytes_wire_low,
    <- app_assoc, <- sck_pulses_add.
  do 2 f_equal. simpl List.length. lia.
Qed.

Lemma mode0_pin_write_cs api req cur s h :
  mode0 s (pin_write api CS req cur ++ h) = mode0 s h.
Proof. unfold pin_write. now destruct (req =? cur). Qed.

Lemma mode0_bit_wire api wv m h :
  mode0 0 (bit_wire api wv m 0 ++ h) = mode0 0 h.
Proof.
  unfold bit_wire. rewrite pin_write_same, level_0, level_1.
  unfold pin_write. destruct (msb wv =? m); reflexivity.
Qed.

Lemma mode0_bits_wire api n : forall wv m h,
  mode0 0 (bits_wire api n wv m 0 ++ h) = mode0 0 h.
Proof.
  induction n as [|n IH]; intros wv m h; cbn [bits_wire]; [reflexivity|].
  now rewrite <- app_assoc, mode0_bit_wire, IH.
Qed.

Lemma mode0_bytes_wire api l : forall m h,
  mode0 0 (bytes_wire api l m 0 ++ h) = mode0 0 h.
Proof.
  induction l as [|b l IH]; intros m h; cbn [bytes_wire]; [reflexivity|].
  now rewrite <- app_assoc, mode0_bits_wire, IH.
Qed.

Lemma mosi_at_samples_pin_write_cs api req cur m h :
  mosi_at_samples m (pin_write api CS req cur ++ h) = mosi_at_samples m h.
Proof. unfold pin_write. now destruct (req =? cur). Qed.

Lemma mosi_at_samples_bit_wire api wv m s h :
  mosi_at_samples m (bit_wire api wv m s ++ h)
  = msb wv :: mosi_at_samples (msb wv) h.
Proof.
  unfold bit_wire, pin_write. rewrite level_msb.
  destruct (Z.eqb_spec (msb wv) m) as [<-|N], (0 =? s); reflexivity.
Qed.

Lemma mosi_at_samples_bits_wire api n : forall wv m s h,
  mosi_at_samples m (bits_wire api n wv m s ++ h)
  = msb_seq n wv ++ mosi_at_samples (last_bit n wv m) h.
Proof.
  induction n as [|n IH]; intros wv m s h;
    cbn [bits_wire msb_seq last_bit]; [reflexivity|].
  now rewrite <- app_assoc, mosi_at_samples_bit_wire, IH.
Qed.

Lemma mosi_at_samples_bytes_wire api l : forall m s h,
  mosi_at_samples m (bytes_wire api l m s ++ h)
  = flat_map (msb_seq 8) l ++ mosi_at_samples (final_mosi l m) h.
Proof.
  induction l as [|b l IH]; intros m s h;
    cbn [bytes_wire flat_map final_mosi]; [reflexivity|].
  now rewrite <- !app_assoc, mosi_at_samples_bits_wire, IH.
Qed.

Lemma for_all_bytes (P : Z -> bool) :
  forallb P (map Z.of_nat (seq 0 256)) = true ->
  forall b, is_byte b -> P b = true.
Proof.
  intros A b B. rewrite forallb_forall in A. apply A.
  replace b with (Z.of_nat (Z.to_nat b)) by (unfold is_byte in B; lia).
  apply in_map, in_seq. unfold is_byte in B. lia.
Qed.

Lemma list_eqb_eq a : forall b, list_eqb a b = true -> a = b.
Proof.
  induction a as [|x a IH]; intros [|y b] H; simpl in H;
    try discriminate; [reflexivity|].
  apply andb_true_iff in H. destruct H as [H1 H2].
  apply Z.eqb_eq in H1. subst. f_equal. now apply IH.
Qed.

(** The bit loop drives the bits of a byte, most significant first. *)
Lemma msb_seq_byte b : is_byte b -> msb_seq 8 b = bits_of b.
Proof.
  intros B. apply list_eqb_eq.
  apply (for_all_bytes (fun b => list_eqb (msb_seq 8 b) (bits_of b)));
    [vm_compute; reflexivity | exact B].
Qed.

Lemma pack_bytes_eight fuel b7 b6 b5 b4 b3 b2 b1 b0 bits :
  pack_bytes (S fuel) ([b7; b6; b5; b4; b3; b2; b1; b0] ++ bits)
  = hd 0 (pack_bytes 1 [b7; b6; b5; b4; b3; b2; b1; b0])
    :: pack_bytes fuel bits.
Proof. reflexivity. Qed.

Lemma pack_bits_of b bits fuel :
  is_byte b ->
  pack_bytes (S fuel) (bits_of b ++ bits) = b :: pack_bytes fuel bits.
Proof.
  intros B.
  assert (E : list_eqb (pack_bytes 1 (bits_of b)) [b] = true).
  { apply (for_all_bytes
             (fun b => list_eqb (pack_bytes 1 (bits_of b)) [b]));
      [vm_compute; reflexivity | exact B]. }
  apply list_eqb_eq in E. unfold bits_of in *. cbn [map] in *.
  rewrite pack_bytes_eight, E. reflexivity.
Qed.

Lemma pack_flat_bits l : forall fuel,
  Forall is_byte l -> (List.length l <= fuel)%nat ->
  pack_bytes fuel (flat_map bits_of l) = l.
Proof.
  induction l as [|b l IH]; intros fuel F Len.
  - destruct fuel; reflexivity.
  - inversion F as [|? ? B F']; subst.
    destruct fuel as [|fuel]; [simpl in Len; lia|].
    cbn [flat_map]. rewrite (pack_bits_of _ _ B), IH; auto.
    simpl in Len. lia.
Qed.

Lemma bytes_sent_length n wp :
  wp_ok n wp -> List.length (bytes_sent n wp) = n.
Proof.
  destruct wp as [l|]; simpl; intros W.
  - rewrite length_firstn. lia.
  - apply repeat_length.
Qed.

Lemma transfer_added api lib writecnt wp rd e r e' :
  spi_wr_and_rd api lib writecnt wp rd e = (Ok r, e') ->
  added_since e (hw e')
  = transfer_wire api (_cs_mode e) (bytes_sent (Z.to_nat writecnt) wp)
      (_curr_cs e) (_curr_mosi e) (_curr_sck e).
Proof.
  intros H. destruct (spi_wr_and_rd_wire _ _ _ _ _ _ H) as (_ & W & _).
  now apply added_since_app.
Qed.

(** X1. The libgpiod calls of a transfer that returns, and the cache it
    leaves, do not depend on what libgpiod answers: two runs of the same
    [spi_wr_and_rd] from the same engine against two behaviours of libgpiod
    (other levels on MISO, other results of the writes) that both return
    have the same history and the same cached CS, SCK and MOSI. *)
Theorem transfer_calls_independent_of_answers :
  forall api lib1 lib2 writecnt writearr readarr e r1 e1 r2 e2,
    spi_wr_and_rd api lib1 writecnt writearr readarr e = (Ok r1, e1) ->
    spi_wr_and_rd api lib2 writecnt writearr readarr e = (Ok r2, e2) ->
    hw e1 = hw e2
    /\ (_curr_cs e1, _curr_sck e1, _curr_mosi e1)
       = (_curr_cs e2, _curr_sck e2, _curr_mosi e2).
Proof.
  intros api lib1 lib2 n wp rd e r1 e1 r2 e2 H1 H2.
  destruct (spi_wr_and_rd_wire _ _ _ _ _ _ H1) as (_ & W1 & M1 & S1 & _ & C1).
  destruct (spi_wr_and_rd_wire _ _ _ _ _ _ H2) as (_ & W2 & M2 & S2 & _ & C2).
  rewrite W1, W2, M1, M2, S1, S2, C1, C2. auto.
Qed.

Lemma transfer_calls_independent_of_answers_witness :
  let e := engine_on APIv1 loopback_miso in
  let lib1 := board loopback_miso (fun _ => 0) in
  let lib2 := board (status_miso [90; 165]) (fun _ => 0) in
  hw (snd (spi_wr_and_rd APIv1 lib1 2 (Some [18; 52]) true e))
  = hw (snd (spi_wr_and_rd APIv1 lib2 2 (Some [18; 52]) true e)).
Proof.
  intros e lib1 lib2.
  refine (proj1 (@transfer_calls_independent_of_answers APIv1 lib1 lib2 2
                   (Some [18; 52]) true e
                   (0, Some [18; 52])
                   (snd (spi_wr_and_rd APIv1 lib1 2 (Some [18; 52]) true e))
                   (0, Some [0; 90])
                   (snd (spi_wr_and_rd APIv1 lib2 2 (Some [18; 52]) true e))
                   _ _)).
  - vm_compute. reflexivity.
  - vm_compute. reflexivity.
Defined.

(** X2. A [spi_wr_and_rd] of at least one byte that returns has returned 0
    after exactly eight reads of MISO and eight SCK pulses (high, then low)
    per byte, preceded by one write of SCK low only if SCK was not cached
    low; it leaves SCK cached low and, when there is a read buffer, has
    stored exactly [writecnt] bytes in it. *)
Theorem transfer_pulses_sck_eight_times_per_byte :
  forall api lib writecnt writearr readarr e r e',
    0 < writecnt ->
    spi_wr_and_rd api lib writecnt writearr readarr e = (Ok r, e') ->
    let added := added_since e (hw e') in
    let n := Z.to_nat writecnt in
    fst r = 0
    /\ count_reads added = (8 * n)%nat
    /\ writes_to SCK added
       = (if 0 =? _curr_sck e then [] else [level api 0])
         ++ sck_pulses api (8 * n)
    /\ _curr_sck e' = 0
    /\ match snd r with
       | Some stored => readarr = true /\ List.length stored = n
       | None => readarr = false
       end.
Proof.
  intros api lib writecnt wp rd e r e' Pos H added n. subst added n.
  rewrite (transfer_added _ _ _ _ _ _ H).
  destruct (spi_wr_and_rd_wire _ _ _ _ _ _ H) as (K & _ & _ & S & _).
  pose proof (@bytes_sent_length _ _ K) as L.
  destruct (bytes_sent (Z.to_nat writecnt) wp) as [|b l] eqn:B;
    [simpl in L; lia|].
  destruct (spi_wr_and_rd_spec api lib writecnt wp rd e)
    as (x & mid & _ & _ & _ & [(rx & R & St & _) | [(T & _) | [(f & F) _]]]);
    [ | rewrite T in H; discriminate | rewrite F in H; discriminate].
  rewrite R in H. inversion H; subst. cbn [fst snd].
  split; [reflexivity|].
  assert (Q : count_reads
                (transfer_wire api (_cs_mode e) (b :: l) (_curr_cs e)
                   (_curr_mosi e) (_curr_sck e)) = (8 * Z.to_nat writecnt)%nat
              /\ writes_to SCK
                   (transfer_wire api (_cs_mode e) (b :: l) (_curr_cs e)
                      (_curr_mosi e) (_curr_sck e))
                 = writes_to SCK (pin_write api SCK 0 (_curr_sck e))
                   ++ sck_pulses api (8 * Z.to_nat writecnt)).
  { rewrite <- L. unfold transfer_wire. destruct (_cs_mode e).
    - rewrite !count_reads_app, count_reads_pin_write, count_reads_bytes_wire.
      rewrite !writes_to_app, writes_to_pin_write, writes_to_sck_bytes_wire
        by reflexivity.
      cbn [count_reads writes_to line_eqb app]. rewrite app_nil_r.
      split; [lia | reflexivity].
    - rewrite count_reads_bytes_wire, writes_to_sck_bytes_wire. auto. }
  destruct Q as [Q1 Q2]. split; [exact Q1|]. split.
  - rewrite Q2. unfold pin_write.
    destruct (0 =? _curr_sck e); cbn [writes_to line_eqb]; reflexivity.
  - split; [exact S|].
    unfold stored, read_start in St. destruct rd.
    + destruct St as (l' & -> & Len). simpl. auto.
    + subst rx. reflexivity.
Qed.

Lemma transfer_pulses_sck_eight_times_per_byte_witness :
  let lib := board (status_miso [90; 165]) (fun _ => 0) in
  let e := engine_on APIv2 (status_miso [90; 165]) in
  let r := spi_wr_and_rd APIv2 lib 2 None true e in
  count_reads (added_since e (hw (snd r))) = 16%nat.
Proof.
  intros lib e.
  refine (proj1 (proj2 (@transfer_pulses_sck_eight_times_per_byte APIv2 lib 2
                          None true e (0, Some [0; 90])
                          (snd (spi_wr_and_rd APIv2 lib 2 None true e))
                          _ _))).
  - lia.
  - vm_compute. reflexivity.
Defined.

Lemma flat_map_bits_length l :
  List.length (flat_map bits_of l) = (8 * List.length l)%nat.
Proof.
  induction l as [|b l IH]; [reflexivity|].
  cbn [flat_map]. rewrite length_app, IH. unfold bits_of.
  rewrite length_map. simpl List.length. lia.
Qed.

Lemma flat_map_msb_seq l :
  Forall is_byte l -> flat_map (msb_seq 8) l = flat_map bits_of l.
Proof.
  induction 1 as [|b l B _ IH]; [reflexivity|].
  cbn [flat_map]. now rewrite IH, (msb_seq_byte B).
Qed.

(** X3. Whatever the peripheral answers, a [spi_wr_and_rd] that returns has
    presented on MOSI, at the successive samples of MISO, the bits of the
    bytes of its write buffer, most significant bit first (zeros when there
    is no write buffer): read off the history eight samples at a time, the
    bytes clocked out are the first [writecnt] bytes of the buffer. *)
Theorem transfer_clocks_out_msb_first :
  forall api lib writecnt writearr readarr e r e',
    Forall is_byte (bytes_sent (Z.to_nat writecnt) writearr) ->
    spi_wr_and_rd api lib writecnt writearr readarr e = (Ok r, e') ->
    mosi_at_samples (_curr_mosi e) (added_since e (hw e'))
    = flat_map bits_of (bytes_sent (Z.to_nat writecnt) writearr)
    /\ bytes_clocked e e' = bytes_sent (Z.to_nat writecnt) writearr.
Proof.
  intros api lib writecnt wp rd e r e' B H.
  assert (Q : mosi_at_samples (_curr_mosi e) (added_since e (hw e'))
              = flat_map bits_of (bytes_sent (Z.to_nat writecnt) wp)).
  { rewrite (transfer_added _ _ _ _ _ _ H). unfold transfer_wire.
    destruct (_cs_mode e).
    - rewrite mosi_at_samples_pin_write_cs, mosi_at_samples_bytes_wire.
      cbn [mosi_at_samples]. rewrite app_nil_r. now apply flat_map_msb_seq.
    - rewrite <- (app_nil_r (bytes_wire _ _ _ _)).
      rewrite mosi_at_samples_bytes_wire.
      cbn [mosi_at_samples]. rewrite app_nil_r. now apply flat_map_msb_seq. }
  split; [exact Q|].
  unfold bytes_clocked. rewrite Q. apply pack_flat_bits; [exact B|].
  rewrite flat_map_bits_length. lia.
Qed.

Lemma transfer_clocks_out_msb_first_witness :
  let lib := board (status_miso [90]) (fun _ => 0) in
  let e := engine_on APIv2 (status_miso [90]) in
  let r := spi_wr_and_rd APIv2 lib 2 (Some [128; 3; 77]) false e in
  bytes_clocked e (snd r) = [128; 3].
Proof.
  intros lib e.
  refine (proj2 (@transfer_clocks_out_msb_first APIv2 lib 2
                   (Some [128; 3; 77]) false e (0, None)
                   (snd (spi_wr_and_rd APIv2 lib 2 (Some [128; 3; 77])
                           false e)) _ _)).
  - unfold is_byte. repeat constructor; lia.
  - vm_compute. reflexivity.
Defined.

(** X4. A [spi_wr_and_rd] entered with SCK cached low that returns obeys
    SPI mode 0 on the wire: every write of MOSI happens while the last level
    written to SCK is low, and every read of MISO while it is high. *)
Theorem transfer_obeys_mode0_from_low_clock :
  forall api lib writecnt writearr readarr e r e',
    _curr_sck e = 0 ->
    spi_wr_and_rd api lib writecnt writearr readarr e = (Ok r, e') ->
    mode0 0 (added_since e (hw e')) = true.
Proof.
  intros api lib writecnt wp rd e r e' S H.
  rewrite (transfer_added _ _ _ _ _ _ H), S. unfold transfer_wire.
  destruct (_cs_mode e).
  - now rewrite mode0_pin_write_cs, mode0_bytes_wire.
  - rewrite <- (app_nil_r (bytes_wire _ _ _ _)).
    now rewrite mode0_bytes_wire.
Qed.

Lemma transfer_obeys_mode0_from_low_clock_witness :
  let lib := board loopback_miso (fun _ => 0) in
  let e := engine_on APIv1 loopback_miso in
  mode0 0 (added_since e
             (hw (snd (spi_wr_and_rd APIv1 lib 1 (Some [165]) true e))))
  = true.
Proof.
  intros lib e.
  refine (@transfer_obeys_mode0_from_low_clock APIv1 lib 1 (Some [165]) true
            e (0, Some [165])
            (snd (spi_wr_and_rd APIv1 lib 1 (Some [165]) true e)) _ _).
  - reflexivity.
  - vm_compute. reflexivity.
Defined.

(** X5. [update_pins] writes MOSI before SCK.  A transfer entered with SCK
    cached high whose first bit differs from the cached MOSI therefore
    changes MOSI while the clock is still high: mode 0 holds on the wire
    only because every path that returns leaves SCK low. *)
Theorem transfer_from_high_clock_breaks_mode0 :
  forall api lib writecnt b rest readarr e r e',
    0 < writecnt ->
    _curr_sck e = 1 ->
    msb b <> _curr_mosi e ->
    spi_wr_and_rd api lib writecnt (Some (b :: rest)) readarr e
      = (Ok r, e') ->
    mode0 1 (added_since e (hw e')) = false.
Proof.
  intros api lib writecnt b rest rd e r e' Pos S N H.
  rewrite (transfer_added _ _ _ _ _ _ H), S.
  replace (Z.to_nat writecnt) with (Datatypes.S (Z.to_nat writecnt - 1))
    by lia.
  cbn [bytes_sent firstn]. unfold transfer_wire.
  assert (Q : forall l h,
             mode0 1 (bytes_wire api (b :: l) (_curr_mosi e) 1 ++ h) = false).
  { intros l h. cbn [bytes_wire bits_wire]. unfold bit_wire, pin_write.
    apply Z.eqb_neq in N. rewrite N. reflexivity. }
  destruct (_cs_mode e).
  - rewrite mode0_pin_write_cs. apply Q.
  - rewrite <- (app_nil_r (bytes_wire _ _ _ _)). apply Q.
Qed.

(** The witness enters from the engine a thrown transfer has left. *)
Lemma transfer_from_high_clock_breaks_mode0_witness :
  let miso := stream_miso [GPIOD_LINE_VALUE_ERROR] in
  let lib := board miso (fun _ => 0) in
  let e := snd (spi_wr_and_rd APIv2 lib 1 (Some [0]) true
                  (engine_on APIv2 miso)) in
  mode0 1 (added_since e
             (hw (snd (spi_wr_and_rd APIv2 lib 1 (Some [128]) false e))))
  = false.
Proof.
  intros miso lib e.
  refine (@transfer_from_high_clock_breaks_mode0 APIv2 lib 1 128 [] false e
            (0, None)
            (snd (spi_wr_and_rd APIv2 lib 1 (Some [128]) false e)) _ _ _ _).
  - lia.
  - reflexivity.
  - vm_compute. discriminate.
  - vm_compute. reflexivity.
Defined.

(** ** A transfer that throws *)

Lemma clock_bit_thrown api lib wv rv e x e' :
  clock_bit api lib wv rv e = (Throw x, e') ->
  _curr_sck e' = 1 /\ count_reads (added_since e (hw e')) = 1%nat.
Proof.
  unfold clock_bit. fold (msb wv). rewrite bind_gets.
  destruct (update_pins_spec api lib (_curr_cs e) 0 (msb wv) e)
    as (e1 & E1 & _ & _ & _ & S1 & O1 & H1).
  rewrite (bind_ok _ E1), !bind_gets.
  destruct (update_pins_spec api lib (_curr_cs e1) 1 (_curr_mosi e1) e1)
    as (e2 & E2 & _ & _ & _ & S2 & O2 & H2).
  rewrite (bind_ok _ E2).
  destruct (read_miso_spec api lib e2) as (e3 & (_ & _ & _ & S3 & _) & H3 & R).
  destruct (sampled _) as [b|].
  - destruct R as (v & R & _). rewrite (bind_ok _ R), !bind_gets.
    destruct (update_pins_spec api lib (_curr_cs e3) 0 (_curr_mosi e3) e3)
      as (e4 & E4 & _).
    rewrite (bind_ok _ E4). discriminate.
  - rewrite (bind_throw _ R). intros H. inversion H; subst.
    split; [congruence|].
    rewrite (@added_since_app e e'
               (pin_write api MOSI (msb wv) (_curr_mosi e)
                ++ pin_write api SCK 0 (_curr_sck e)
                ++ pin_write api CS (_curr_cs e) (_curr_cs e)
                ++ pin_write api MOSI (_curr_mosi e1) (_curr_mosi e1)
                ++ pin_write api SCK 1 (_curr_sck e1)
                ++ pin_write api CS (_curr_cs e1) (_curr_cs e1)
                ++ [GetValue])).
    + rewrite !count_reads_app, !count_reads_pin_write. reflexivity.
    + rewrite H3, H2, H1, <- !app_assoc. reflexivity.
Qed.

Lemma clock_bits_thrown api lib n : forall wv rv e x e',
  clock_bits api lib n wv rv e = (Throw x, e') -> _curr_sck e' = 1.
Proof.
  induction n as [|n IH]; intros wv rv e x e' H; cbn [clock_bits] in H.
  - discriminate.
  - unfold bind in H.
    destruct (clock_bit api lib wv rv e) as [[p|y|y] e1] eqn:E.
    + eapply IH; eassumption.
    + inversion H; subst. eapply clock_bit_thrown; eassumption.
    + discriminate.
Qed.

Lemma clock_bytes_thrown api lib n : forall wp rp e x e',
  clock_bytes api lib n wp rp e = (Throw x, e') -> _curr_sck e' = 1.
Proof.
  induction n as [|n IH]; intros wp rp e x e' H; cbn [clock_bytes] in H.
  - discriminate.
  - unfold bind in H.
    destruct (next_write wp e) as [[w|y|y] e0] eqn:E0.
    + destruct (clock_bits api lib 8 (fst w) 0 e0) as [[rv|y|y] e1] eqn:E1.
      * eapply IH; eassumption.
      * inversion H; subst. eapply clock_bits_thrown; eassumption.
      * discriminate.
    + destruct wp as [[|b l]|]; discriminate.
    + discriminate.
Qed.

(** X6. A [spi_wr_and_rd] throws only for a MISO read that libgpiod v2
    reports as failed, and then stops in the middle of a bit: SCK is left
    cached high, the CS mode is unchanged, and in AUTO mode CS is left
    asserted. *)
Theorem transfer_thrown_stops_mid_bit :
  forall api lib writecnt writearr readarr e x e',
    spi_wr_and_rd api lib writecnt writearr readarr e = (Throw x, e') ->
    x = ErrorReadingMiso
    /\ api = APIv2
    /\ _curr_sck e' = 1
    /\ _cs_mode e' = _cs_mode e
    /\ _curr_cs e' = match _cs_mode e with
                     | SPI_CS_AUTO => 0
                     | SPI_CS_MANUAL => _curr_cs e
                     end.
Proof.
  intros api lib writecnt wp rd e x e' H.
  assert (S : _curr_sck e' = 1).
  { unfold spi_wr_and_rd in H. rewrite bind_gets in H. unfold bind in H.
    destruct (when (is_auto (_cs_mode e)) (clearCs api lib) e)
      as [[[]|y|y] e1] eqn:E1.
    - destruct (clock_bytes api lib (Z.to_nat writecnt) wp
                  (if rd then Some [] else None) e1) as [[rp|y|y] e2] eqn:E2.
      + unfold gets in H.
        destruct (when (is_auto (_cs_mode e2)) (setCs api lib) e2)
          as [[[]|y|y] e3] eqn:E3; try discriminate.
        unfold when in E3. destruct (is_auto (_cs_mode e2)); [|discriminate].
        destruct (setCs_spec api lib e2) as (z & Z & _).
        rewrite Z in E3. discriminate.
      + inversion H; subst. eapply clock_bytes_thrown; eassumption.
      + discriminate.
    - unfold when in E1. destruct (is_auto (_cs_mode e)); [|discriminate].
      destruct (clearCs_spec api lib e) as (z & Z & _).
      rewrite Z in E1. discriminate.
    - discriminate. }
  destruct (spi_wr_and_rd_spec api lib writecnt wp rd e)
    as (e1 & mid & _ & M' & _ & [(rx & R & _) | [(T & A & C) | [(f & F) _]]]);
    [rewrite R in H; discriminate | | rewrite F in H; discriminate].
  rewrite T in H. inversion H; subst.
  repeat split; auto.
  destruct (_cs_mode e); simpl in C; tauto.
Qed.

Lemma transfer_thrown_stops_mid_bit_witness :
  let miso := stream_miso [GPIOD_LINE_VALUE_ERROR] in
  let lib := board miso (fun _ => 0) in
  let e := engine_on APIv2 miso in
  let e' := snd (spi_wr_and_rd APIv2 lib 1 (Some [0]) true e) in
  _curr_sck e' = 1 /\ _curr_cs e' = 0.
Proof.
  intros miso lib e e'.
  destruct (@transfer_thrown_stops_mid_bit APIv2 lib 1 (Some [0]) true e
              ErrorReadingMiso e') as (_ & _ & S & _ & C).
  - vm_compute. reflexivity.
  - split; [exact S | exact C].
Defined.

(** ** What a transfer receives *)

Lemma answers_app api lib h1 : forall base h2,
  answers api lib base (h1 ++ h2)
  = answers api lib base h1 ++ answers api lib (base ++ h1) h2.
Proof.
  induction h1 as [|ev h1 IH]; intros base h2.
  - simpl. now rewrite app_nil_r.
  - replace (base ++ ev :: h1) with ((base ++ [ev]) ++ h1)
      by (rewrite <- app_assoc; reflexivity).
    destruct ev; cbn [app answers]; rewrite IH; reflexivity.
Qed.

Lemma answers_pin_write api lib base l req cur :
  answers api lib base (pin_write api l req cur) = [].
Proof. unfold pin_write. now destruct (req =? cur). Qed.

Lemma answers_length api lib evs : forall base,
  List.length (answers api lib base evs) = count_reads evs.
Proof.
  induction evs as [|ev evs IH]; intros base; [reflexivity|].
  destruct ev; cbn [answers count_reads List.length]; now rewrite IH.
Qed.

Lemma clock_bit_answer api lib wv rv e p e' :
  clock_bit api lib wv rv e = (Ok p, e') ->
  exists b,
    answers api lib (hw e) (bit_wire api wv (_curr_mosi e) (_curr_sck e))
    = [b]
    /\ snd p = u8 (Z.lor (Z.shiftl rv 1) b).
Proof.
  intros H.
  destruct (clock_bit_spec api lib wv rv e) as (e1 & _ & _ & _ & _ & R).
  unfold rising_edge in R. unfold bit_wire.
  rewrite !answers_app, !answers_pin_write. cbn [app answers].
  rewrite <- !app_assoc.
  destruct (sampled _) as [b|].
  - destruct R as (E & _). rewrite E in H. inversion H; subst.
    exists b. split; reflexivity.
  - destruct R as (E & _). rewrite E in H. discriminate.
Qed.

Lemma clock_bits_answer api lib n : forall wv rv e r e',
  clock_bits api lib n wv rv e = (Ok r, e') ->
  r = shift_bits rv
        (answers api lib (hw e)
           (bits_wire api n wv (_curr_mosi e) (_curr_sck e))).
Proof.
  induction n as [|n IH]; intros wv rv e r e' H; cbn [clock_bits] in H.
  - inversion H; subst. reflexivity.
  - destruct (bind_ok_inv _ _ _ H) as (p & e1 & E1 & H1).
    destruct (clock_bit_wire _ _ _ _ _ E1) as (W1 & M1 & S1 & P1).
    destruct (clock_bit_answer _ _ _ _ _ E1) as (b & A & Q).
    rewrite (IH _ _ _ _ _ H1), P1, Q, W1, M1, S1.
    cbn [bits_wire]. rewrite answers_app, A. reflexivity.
Qed.

Lemma assemble_app a bits n :
  List.length a = 8%nat ->
  assemble (S n) (a ++ bits) = shift_bits 0 a :: assemble n bits.
Proof.
  intros L. cbn [assemble].
  rewrite firstn_app, skipn_app, L, Nat.sub_diag, firstn_all2, skipn_all2
    by lia.
  cbn [firstn skipn app]. now rewrite app_nil_r.
Qed.

Lemma clock_bytes_answer api lib n : forall wp acc e rp' e',
  clock_bytes api lib n wp (Some acc) e = (Ok rp', e') ->
  rp' = Some (acc ++ assemble n
                (answers api lib (hw e)
                   (bytes_wire api (bytes_sent n wp)
                      (_curr_mosi e) (_curr_sck e)))).
Proof.
  induction n as [|n IH]; intros wp acc e rp' e' H; cbn [clock_bytes] in H.
  - inversion H; subst. cbn [assemble]. now rewrite app_nil_r.
  - destruct (bind_ok_inv _ _ _ H) as (w & e1 & E1 & H1). clear H.
    destruct (bind_ok_inv _ _ _ H1) as (rv & e2 & E2 & H2). clear H1.
    cbn [store_read] in H2.
    pose proof (IH _ _ _ _ _ H2) as R.
    destruct (clock_bits_wire _ _ _ _ _ _ E2) as (W2 & M2 & S2).
    pose proof (clock_bits_answer _ _ _ _ _ _ E2) as V.
    assert (Q : forall b l,
               fst w = b -> e1 = e -> bytes_sent n (snd w) = l ->
               rp' = Some (acc ++ assemble (S n)
                          (answers api lib (hw e)
                             (bytes_wire api (b :: l)
                                (_curr_mosi e) (_curr_sck e))))).
    { intros b l <- -> <-. rewrite R, <- app_assoc. do 2 f_equal.
      cbn [bytes_wire]. rewrite answers_app, assemble_app.
      - rewrite <- V, <- W2, <- M2, S2. reflexivity.
      - now rewrite answers_length, count_reads_bits_wire. }
    destruct wp as [[|b l]|]; cbn [next_write] in E1;
      inversion E1; subst w e1; cbn [bytes_sent firstn repeat];
      apply Q; reflexivity.
Qed.

Lemma transfer_stored_answers api lib writecnt wp e r e' :
  spi_wr_and_rd api lib writecnt wp true e = (Ok r, e') ->
  snd r = Some (assemble (Z.to_nat writecnt)
                  (answers api lib (hw e) (added_since e (hw e')))).
Proof.
  intros H.
  rewrite (transfer_added _ _ _ _ _ _ H).
  unfold spi_wr_and_rd in H. rewrite bind_gets in H.
  destruct (bind_ok_inv _ _ _ H) as ([] & e1 & E1 & H1). clear H.
  destruct (bind_ok_inv _ _ _ H1) as (rp & e2 & E2 & H2). clear H1.
  rewrite bind_gets in H2.
  destruct (bind_ok_inv _ _ _ H2) as ([] & e3 & E3 & H3). clear H2.
  inversion H3; subst. clear H3. cbn [snd].
  rewrite (@clock_bytes_answer api lib _ _ _ _ _ _ E2). cbn [app].
  unfold transfer_wire.
  destruct (_cs_mode e) eqn:A; cbn [is_auto when] in E1.
  - destruct (clearCs_spec api lib e) as (x & X & _ & _ & _ & S1 & M1 & W1).
    rewrite X in E1. inversion E1; subst x.
    rewrite !answers_app, answers_pin_write. cbn [app answers].
    rewrite app_nil_r, W1, M1, S1. reflexivity.
  - inversion E1; subst e1. reflexivity.
Qed.

(** X7. The bytes a [spi_wr_and_rd] that returns has stored are made of the
    levels of MISO at its reads, eight per byte, most significant bit first:
    byte [i] is what the bit loop shifts together from the answers of
    libgpiod at reads [8i] to [8i+7], each answer taken at the history up to
    that read. *)
Theorem transfer_stores_sampled_bits_msb_first :
  forall api lib writecnt writearr e r e',
    spi_wr_and_rd api lib writecnt writearr true e = (Ok r, e') ->
    snd r = Some (assemble (Z.to_nat writecnt)
                    (answers api lib (hw e) (added_since e (hw e')))).
Proof.
  intros api lib writecnt wp e r e' H.
  exact (@transfer_stored_answers api lib writecnt wp e r e' H).
Qed.

Lemma transfer_stores_sampled_bits_msb_first_witness :
  let lib := board (status_miso [90; 165]) (fun _ => 0) in
  let e := engine_on APIv2 (status_miso [90; 165]) in
  let r := spi_wr_and_rd APIv2 lib 3 None true e in
  snd (fst_ok r)
  = Some (assemble 3 (answers APIv2 lib (hw e)
                        (added_since e (hw (snd r))))).
Proof.
  intros lib e.
  refine (@transfer_stores_sampled_bits_msb_first APIv2 lib 3 None e
            (0, Some [0; 90; 165])
            (snd (spi_wr_and_rd APIv2 lib 3 None true e)) _).
  vm_compute. reflexivity.
Defined.

(** ** Transfers on a MISO line that never fails *)

Lemma v1_reads_never_throw lib : reads_never_throw APIv1 lib.
Proof. intros h. discriminate. Qed.

Lemma clock_bit_returns api lib wv rv e :
  reads_never_throw api lib ->
  exists p e', clock_bit api lib wv rv e = (Ok p, e').
Proof.
  intros N.
  destruct (clock_bit_spec api lib wv rv e) as (e' & _ & _ & _ & _ & R).
  specialize (N (rising_edge api wv e)).
  destruct (sampled _) as [b|]; [|contradiction].
  destruct R as (E & _). eauto.
Qed.

Lemma clock_bits_returns api lib n : forall wv rv e,
  reads_never_throw api lib ->
  exists r e', clock_bits api lib n wv rv e = (Ok r, e').
Proof.
  induction n as [|n IH]; intros wv rv e N; cbn [clock_bits].
  - unfold ret. eauto.
  - destruct (clock_bit_returns wv rv e N) as (p & e1 & E1).
    rewrite (bind_ok _ E1). now apply IH.
Qed.

Lemma clock_bytes_returns api lib n : forall wp rp e,
  reads_never_throw api lib -> wp_ok n wp ->
  exists rp' e', clock_bytes api lib n wp rp e = (Ok rp', e').
Proof.
  induction n as [|n IH]; intros wp rp e N W; cbn [clock_bytes].
  - unfold ret. eauto.
  - destruct wp as [[|b l]|]; cbn [next_write]; simpl in W; [lia | | ];
      rewrite bind_ret; cbn [fst snd].
    + destruct (clock_bits_returns 8 b 0 e N) as (rv & e1 & E1).
      rewrite (bind_ok _ E1). apply IH; [exact N | simpl; lia].
    + destruct (clock_bits_returns 8 0 0 e N) as (rv & e1 & E1).
      rewrite (bind_ok _ E1). apply IH; [exact N | exact I].
Qed.

Lemma spi_wr_and_rd_returns api lib writecnt wp rd e :
  reads_never_throw api lib -> wp_ok (Z.to_nat writecnt) wp ->
  exists rx e', spi_wr_and_rd api lib writecnt wp rd e = (Ok (0, rx), e').
Proof.
  intros N W.
  destruct (spi_wr_and_rd_spec api lib writecnt wp rd e)
    as (e' & mid & _ & _ & _ & [(rx & R & _) | [(T & _) | [_ O]]]);
    [eauto | | contradiction].
  exfalso. unfold spi_wr_and_rd in T. rewrite bind_gets in T.
  assert (P : exists e1,
             when (is_auto (_cs_mode e)) (clearCs api lib) e = (Ok tt, e1)).
  { unfold when. destruct (is_auto (_cs_mode e)).
    - destruct (clearCs_spec api lib e) as (e1 & E1 & _). eauto.
    - unfold ret. eauto. }
  destruct P as (e1 & E1). rewrite (bind_ok _ E1) in T.
  destruct (clock_bytes_returns (Z.to_nat writecnt) wp
              (if rd then Some [] else None) e1 N W) as (rp & e2 & E2).
  rewrite (bind_ok _ E2), bind_gets in T.
  assert (Q : exists e3,
             when (is_auto (_cs_mode e2)) (setCs api lib) e2 = (Ok tt, e3)).
  { unfold when. destruct (is_auto (_cs_mode e2)).
    - destruct (setCs_spec api lib e2) as (e3 & E3 & _). eauto.
    - unfold ret. eauto. }
  destruct Q as (e3 & E3). rewrite (bind_ok _ E3) in T. discriminate.
Qed.

Lemma sampled_bit api b : is_bit b -> sampled api b = Some b.
Proof. intros [-> | ->]; destruct api; reflexivity. Qed.

Lemma nth_is_bit bits k : Forall is_bit bits -> is_bit (nth k bits 0).
Proof.
  intros F. destruct (nth_in_or_default k bits 0) as [I | ->].
  - rewrite Forall_forall in F. now apply F.
  - now left.
Qed.

Lemma count_reads_snoc h ev :
  count_reads (h ++ [ev])
  = (count_reads h + match ev with GetValue => 1 | _ => 0 end)%nat.
Proof. rewrite count_reads_app. destruct ev; reflexivity. Qed.

Lemma answers_stream api lib bits evs :
  (forall h, gpiod_get_value lib h = stream_miso bits h) ->
  Forall is_bit bits ->
  forall base,
    answers api lib base evs
    = map (fun i => nth i bits 0) (seq (count_reads base) (count_reads evs)).
Proof.
  intros L F. induction evs as [|ev evs IH]; intros base; [reflexivity|].
  destruct ev; cbn [answers count_reads]; rewrite IH, count_reads_snoc;
    try (rewrite Nat.add_0_r; reflexivity).
  rewrite L. unfold stream_miso.
  rewrite (sampled_bit api (nth_is_bit (count_reads base) F)).
  cbn [seq map]. now rewrite Nat.add_1_r.
Qed.

Lemma shift_bits_eight b7 b6 b5 b4 b3 b2 b1 b0 :
  is_bit b7 -> is_bit b6 -> is_bit b5 -> is_bit b4 ->
  is_bit b3 -> is_bit b2 -> is_bit b1 -> is_bit b0 ->
  shift_bits 0 [b7; b6; b5; b4; b3; b2; b1; b0]
  = 128 * b7 + 64 * b6 + 32 * b5 + 16 * b4 + 8 * b3 + 4 * b2 + 2 * b1 + b0.
Proof.
  intros [-> | ->] [-> | ->] [-> | ->] [-> | ->]
         [-> | ->] [-> | ->] [-> | ->] [-> | ->]; reflexivity.
Qed.

Lemma assemble_pack n : forall l,
  Forall is_bit l -> List.length l = (8 * n)%nat ->
  assemble n l = pack_bytes n l.
Proof.
  induction n as [|n IH]; intros l F L; [reflexivity|].
  do 8 (destruct l as [|? l]; [simpl in L; lia|]).
  repeat match goal with
         | H : Forall is_bit (_ :: _) |- _ =>
             let a := fresh "B" in
             let b := fresh "F" in
             inversion H as [|? ? a b]; subst; clear H
         end.
  cbn [assemble pack_bytes firstn skipn].
  rewrite shift_bits_eight by assumption.
  f_equal. apply IH; [assumption | simpl in L; lia].
Qed.

Lemma stream_never_throws api lib bits :
  (forall h, gpiod_get_value lib h = stream_miso bits h) ->
  Forall is_bit bits ->
  reads_never_throw api lib.
Proof.
  intros L F h. rewrite L. unfold stream_miso.
  now rewrite (sampled_bit api (nth_is_bit (count_reads h) F)).
Qed.

Lemma transfer_on_stream api lib bits writecnt wp e :
  (forall h, gpiod_get_value lib h = stream_miso bits h) ->
  Forall is_bit bits ->
  wp_ok (Z.to_nat writecnt) wp ->
  fst (spi_wr_and_rd api lib writecnt wp true e)
  = Ok (0, Some (pack_bytes (Z.to_nat writecnt)
                   (map (fun i => nth i bits 0)
                      (seq (count_reads (hw e))
                         (8 * Z.to_nat writecnt))))).
Proof.
  intros L F W.
  pose proof (stream_never_throws api lib L F) as N.
  destruct (@spi_wr_and_rd_returns api lib writecnt wp true e N W)
    as (rx & e' & E).
  pose proof (@transfer_stored_answers _ _ _ _ _ _ _ E) as S.
  cbn [snd] in S. rewrite E. cbn [fst]. rewrite S. do 3 f_equal.
  rewrite (answers_stream api lib _ L F).
  assert (C : count_reads (added_since e (hw e'))
              = (8 * Z.to_nat writecnt)%nat).
  { rewrite (transfer_added _ _ _ _ _ _ E).
    pose proof (@bytes_sent_length _ _ W) as Len.
    unfold transfer_wire. destruct (_cs_mode e).
    - rewrite !count_reads_app, count_reads_pin_write,
        count_reads_bytes_wire, Len. simpl. lia.
    - now rewrite count_reads_bytes_wire, Len. }
  rewrite C. apply assemble_pack.
  - apply Forall_forall. intros x I. apply in_map_iff in I.
    destruct I as (i & <- & _). now apply nth_is_bit.
  - now rewrite length_map, length_seq.
Qed.

(** X8. On a MISO line that answers the successive reads with the bits of a
    list (zeros once the list is exhausted), with either API, a
    [spi_wr_and_rd] with a read buffer returns 0 and stores the bits taken
    from where the reads of the history so far left off, packed eight to a
    byte with the first bit of each eight as the most significant. *)
Theorem transfer_packs_stream_msb_first :
  forall api lib bits writecnt writearr e,
    (forall h, gpiod_get_value lib h = stream_miso bits h) ->
    Forall is_bit bits ->
    wp_ok (Z.to_nat writecnt) writearr ->
    fst (spi_wr_and_rd api lib writecnt writearr true e)
    = Ok (0, Some (pack_bytes (Z.to_nat writecnt)
                     (map (fun i => nth i bits 0)
                        (seq (count_reads (hw e))
                           (8 * Z.to_nat writecnt))))).
Proof.
  intros api lib bits writecnt wp e L F W.
  exact (@transfer_on_stream api lib bits writecnt wp e L F W).
Qed.

Lemma transfer_packs_stream_msb_first_witness :
  let bits := [1; 0; 1; 0; 0; 1; 0; 1; 1; 1] in
  let lib := board (stream_miso bits) (fun _ => 0) in
  fst (spi_wr_and_rd APIv2 lib 2 None true (engine_on APIv2 (stream_miso bits)))
  = Ok (0, Some [165; 192]).
Proof.
  intros bits lib.
  refine (@transfer_packs_stream_msb_first APIv2 lib bits 2 None
            (engine_on APIv2 (stream_miso bits)) _ _ _).
  - intros h. reflexivity.
  - repeat (apply Forall_cons; [unfold is_bit; lia|]). apply Forall_nil.
  - exact I.
Defined.

Lemma answers_all_ones lib evs :
  (forall h, gpiod_get_value lib h <> 0) ->
  forall base, answers APIv1 lib base evs = repeat 1 (count_reads evs).
Proof.
  intros L. induction evs as [|ev evs IH]; intros base; [reflexivity|].
  destruct ev; cbn [answers count_reads repeat]; rewrite IH; try reflexivity.
  unfold sampled. specialize (L base). apply Z.eqb_neq in L. now rewrite L.
Qed.

Lemma assemble_ones n : assemble n (repeat 1 (8 * n)) = repeat 255 n.
Proof.
  induction n as [|n IH]; [reflexivity|].
  replace (8 * S n)%nat with (8 + 8 * n)%nat by lia.
  rewrite repeat_app, assemble_app, IH by reflexivity. reflexivity.
Qed.

(** X9. With the v1 API no transfer throws: [read_miso] hands on what
    [gpiod_line_get_value] returned, the -1 of a failed read included, and
    the bit loop takes every non-zero value for a 1.  When no read returns
    0 (every read fails, say), [spi_wr_and_rd] still returns status 0 and
    fills the read buffer with 0xFF bytes. *)
Theorem v1_failed_reads_are_sampled_as_ones :
  forall lib writecnt writearr e,
    (forall h, gpiod_get_value lib h <> 0) ->
    wp_ok (Z.to_nat writecnt) writearr ->
    fst (spi_wr_and_rd APIv1 lib writecnt writearr true e)
    = Ok (0, Some (repeat 255 (Z.to_nat writecnt))).
Proof.
  intros lib writecnt wp e L W.
  destruct (@spi_wr_and_rd_returns APIv1 lib writecnt wp true e
              (v1_reads_never_throw lib) W) as (rx & e' & E).
  pose proof (@transfer_stored_answers _ _ _ _ _ _ _ E) as S.
  cbn [snd] in S. rewrite E. cbn [fst]. rewrite S. do 3 f_equal.
  rewrite (answers_all_ones lib _ L).
  assert (C : count_reads (added_since e (hw e'))
              = (8 * Z.to_nat writecnt)%nat).
  { rewrite (transfer_added _ _ _ _ _ _ E).
    pose proof (@bytes_sent_length _ _ W) as Len.
    unfold transfer_wire. destruct (_cs_mode e).
    - rewrite !count_reads_app, count_reads_pin_write,
        count_reads_bytes_wire, Len. simpl. lia.
    - now rewrite count_reads_bytes_wire, Len. }
  rewrite C. apply assemble_ones.
Qed.

Lemma v1_failed_reads_are_sampled_as_ones_witness :
  let lib := board (fun _ => -1) (fun _ => 0) in
  fst (spi_wr_and_rd APIv1 lib 3 (Some [1; 2; 3]) true
         (engine_on APIv1 (fun _ => -1)))
  = Ok (0, Some [255; 255; 255]).
Proof.
  intros lib.
  refine (@v1_failed_reads_are_sampled_as_ones lib 3 (Some [1; 2; 3])
            (engine_on APIv1 (fun _ => -1)) _ _).
  - intros h. simpl. lia.
  - simpl. lia.
Defined.

(** ** Calls that change nothing *)

Lemma set_curr_same e :
  set_curr (_curr_cs e) (_curr_sck e) (_curr_mosi e) e = e.
Proof. now destruct e. Qed.

Lemma update_pins_cached api lib e :
  update_pins api lib (_curr_cs e) (_curr_sck e) (_curr_mosi e) e
  = (Ok 0, e).
Proof.
  unfold update_pins.
  rewrite !bind_gets, !Z.eqb_refl. cbn [negb when].
  rewrite !bind_ret, !bind_gets, !Z.eqb_refl. cbn [negb when].
  rewrite !bind_ret, !bind_gets, !Z.eqb_refl. cbn [negb when].
  rewrite !bind_ret, bind_modify, set_curr_same. reflexivity.
Qed.

Lemma update_pins_same api lib cs sck mosi e :
  _curr_cs e = cs -> _curr_sck e = sck -> _curr_mosi e = mosi ->
  update_pins api lib cs sck mosi e = (Ok 0, e).
Proof. intros <- <- <-. apply update_pins_cached. Qed.

(** X10. [update_pins] is idempotent: called again with the arguments of
    the call before, whatever libgpiod answered to that call and even if
    its writes failed, it makes no libgpiod call, prints nothing and leaves
    the engine as it is; so do [setCs] after [setCs] and [clearCs] after
    [clearCs]. *)
Theorem update_pins_repeated_is_silent :
  forall api lib cs sck mosi e,
    let e1 := snd (update_pins api lib cs sck mosi e) in
    update_pins api lib cs sck mosi e1 = (Ok 0, e1)
    /\ setCs api lib (snd (setCs api lib e))
       = (Ok tt, snd (setCs api lib e))
    /\ clearCs api lib (snd (clearCs api lib e))
       = (Ok tt, snd (clearCs api lib e)).
Proof.
  intros api lib cs sck mosi e e1. subst e1. repeat split.
  - destruct (update_pins_spec api lib cs sck mosi e)
      as (e1 & E & _ & _ & C & S & M' & _).
    rewrite E. cbn [snd]. now apply update_pins_same.
  - destruct (setCs_spec api lib e) as (e1 & E & _ & _ & C & _).
    rewrite E. cbn [snd]. unfold setCs. rewrite !bind_gets.
    rewrite (bind_ok _ (@update_pins_same api lib _ _ _ e1 C eq_refl eq_refl)).
    reflexivity.
  - destruct (clearCs_spec api lib e) as (e1 & E & _ & _ & C & _).
    rewrite E. cbn [snd]. unfold clearCs. rewrite !bind_gets.
    rewrite (bind_ok _ (@update_pins_same api lib _ _ _ e1 C eq_refl eq_refl)).
    reflexivity.
Qed.

(** ** A write followed by a read *)

Lemma spi_wr_and_rd_status api lib writecnt wp rd e r e' :
  spi_wr_and_rd api lib writecnt wp rd e = (Ok r, e') -> fst r = 0.
Proof.
  intros H.
  destruct (@spi_put_returned api lib wp rd writecnt e r e' H) as [Z0 _].
  exact Z0.
Qed.

Lemma final_mosi_app l1 : forall l2 m,
  final_mosi (l1 ++ l2) m = final_mosi l2 (final_mosi l1 m).
Proof.
  induction l1 as [|b l1 IH]; intros l2 m; cbn [app final_mosi];
    [reflexivity | apply IH].
Qed.

Lemma final_sck_app l1 l2 s :
  final_sck (l1 ++ l2) s = final_sck l2 (final_sck l1 s).
Proof. destruct l1, l2; reflexivity. Qed.

Lemma final_sck_low l : final_sck l 0 = 0.
Proof. now destruct l. Qed.

Lemma bytes_wire_app api l1 : forall l2 m s,
  bytes_wire api (l1 ++ l2) m s
  = bytes_wire api l1 m s
    ++ bytes_wire api l2 (final_mosi l1 m) (final_sck l1 s).
Proof.
  induction l1 as [|b l1 IH]; intros l2 m s; [reflexivity|].
  cbn [app bytes_wire final_mosi final_sck].
  rewrite IH, <- app_assoc, final_sck_low. reflexivity.
Qed.

Lemma pin_write_differs api l req cur :
  req <> cur -> pin_write api l req cur = [SetValue l (level api req)].
Proof.
  intros N. unfold pin_write. destruct (Z.eqb_spec req cur); [contradiction|].
  reflexivity.
Qed.

Lemma spi_wr_then_rd_wire api lib tx tx_len rx rx_len e r e' :
  spi_wr_then_rd api lib tx tx_len rx rx_len e = (Ok r, e') ->
  let l := bytes_sent (Z.to_nat tx_len) tx ++ repeat 0 (Z.to_nat rx_len) in
  fst r = 0
  /\ wp_ok (Z.to_nat tx_len) tx
  /\ hw e' = hw e ++ transfer_wire api SPI_CS_AUTO l (_curr_cs e)
                       (_curr_mosi e) (_curr_sck e)
  /\ _cs_mode e' = SPI_CS_AUTO
  /\ _curr_cs e' = 1
  /\ _curr_mosi e' = final_mosi l (_curr_mosi e)
  /\ _curr_sck e' = final_sck l (_curr_sck e).
Proof.
  intros H l. unfold spi_wr_then_rd in H.
  rewrite (bind_ok _ (setCSmode_spec SPI_CS_MANUAL e)) in H.
  destruct (clearCs_spec api lib (set_cs_mode SPI_CS_MANUAL e))
    as (e1 & E1 & _ & M1 & C1 & S1 & O1 & H1).
  rewrite (bind_ok _ E1) in H. cbn in M1, S1, O1, H1.
  destruct (bind_ok_inv _ _ _ H) as ([s2 r2] & e2 & E2 & H2). clear H.
  pose proof (spi_wr_and_rd_status _ _ _ _ _ _ E2) as Z2.
  cbn [fst] in Z2. subst s2.
  destruct (spi_wr_and_rd_wire _ _ _ _ _ _ E2)
    as (Wp & W2 & O2 & S2 & M2 & C2).
  rewrite M1 in W2, M2, C2. cbn [transfer_wire] in W2.
  cbn [fst] in H2. change (u32 0 =? 0) with true in H2. cbn [negb] in H2.
  rewrite bind_assoc in H2.
  destruct (bind_ok_inv _ _ _ H2) as ([s3 r3] & e3 & E3 & H3). clear H2.
  pose proof (spi_wr_and_rd_status _ _ _ _ _ _ E3) as Z3.
  cbn [fst] in Z3. subst s3.
  destruct (spi_wr_and_rd_wire _ _ _ _ _ _ E3)
    as (_ & W3 & O3 & S3 & M3 & C3).
  rewrite M2 in W3, M3, C3. cbn [transfer_wire bytes_sent] in W3, O3, S3.
  cbn [fst snd] in H3. change (u32 0 =? 0) with true in H3.
  cbn [negb when] in H3. rewrite bind_assoc, !bind_ret in H3.
  destruct (setCs_spec api lib e3) as (e4 & E4 & _ & M4 & C4 & S4 & O4 & H4).
  rewrite (bind_ok _ E4), (bind_ok _ (setCSmode_spec SPI_CS_AUTO e4)) in H3.
  unfold ret in H3. injection H3 as <- <-.
  split; [reflexivity|]. split; [exact Wp|].
  unfold l. cbn [transfer_wire set_cs_mode hw _cs_mode _curr_cs _curr_mosi
                 _curr_sck].
  rewrite bytes_wire_app, final_mosi_app, final_sck_app.
  split.
  - rewrite H4, W3, W2, H1, C3, C2, C1, O2, S2, O1, S1, <- !app_assoc.
    rewrite (@pin_write_differs api CS 1 0) by lia. reflexivity.
  - split; [reflexivity|]. split; [exact C4|].
    split; congruence.
Qed.

(** X11. [spi_wr_then_rd] is, on the lines, one transfer in AUTO mode: a
    call that returns has returned 0 and made exactly the libgpiod calls of
    one CS window around the [tx_len] bytes of [tx_data] followed by
    [rx_len] zero bytes, with CS never released between the write and the
    read; it leaves the engine in AUTO mode whatever the mode was before. *)
Theorem write_then_read_is_one_cs_window :
  forall api lib tx tx_len rx rx_len e r e',
    spi_wr_then_rd api lib tx tx_len rx rx_len e = (Ok r, e') ->
    let l := bytes_sent (Z.to_nat tx_len) tx ++ repeat 0 (Z.to_nat rx_len) in
    fst r = 0
    /\ added_since e (hw e')
       = pin_write api CS 0 (_curr_cs e)
         ++ bytes_wire api l (_curr_mosi e) (_curr_sck e)
         ++ [SetValue CS (level api 1)]
    /\ writes_to CS (bytes_wire api l (_curr_mosi e) (_curr_sck e)) = []
    /\ count_reads (added_since e (hw e'))
       = (8 * (Z.to_nat tx_len + Z.to_nat rx_len))%nat
    /\ _cs_mode e' = SPI_CS_AUTO
    /\ _curr_cs e' = 1.
Proof.
  intros api lib tx tx_len rx rx_len e r e' H l.
  destruct (@spi_wr_then_rd_wire api lib tx tx_len rx rx_len e r e' H)
    as (Z0 & Wp & W & M' & C & _ & _).
  cbn [transfer_wire] in W. fold l in W.
  rewrite (@added_since_app e e' _ W).
  split; [exact Z0|]. split; [reflexivity|].
  split; [apply writes_to_cs_bytes_wire|].
  split; [|now split].
  rewrite !count_reads_app, count_reads_pin_write, count_reads_bytes_wire.
  unfold l. rewrite length_app, bytes_sent_length, repeat_length by exact Wp.
  cbn [count_reads]. lia.
Qed.

Lemma write_then_read_is_one_cs_window_witness :
  let lib := board (stream_miso [1; 0; 1]) (fun _ => 0) in
  let e := engine_on APIv2 (stream_miso [1; 0; 1]) in
  let e' := snd (spi_wr_then_rd APIv2 lib (Some [159]) 1 true 2 e) in
  let l := [159; 0; 0] in
  0 = 0
  /\ added_since e (hw e')
     = pin_write APIv2 CS 0 (_curr_cs e)
       ++ bytes_wire APIv2 l (_curr_mosi e) (_curr_sck e)
       ++ [SetValue CS (level APIv2 1)]
  /\ writes_to CS (bytes_wire APIv2 l (_curr_mosi e) (_curr_sck e)) = []
  /\ count_reads (added_since e (hw e')) = 24%nat
  /\ _cs_mode e' = SPI_CS_AUTO
  /\ _curr_cs e' = 1.
Proof.
  intros lib e e' l.
  refine (@write_then_read_is_one_cs_window APIv2 lib (Some [159]) 1 true 2 e
            (0, Some [0; 0]) e' _).
  vm_compute. reflexivity.
Defined.

(** ** The calls of [spi_wait] *)

Lemma wait_limit_cases timeout :
  0 <= timeout < 4294967296 ->
  0 < wait_limit timeout <= 4294967296
  /\ u32 (wait_limit timeout) = timeout.
Proof.
  intros T. unfold wait_limit, u32.
  destruct (Z.eqb_spec timeout 0) as [->|N].
  - split; [lia | reflexivity].
  - split; [lia | apply Z.mod_small; lia].
Qed.

Lemma wait_count_below timeout count :
  0 <= timeout < 4294967296 ->
  0 <= count < wait_limit timeout ->
  u32 (count + 1) <> timeout ->
  count + 1 < wait_limit timeout /\ u32 (count + 1) = count + 1.
Proof.
  intros T C Q. destruct (wait_limit_cases T) as [L U].
  destruct (Z.eq_dec (count + 1) (wait_limit timeout)) as [E|N].
  - exfalso. apply Q. now rewrite E.
  - split; [lia | unfold u32; apply Z.mod_small; lia].
Qed.

(** A polling loop that returns has clocked out one zero byte for each of
    its [k] passes, and has stopped at the latest when [count] met
    [timeout]. *)
Lemma wait_loop_wire api lib mask cond timeout verbose fuel :
  forall count e rx c e',
    0 <= timeout < 4294967296 ->
    0 <= count < wait_limit timeout ->
    _cs_mode e = SPI_CS_MANUAL ->
    wait_loop api lib fuel mask cond timeout verbose count e
      = (Ok (rx, c), e') ->
    exists k : nat,
      (1 <= k)%nat
      /\ count + Z.of_nat k <= wait_limit timeout
      /\ c = u32 (count + Z.of_nat k)
      /\ hw e' = hw e ++ bytes_wire api (repeat 0 k) (_curr_mosi e)
                           (_curr_sck e)
      /\ _cs_mode e' = SPI_CS_MANUAL
      /\ _curr_cs e' = _curr_cs e
      /\ _curr_sck e' = 0.
Proof.
  induction fuel as [|fuel IH]; intros count e rx c e' T C A H;
    cbn [wait_loop] in H; [discriminate|].
  destruct (bind_ok_inv _ _ _ H) as (r & e1 & E1 & H1). clear H.
  destruct (spi_wr_and_rd_wire _ _ _ _ _ _ E1)
    as (_ & W1 & O1 & S1 & M1 & C1).
  rewrite A in W1, M1, C1. change (Z.to_nat 1) with 1%nat in W1, O1, S1.
  cbn [bytes_sent repeat transfer_wire bytes_wire final_mosi final_sck]
    in W1, O1, S1.
  rewrite app_nil_r in W1.
  destruct (Z.eqb_spec (u32 (count + 1)) timeout) as [Q|Q].
  - unfold printf in H1. rewrite bind_modify in H1. unfold ret in H1.
    injection H1 as _ Hc He. subst c e'. exists 1%nat.
    change (Z.of_nat 1) with 1. cbn [repeat bytes_wire log_out hw _cs_mode
                                      _curr_cs _curr_sck].
    rewrite app_nil_r.
    split; [lia|]. split; [lia|]. split; [reflexivity|].
    split; [exact W1|]. split; [exact M1|]. split; [exact C1 | exact S1].
  - destruct (wait_count_below T C Q) as [B U].
    destruct (bind_ok_inv _ _ _ H1) as ([] & e2 & E2 & H2). clear H1.
    assert (F : hw e2 = hw e1 /\ _cs_mode e2 = _cs_mode e1
                /\ _curr_cs e2 = _curr_cs e1
                /\ _curr_mosi e2 = _curr_mosi e1
                /\ _curr_sck e2 = _curr_sck e1).
    { destruct verbose; simpl in E2; inversion E2; auto. }
    destruct F as (Fh & Fm & Fc & Fo & Fs).
    destruct (negb _).
    + destruct (IH (u32 (count + 1)) e2 rx c e' T ltac:(lia) ltac:(congruence)
                  H2) as (k & K1 & K2 & K3 & K4 & K5 & K6 & K7).
      exists (S k). cbn [repeat bytes_wire].
      split; [lia|]. split; [lia|].
      split; [rewrite K3, U; f_equal; lia|].
      split; [|split; [|split]; congruence].
      rewrite K4, Fh, Fo, Fs, W1, O1, S1, <- app_assoc. reflexivity.
    + unfold ret in H2. injection H2 as _ Hc He. subst c e'. exists 1%nat.
      change (Z.of_nat 1) with 1. cbn [repeat bytes_wire].
      rewrite app_nil_r.
      split; [lia|]. split; [lia|]. split; [reflexivity|].
      split; [congruence|]. split; [|split]; congruence.
Qed.

Lemma spi_wait_wire api lib cmd mask cond timeout verbose e st e' :
  spi_wait api lib cmd mask cond timeout verbose e = (Ok st, e') ->
  exists k : nat,
    1 <= Z.of_nat k <= wait_limit (u32 timeout)
    /\ st = (if Z.of_nat k =? wait_limit (u32 timeout) then - ETIME else 0)
    /\ hw e' = hw e ++ transfer_wire api SPI_CS_AUTO (cmd :: repeat 0 k)
                         (_curr_cs e) (_curr_mosi e) (_curr_sck e)
    /\ _cs_mode e' = SPI_CS_AUTO
    /\ _curr_cs e' = 1
    /\ _curr_sck e' = 0.
Proof.
  intros H. unfold spi_wait in H.
  assert (T : 0 <= u32 timeout < 4294967296) by (apply Z.mod_pos_bound; lia).
  set (t := u32 timeout) in *.
  destruct (wait_limit_cases T) as [L U].
  rewrite (bind_ok _ (setCSmode_spec SPI_CS_MANUAL e)) in H.
  destruct (clearCs_spec api lib (set_cs_mode SPI_CS_MANUAL e))
    as (e1 & E1 & _ & M1 & C1 & S1 & O1 & H1).
  rewrite (bind_ok _ E1) in H. cbn in M1, S1, O1, H1.
  destruct (bind_ok_inv _ _ _ H) as (r2 & e2 & E2 & H2). clear H.
  destruct (spi_wr_and_rd_wire _ _ _ _ _ _ E2)
    as (_ & W2 & O2 & S2 & M2 & C2).
  rewrite M1 in W2, M2, C2. change (Z.to_nat 1) with 1%nat in W2, O2, S2.
  cbn [bytes_sent firstn transfer_wire bytes_wire final_mosi final_sck]
    in W2, O2, S2.
  rewrite app_nil_r in W2.
  destruct (bind_ok_inv _ _ _ H2) as ([rx c] & e3 & E3 & H3). clear H2.
  destruct (@wait_loop_wire api lib mask cond t verbose _ 0 e2 rx c e3 T
              ltac:(lia) M2 E3) as (k & K1 & K2 & K3 & K4 & K5 & K6 & K7).
  destruct (setCs_spec api lib e3) as (e4 & E4 & _ & M4 & C4 & S4 & O4 & H4).
  assert (S5 : _curr_sck e4 = 0) by congruence.
  rewrite (bind_ok _ E4), (bind_ok _ (setCSmode_spec SPI_CS_AUTO e4)) in H3.
  cbn [fst snd] in H3.
  assert (W : hw e4 = hw e ++ transfer_wire api SPI_CS_AUTO
                                (cmd :: repeat 0 k)
                                (_curr_cs e) (_curr_mosi e) (_curr_sck e)).
  { cbn [transfer_wire bytes_wire].
    rewrite H4, K4, W2, H1, K6, C2, C1, O2, S2, O1, S1, <- !app_assoc.
    rewrite (@pin_write_differs api CS 1 0) by lia. reflexivity. }
  assert (Q : (c =? t) = (Z.of_nat k =? wait_limit t)).
  { rewrite K3. change (0 + Z.of_nat k) with (Z.of_nat k).
    destruct (Z.eqb_spec (Z.of_nat k) (wait_limit t)) as [Eq|Ne].
    - rewrite Eq, U. apply Z.eqb_refl.
    - apply Z.eqb_neq. unfold u32. rewrite Z.mod_small by lia.
      unfold wait_limit in Ne, K2. destruct (Z.eqb_spec t 0); lia. }
  exists k. split; [lia|]. rewrite <- Q.
  destruct (c =? t).
  - unfold printf in H3. rewrite bind_modify in H3. unfold ret in H3.
    injection H3 as <- <-.
    cbn [log_out set_cs_mode hw _cs_mode _curr_cs _curr_sck]. auto 6.
  - unfold ret in H3. injection H3 as <- <-.
    cbn [set_cs_mode hw _cs_mode _curr_cs _curr_sck]. auto 6.
Qed.

(** X12. [spi_wait] is, on the lines, one transfer in AUTO mode: a call
    that returns has made exactly the libgpiod calls of one CS window around
    the command byte followed by one zero byte for each of its [k] read
    attempts.  It makes at least one attempt and at most [timeout], or 2^32
    for a [timeout] of 0; it returns [-ETIME] exactly when it has made that
    many, and 0 otherwise. *)
Theorem spi_wait_polls_in_one_cs_window :
  forall api lib cmd mask cond timeout verbose e st e',
    spi_wait api lib cmd mask cond timeout verbose e = (Ok st, e') ->
    exists k : nat,
      1 <= Z.of_nat k <= wait_limit (u32 timeout)
      /\ st = (if Z.of_nat k =? wait_limit (u32 timeout) then - ETIME else 0)
      /\ added_since e (hw e')
         = pin_write api CS 0 (_curr_cs e)
           ++ bytes_wire api (cmd :: repeat 0 k) (_curr_mosi e) (_curr_sck e)
           ++ [SetValue CS (level api 1)]
      /\ read_attempts e e' = Z.of_nat k
      /\ _cs_mode e' = SPI_CS_AUTO.
Proof.
  intros api lib cmd mask cond timeout verbose e st e' H.
  destruct (@spi_wait_wire api lib cmd mask cond timeout verbose e st e' H)
    as (k & K & Hst & W & M' & _ & _).
  exists k. split; [exact K|]. split; [exact Hst|].
  cbn [transfer_wire] in W.
  unfold read_attempts. rewrite (@added_since_app e e' _ W).
  split; [reflexivity|]. split; [|exact M'].
  rewrite !count_reads_app, count_reads_pin_write, count_reads_bytes_wire.
  cbn [count_reads List.length]. rewrite repeat_length.
  replace (Z.of_nat (0 + (8 * S k + 0)) - 8) with (Z.of_nat k * 8) by lia.
  apply Z.div_mul. lia.
Qed.

Lemma spi_wait_polls_in_one_cs_window_witness :
  let lib := board (status_miso [0; 1]) (fun _ => 0) in
  let e := engine_on APIv1 (status_miso [0; 1]) in
  let e' := snd (spi_wait APIv1 lib 5 1 1 3 false e) in
  exists k : nat,
    1 <= Z.of_nat k <= wait_limit (u32 3)
    /\ 0 = (if Z.of_nat k =? wait_limit (u32 3) then - ETIME else 0)
    /\ added_since e (hw e')
       = pin_write APIv1 CS 0 (_curr_cs e)
         ++ bytes_wire APIv1 (5 :: repeat 0 k) (_curr_mosi e) (_curr_sck e)
         ++ [SetValue CS (level APIv1 1)]
    /\ read_attempts e e' = Z.of_nat k
    /\ _cs_mode e' = SPI_CS_AUTO.
Proof.
  intros lib e e'.
  refine (@spi_wait_polls_in_one_cs_window APIv1 lib 5 1 1 3 false e 0 e' _).
  vm_compute. reflexivity.
Defined.

(** ** The command-prefixed [spi_put] on a loopback *)

(** X13. On a loopback, from an engine whose cache agrees with the MOSI
    line, the command-prefixed [spi_put] with a read buffer hands back the
    [len] bytes it clocked out after the command, and not the echo of the
    command: the payload when there is one, and otherwise what the stack
    held in [jtx]. *)
Theorem spi_put_cmd_loopback_round_trip :
  forall api lib e cmd tx len,
    put_args_ok tx len ->
    Forall is_byte (jtx_buffer lib cmd tx len) ->
    loopback lib ->
    mosi_synced api e ->
    fst (spi_put_cmd api lib cmd tx true len e)
    = Ok (0, Some (tl (jtx_buffer lib cmd tx len))).
Proof.
  intros api lib e cmd tx len A B L S.
  pose proof (jtx_buffer_length lib cmd A) as Len.
  rewrite (spi_put_cmd_unfold api lib cmd true e A).
  destruct (@spi_wr_and_rd_loopback api lib (len + 1)
              (jtx_buffer lib cmd tx len) e L S B) as (e' & E & _);
    [rewrite Len; apply Nat.le_refl|].
  rewrite (bind_ok _ E). cbn [ret fst snd copy_response].
  rewrite <- Len, firstn_all.
  unfold jtx_buffer in *. cbn [skipn tl List.length] in *.
  rewrite firstn_all2 by lia. reflexivity.
Qed.

Lemma spi_put_cmd_loopback_round_trip_witness :
  fst (spi_put_cmd APIv2 (board loopback_miso (fun _ => 0)) 171
         (Some [1; 2]) true 2 (engine_on APIv2 loopback_miso))
  = Ok (0, Some [1; 2]).
Proof.
  apply (@spi_put_cmd_loopback_round_trip APIv2
           (board loopback_miso (fun _ => 0))
           (engine_on APIv2 loopback_miso) 171 (Some [1; 2]) 2).
  - split; [lia | simpl; lia].
  - unfold is_byte. simpl. repeat (apply Forall_cons; [lia|]). apply Forall_nil.
  - apply board_loopback.
  - reflexivity.
Defined.

(** ** The constructor's failures *)

Lemma keeps_cache_modify v f :
  (forall e, cache_of (f e) = cache_of e) ->
  keeps (fun e => cache_of e = v) (modify f).
Proof. intros F e P. simpl. now rewrite F. Qed.

Lemma keeps_cache_display v d : keeps (fun e => cache_of e = v) (display d).
Proof.
  unfold display. apply keeps_bind; [apply keeps_gets | intros b].
  apply keeps_when, keeps_cache_modify. reflexivity.
Qed.

Lemma keeps_cache_display_throw A v d x :
  keeps (fun e => cache_of e = v) (bind (display d) (fun _ => @throw A x)).
Proof.
  apply keeps_bind; [apply keeps_cache_display | intros _; apply keeps_throw].
Qed.

Lemma keeps_cache_check_duplicate v p rest :
  keeps (fun e => cache_of e = v) (check_duplicate p rest).
Proof.
  induction rest as [|q rest IH]; cbn [check_duplicate]; [apply keeps_ret|].
  destruct (p =? q); [apply keeps_cache_display_throw | exact IH].
Qed.

Lemma keeps_cache_validate_pins v pins :
  keeps (fun e => cache_of e = v) (validate_pins pins).
Proof.
  induction pins as [|p rest IH]; cbn [validate_pins]; [apply keeps_ret|].
  destruct ((p <? 0) || (p >=? 1000)); [apply keeps_cache_display_throw|].
  apply keeps_bind; [apply keeps_cache_check_duplicate | intros _; exact IH].
Qed.

Lemma keeps_cache_get_line v lib offset val output :
  keeps (fun e => cache_of e = v) (get_line lib offset val output).
Proof.
  unfold get_line. apply keeps_bind; [apply keeps_gets | intros h].
  apply keeps_bind; [apply keeps_cache_modify; reflexivity | intros _].
  destruct (negb _); [apply keeps_cache_display_throw|].
  apply keeps_bind; [apply keeps_gets | intros h'].
  apply keeps_bind; [apply keeps_cache_modify; reflexivity | intros _].
  destruct (_ <? 0); [apply keeps_cache_display_throw | apply keeps_ret].
Qed.

Lemma keeps_cache_request_lines v api lib :
  keeps (fun e => cache_of e = v) (request_lines api lib).
Proof.
  unfold request_lines.
  do 4 (apply keeps_bind; [apply keeps_gets | intros ?]).
  destruct api.
  - do 3 (apply keeps_bind; [apply keeps_cache_get_line | intros _]).
    apply keeps_cache_get_line.
  - do 3 (apply keeps_bind; [apply keeps_cache_modify; reflexivity | intros _]).
    apply keeps_cache_modify. reflexivity.
Qed.

Lemma thrown_of_keeps A (P : engine -> Prop) (m : M A) :
  keeps P m -> keeps_if_thrown P m.
Proof. intros K e x e' Pe H. specialize (K e Pe). now rewrite H in K. Qed.

Lemma thrown_bind A B (P : engine -> Prop) (m : M A) (k : A -> M B) :
  keeps P m -> (forall a, keeps_if_thrown P (k a)) ->
  keeps_if_thrown P (bind m k).
Proof.
  intros Km Kk e x e' Pe H. unfold bind in H. specialize (Km e Pe).
  destruct (m e) as [[a|y|y] e1]; simpl in Km.
  - exact (Kk a e1 x e' Km H).
  - inversion H; subst. exact Km.
  - discriminate.
Qed.

Lemma thrown_never A (P : engine -> Prop) (m : M A) :
  (forall e, exists a e', m e = (Ok a, e')) -> keeps_if_thrown P m.
Proof.
  intros R e x e' _ H. destruct (R e) as (a & e1 & E).
  rewrite E in H. discriminate.
Qed.

(** Once the lines are acquired the constructor returns. *)
Lemma constructor_tail_returns api lib e :
  exists e',
    bind (modify (set_curr 0 1 1))
      (fun _ => bind (update_pins api lib 1 0 0)
                  (fun _ => setCSmode SPI_CS_AUTO)) e = (Ok tt, e').
Proof.
  rewrite bind_modify.
  destruct (update_pins_spec api lib 1 0 0 (set_curr 0 1 1 e))
    as (e3 & E3 & _).
  rewrite (bind_ok _ E3). eexists. reflexivity.
Qed.

Lemma constructor_thrown_cache api lib c dev verbose v :
  keeps_if_thrown (fun e => cache_of e = v)
    (LibgpiodSpiBitbang api lib c dev verbose).
Proof.
  unfold LibgpiodSpiBitbang.
  apply thrown_bind; [apply keeps_cache_modify; reflexivity | intros _].
  apply thrown_bind; [apply keeps_cache_display | intros _].
  destruct (_ || _).
  - apply thrown_of_keeps, keeps_cache_display_throw.
  - do 4 (apply thrown_bind; [apply keeps_gets | intros ?]).
    apply thrown_bind; [apply keeps_cache_validate_pins | intros _].
    apply thrown_bind; [apply keeps_cache_modify; reflexivity | intros _].
    destruct (negb _).
    + apply thrown_of_keeps, keeps_cache_display_throw.
    + apply thrown_bind; [apply keeps_cache_request_lines | intros _].
      apply thrown_never. intros e.
      destruct (constructor_tail_returns api lib e) as (e' & E). eauto.
Qed.

Lemma acquired_bind f1 f2 (m k : M unit) e :
  acquired f1 e (m e) -> (forall e1, acquired f2 e1 (k e1)) ->
  acquired (f1 ++ f2) e (bind m (fun _ => k) e).
Proof.
  intros (evs & H & O) K. unfold bind.
  destruct (m e) as [[[]|x|x] e1]; cbn [fst snd] in *.
  - subst evs. destruct (K e1) as (evs2 & H2 & O2).
    exists (f1 ++ evs2). rewrite H2, H, <- app_assoc. split; [reflexivity|].
    destruct (fst (k e1)); [now subst | | exact O2].
    destruct O2 as (X & rest & ->). split; [exact X|].
    exists rest. apply app_assoc.
  - exists evs. split; [exact H|]. destruct O as (X & rest & ->).
    split; [exact X|]. exists (rest ++ f2). symmetry. apply app_assoc.
  - contradiction.
Qed.

Lemma get_line_acquired lib offset val output e :
  acquired [ChipGetLine offset; LineRequest offset output val] e
    (get_line lib offset val output e).
Proof.
  unfold get_line. rewrite bind_gets, bind_modify.
  destruct (negb (gpiod_chip_get_line lib (hw e) offset)).
  - destruct (display_throw unit (MsgUnableGetLine offset) UnableToGetLine
                (log_hw (ChipGetLine offset) e)) as (e' & E & _ & H).
    rewrite E. exists [ChipGetLine offset]. cbn [fst snd].
    split; [rewrite H; reflexivity|]. split; [now left|].
    now exists [LineRequest offset output val].
  - rewrite bind_gets, bind_modify.
    destruct (_ <? 0).
    + destruct (display_throw unit (MsgErrorRequesting offset)
                  ErrorRequestingLine
                  (log_hw (LineRequest offset output val)
                     (log_hw (ChipGetLine offset) e))) as (e' & E & _ & H).
      rewrite E. exists [ChipGetLine offset; LineRequest offset output val].
      cbn [fst snd].
      split; [rewrite H; cbn [log_hw hw]; now rewrite <- app_assoc|].
      split; [now right|]. exists []. reflexivity.
    + exists [ChipGetLine offset; LineRequest offset output val].
      cbn [ret fst snd log_hw hw]. now rewrite <- app_assoc.
Qed.

Lemma request_lines_acquired api lib e :
  acquired (request_events api (_cs_pin e) (_sck_pin e) (_mosi_pin e)
              (_miso_pin e)) e (request_lines api lib e).
Proof.
  unfold request_lines. rewrite !bind_gets. destruct api.
  - apply (@acquired_bind
             [ChipGetLine (_cs_pin e); LineRequest (_cs_pin e) true 1]
             [ChipGetLine (_sck_pin e); LineRequest (_sck_pin e) true 0;
              ChipGetLine (_mosi_pin e); LineRequest (_mosi_pin e) true 0;
              ChipGetLine (_miso_pin e); LineRequest (_miso_pin e) false 0]);
      [apply get_line_acquired | intros e1].
    apply (@acquired_bind
             [ChipGetLine (_sck_pin e); LineRequest (_sck_pin e) true 0]
             [ChipGetLine (_mosi_pin e); LineRequest (_mosi_pin e) true 0;
              ChipGetLine (_miso_pin e); LineRequest (_miso_pin e) false 0]);
      [apply get_line_acquired | intros e2].
    apply (@acquired_bind
             [ChipGetLine (_mosi_pin e); LineRequest (_mosi_pin e) true 0]
             [ChipGetLine (_miso_pin e); LineRequest (_miso_pin e) false 0]);
      [apply get_line_acquired | intros e3].
    apply get_line_acquired.
  - rewrite !bind_modify. unfold modify. eexists. cbn [fst snd log_hw hw].
    split; [|reflexivity]. rewrite <- !app_assoc. reflexivity.
Qed.

Lemma writes_to_prefix l full evs rest :
  full = evs ++ rest -> writes_to l full = [] -> writes_to l evs = [].
Proof.
  intros -> H. rewrite writes_to_app in H. now apply app_eq_nil in H.
Qed.

Lemma count_reads_prefix full evs rest :
  full = evs ++ rest -> count_reads full = O -> count_reads evs = O.
Proof. intros -> H. rewrite count_reads_app in H. lia. Qed.

Lemma opening_calls_drive_nothing api c dev :
  (forall l, writes_to l (opening_calls api c dev) = [])
  /\ count_reads (opening_calls api c dev) = O.
Proof. destruct api; split; reflexivity || (intros l; reflexivity). Qed.

Lemma constructor_thrown_calls api lib c dev verbose e x e' :
  LibgpiodSpiBitbang api lib c dev verbose e = (Throw x, e') ->
  x <> ErrorReadingMiso
  /\ (api = APIv2 -> x <> UnableToGetLine /\ x <> ErrorRequestingLine)
  /\ exists evs rest,
       hw e' = hw e ++ evs /\ opening_calls api c dev = evs ++ rest.
Proof.
  intros H.
  destruct (constructor_validates api lib c dev verbose e)
    as [(_ & T & W) | [(_ & _ & T & W) | [(_ & _ & T & W)
       | (_ & _ & _ & e1 & _ & H1 & P1 & E)]]];
    try (rewrite H in T, W; cbn [fst snd] in T, W;
         injection T as ->;
         split; [discriminate|];
         split; [intros _; split; discriminate|];
         exists [], (opening_calls api c dev);
         rewrite app_nil_r; split; [exact W | reflexivity]).
  rewrite H in E. inversion P1 as [[Pcs Psck Pmosi Pmiso]].
  destruct (negb (gpiod_chip_open lib (chip_path dev))).
  - destruct (display_throw unit (MsgUnableOpen (chip_path dev))
                UnableToOpenChip e1) as (e2 & E2 & _ & H2).
    rewrite E2 in E. injection E as -> ->.
    split; [discriminate|]. split; [intros _; split; discriminate|].
    exists [ChipOpen (chip_path dev)],
      (request_events api (cs_pin c) (sck_pin c) (mosi_pin c) (miso_pin c)).
    split; [congruence | reflexivity].
  - destruct (request_lines_acquired api lib e1) as (evs & W & O).
    destruct (request_lines api lib e1) as [[[]|y|y] e2] eqn:E2;
      cbn [fst snd] in W, O; [ | | contradiction].
    + rewrite (bind_ok _ E2) in E.
      destruct (constructor_tail_returns api lib e2) as (e3 & E3).
      rewrite E3 in E. discriminate.
    + rewrite (bind_throw _ E2) in E. injection E as -> ->.
      destruct O as (X & rest & F).
      split; [destruct X; subst; discriminate|]. split.
      * intros ->.
        destruct (@request_lines_granted APIv2 lib e1) as (e3 & E3 & _);
          [discriminate|].
        rewrite E3 in E2. discriminate.
      * exists (ChipOpen (chip_path dev) :: evs), rest.
        rewrite W, H1, <- app_assoc. split; [reflexivity|].
        unfold opening_calls. rewrite <- Pcs, <- Psck, <- Pmosi, <- Pmiso, F.
        reflexivity.
Qed.

(** X14. A constructor that throws has driven no line: the libgpiod calls
    it made are a first part of the opening of the chip followed by the
    requests for the four lines, in the order CS, SCK, MOSI, MISO, with no
    write to a line and no read of MISO among them, and the CS mode and the
    cached levels of the object are what the memory held before.  It never
    throws the MISO read error, and with the v2 API it never throws for a
    line it could not get. *)
Theorem constructor_failure_drives_no_line :
  forall api lib c dev verbose e x e',
    LibgpiodSpiBitbang api lib c dev verbose e = (Throw x, e') ->
    (exists rest, opening_calls api c dev = added_since e (hw e') ++ rest)
    /\ (forall l, writes_to l (added_since e (hw e')) = [])
    /\ count_reads (added_since e (hw e')) = O
    /\ cache_of e' = cache_of e
    /\ x <> ErrorReadingMiso
    /\ (api = APIv2 -> x <> UnableToGetLine /\ x <> ErrorRequestingLine).
Proof.
  intros api lib c dev verbose e x e' H.
  destruct (constructor_thrown_calls _ _ _ _ _ _ H)
    as (X1 & X2 & evs & rest & W & F).
  destruct (opening_calls_drive_nothing api c dev) as [N R].
  rewrite (@added_since_app e e' evs W).
  split; [now exists rest|].
  split; [intros l; exact (@writes_to_prefix l _ _ _ F (N l))|].
  split; [exact (@count_reads_prefix _ _ _ F R)|].
  split; [|now split].
  exact (@constructor_thrown_cache api lib c dev verbose (cache_of e)
           e x e' eq_refl H).
Qed.

Lemma constructor_failure_drives_no_line_witness :
  let lib := {| gpiod_chip_open := fun _ => true;
                gpiod_chip_get_line := fun _ offset => negb (offset =? 2);
                gpiod_line_request := fun _ _ => 0;
                gpiod_set_value := fun _ _ _ => 0;
                gpiod_get_value := fun _ => 0;
                stack_byte := fun _ => 0 |} in
  let e := raw_engine SPI_CS_MANUAL 0 1 1 in
  let e' := snd (LibgpiodSpiBitbang APIv1 lib pins0123 "/dev/gpiochip0" 0 e) in
  (exists rest,
     opening_calls APIv1 pins0123 "/dev/gpiochip0"
     = added_since e (hw e') ++ rest)
  /\ (forall l, writes_to l (added_since e (hw e')) = [])
  /\ count_reads (added_since e (hw e')) = O
  /\ cache_of e' = cache_of e
  /\ UnableToGetLine <> ErrorReadingMiso
  /\ (APIv1 = APIv2 ->
      UnableToGetLine <> UnableToGetLine
      /\ UnableToGetLine <> ErrorRequestingLine).
Proof.
  intros lib e e'.
  refine (@constructor_failure_drives_no_line APIv1 lib pins0123
            "/dev/gpiochip0"%string 0 e UnableToGetLine e' _).
  vm_compute. reflexivity.
Defined.

(** X15. With the v2 API the constructor returns exactly when the device
    path is accepted, the four pins are in 0..999 and pairwise distinct,
    and the chip opens: the results of the four line requests are not
    looked at, so no refusal of a line makes it fail. *)
Theorem v2_constructor_returns_iff_chip_opens :
  forall lib c dev verbose e,
    fst (LibgpiodSpiBitbang APIv2 lib c dev verbose e) = Ok tt
    <-> (valid_dev dev
         /\ Forall in_range (pins_of c)
         /\ NoDup (pins_of c)
         /\ gpiod_chip_open lib (chip_path dev) = true).
Proof.
  intros lib c dev verbose e.
  destruct (constructor_validates APIv2 lib c dev verbose e)
    as [(V & T & _) | [(_ & F & T & _) | [(_ & N & T & _)
       | (V & F & N & e1 & _ & _ & _ & E)]]].
  - rewrite T. split; [discriminate | intros (V' & _); contradiction].
  - rewrite T. split; [discriminate | intros (_ & F' & _); contradiction].
  - rewrite T. split; [discriminate | intros (_ & _ & N' & _); contradiction].
  - rewrite E. destruct (gpiod_chip_open lib (chip_path dev)); cbn [negb].
    + split; [auto|]. intros _.
      destruct (@request_lines_granted APIv2 lib e1) as (e2 & E2 & _);
        [discriminate|].
      rewrite (bind_ok _ E2).
      destruct (constructor_tail_returns APIv2 lib e2) as (e3 & E3).
      now rewrite E3.
    + destruct (display_throw unit (MsgUnableOpen (chip_path dev))
                  UnableToOpenChip e1) as (e2 & E2 & _).
      rewrite E2. split; [discriminate|]. intros (_ & _ & _ & O).
      discriminate.
Qed.

(** ** The lines between public operations *)

Lemma last_set_sck_bits_wire api n : forall wv m s,
  last_set SCK (bits_wire api (S n) wv m s) = Some (level api 0).
Proof.
  induction n as [|n IH]; intros wv m s.
  - cbn [bits_wire]. unfold bit_wire. rewrite app_nil_r, !last_set_app.
    reflexivity.
  - change (bits_wire api (S (S n)) wv m s)
      with (bit_wire api wv m s
            ++ bits_wire api (S n) (u8 (Z.shiftl wv 1)) (msb wv) 0).
    now rewrite last_set_app, IH.
Qed.

Lemma last_set_sck_bytes_wire api l : forall m s,
  last_set SCK (bytes_wire api l m s)
  = match l with [] => None | _ :: _ => Some (level api 0) end.
Proof.
  induction l as [|b l IH]; intros m s; [reflexivity|].
  cbn [bytes_wire]. rewrite last_set_app, IH.
  destruct l; [apply last_set_sck_bits_wire | reflexivity].
Qed.

Lemma last_set_other_pin_write api l l' req cur :
  line_eqb l l' = false -> last_set l (pin_write api l' req cur) = None.
Proof.
  intros N. unfold pin_write. destruct (req =? cur); [reflexivity|].
  cbn [last_set]. now rewrite N.
Qed.

Lemma mode0_transfer_wire api mode l cs m :
  mode0 0 (transfer_wire api mode l cs m 0) = true.
Proof.
  unfold transfer_wire. destruct mode.
  - now rewrite mode0_pin_write_cs, mode0_bytes_wire.
  - rewrite <- (app_nil_r (bytes_wire _ _ _ _)). now rewrite mode0_bytes_wire.
Qed.

Lemma idle_after_transfer api l e e' :
  idle api e -> mosi_synced api e' ->
  hw e' = hw e ++ transfer_wire api SPI_CS_AUTO l (_curr_cs e)
                    (_curr_mosi e) (_curr_sck e) ->
  _cs_mode e' = SPI_CS_AUTO -> _curr_cs e' = 1 ->
  _curr_sck e' = final_sck l (_curr_sck e) ->
  idle api e'.
Proof.
  intros (A & C & LC & S & LS & _) Sy W A' C' S'.
  split; [exact A'|]. split; [exact C'|].
  cbn [transfer_wire] in W.
  split; [rewrite W, !last_set_app; reflexivity|].
  split; [rewrite S', S; apply final_sck_low|].
  split; [|exact Sy].
  rewrite W, !last_set_app, last_set_sck_bytes_wire.
  rewrite last_set_other_pin_write by reflexivity.
  cbn [last_set line_eqb]. now destruct l.
Qed.

Lemma constructor_returned_lines api lib c dev verbose e e' :
  LibgpiodSpiBitbang api lib c dev verbose e = (Ok tt, e') ->
  exists h,
    hw e' = h ++ [SetValue MOSI (level api 0); SetValue SCK (level api 0);
                  SetValue CS (level api 1)].
Proof.
  intros Hok.
  destruct (constructor_validates api lib c dev verbose e)
    as [(_ & T & _) | [(_ & _ & T & _) | [(_ & _ & T & _)
       | (_ & _ & _ & e1 & _ & _ & _ & E)]]];
    try (rewrite Hok in T; discriminate).
  rewrite E in Hok.
  destruct (negb (gpiod_chip_open lib (chip_path dev))).
  - destruct (display_throw unit (MsgUnableOpen (chip_path dev))
                UnableToOpenChip e1) as (e2 & E2 & _).
    rewrite E2 in Hok. discriminate.
  - destruct (request_lines api lib e1) as [[[]|x|x] e2] eqn:E2;
      [rewrite (bind_ok _ E2) in Hok
      | rewrite (bind_throw _ E2) in Hok; discriminate
      | rewrite (bind_fault _ E2) in Hok; discriminate].
    rewrite bind_modify in Hok.
    destruct (update_pins_spec api lib 1 0 0 (set_curr 0 1 1 e2))
      as (e3 & E3 & _ & _ & _ & _ & _ & H3).
    rewrite (bind_ok _ E3) in Hok. inversion Hok; subst e'.
    exists (hw e2). cbn [setCSmode modify snd set_cs_mode hw].
    rewrite H3. reflexivity.
Qed.

Lemma boundary_idle api lib e : boundary api lib e -> idle api e.
Proof.
  induction 1 as [c dev verbose e0 e E
                 | e cmd tx rx len v e' B IH E
                 | e tx rx len v e' B IH E
                 | e cmd mask cond timeout verbose v e' B IH E].
  - destruct (constructor_returned _ _ _ _ _ _ E) as (A & P & Sy).
    destruct (constructor_returned_lines _ _ _ _ _ _ E) as (h & W).
    injection P as Pc Ps _.
    split; [exact A|]. split; [exact Pc|].
    split; [rewrite W, last_set_app; reflexivity|].
    split; [exact Ps|].
    split; [rewrite W, last_set_app; reflexivity | exact Sy].
  - destruct (boundary_invariant (boundary_put_cmd _ _ _ _ B E))
      as (_ & _ & Sy).
    destruct (spi_put_cmd_shape api lib cmd tx rx len e)
      as [(f & F) | (jtx & k & F)]; rewrite F in E; [discriminate|].
    destruct (bind_ok_inv _ _ _ E) as (a & e1 & E1 & R).
    unfold ret in R. injection R as _ <-.
    destruct (spi_wr_and_rd_wire _ _ _ _ _ _ E1)
      as (_ & W & _ & S' & A' & C').
    pose proof IH as (A & _). rewrite A in W, A', C'.
    exact (@idle_after_transfer api _ e e1 IH Sy W A' C' S').
  - destruct (boundary_invariant (boundary_put _ _ _ B E)) as (_ & _ & Sy).
    unfold spi_put in E.
    destruct (spi_wr_and_rd_wire _ _ _ _ _ _ E)
      as (_ & W & _ & S' & A' & C').
    pose proof IH as (A & _). rewrite A in W, A', C'.
    exact (@idle_after_transfer api _ e e' IH Sy W A' C' S').
  - destruct (boundary_invariant (boundary_wait _ _ _ _ _ B E))
      as (_ & _ & Sy).
    destruct (@spi_wait_wire api lib cmd mask cond timeout verbose e v e' E)
      as (k & _ & _ & W & A' & C' & S').
    exact (@idle_after_transfer api (cmd :: repeat 0 k) e e' IH Sy W A' C' S').
Qed.

(** X16. Between public operations the lines are at rest.  For every engine
    a caller can hold, that is, after a constructor that returned and any
    number of [spi_put] and [spi_wait] calls that returned: the mode is
    AUTO, the level last written to CS is the inactive one and the level
    last written to SCK is low, the cache says the same of both, and the
    MOSI cache agrees with the level last written to MOSI. *)
Theorem lines_idle_between_operations :
  forall api lib e,
    boundary api lib e ->
    _cs_mode e = SPI_CS_AUTO
    /\ (_curr_cs e, _curr_sck e) = (1, 0)
    /\ last_set CS (hw e) = Some (level api 1)
    /\ last_set SCK (hw e) = Some (level api 0)
    /\ last_set MOSI (hw e) = Some (level api (_curr_mosi e)).
Proof.
  intros api lib e B.
  destruct (boundary_idle B) as (A & C & LC & S & LS & Sy).
  rewrite C, S. auto.
Qed.

Lemma lines_idle_between_operations_witness :
  let lib := board (status_miso [0; 1]) (fun _ => 0) in
  let e := snd (spi_wait APIv1 lib 5 1 1 3 false
                  (engine_on APIv1 (status_miso [0; 1]))) in
  _cs_mode e = SPI_CS_AUTO
  /\ (_curr_cs e, _curr_sck e) = (1, 0)
  /\ last_set CS (hw e) = Some (level APIv1 1)
  /\ last_set SCK (hw e) = Some (level APIv1 0)
  /\ last_set MOSI (hw e) = Some (level APIv1 (_curr_mosi e)).
Proof.
  intros lib e.
  apply (@lines_idle_between_operations APIv1 lib e).
  apply (@boundary_wait APIv1 lib (engine_on APIv1 (status_miso [0; 1]))
           5 1 1 3 false 0 e).
  - apply (@boundary_constructed APIv1 lib pins0123 "/dev/gpiochip0"%string 0
             (raw_engine SPI_CS_MANUAL 0 0 0)).
    vm_compute. reflexivity.
  - vm_compute. reflexivity.
Defined.

(** X17. A public transfer entered with SCK cached low obeys SPI mode 0
    and leaves SCK cached low.  For every engine whose cached SCK is 0, as
    it is after the constructor and after every public call that returned,
    a [spi_put] of either overload or a [spi_wait] that returns has written
    MOSI only while the level last written to SCK was low and read MISO
    only while it was high, taking SCK to be at its cached level when the
    call starts; it has left SCK low, on the line and in the cache, so that
    the next call starts as this one did.  Nothing is said of an engine
    left by a call that threw: its cached SCK is 1, and a transfer from
    there can write MOSI while SCK is high. *)
Theorem public_calls_from_low_clock_obey_mode0 :
  forall api lib e,
    _curr_sck e = 0 ->
    (forall tx rx len v e',
        spi_put api lib tx rx len e = (Ok v, e') ->
        mode0 0 (added_since e (hw e')) = true
        /\ sck_after 0 (added_since e (hw e')) = level api 0
        /\ _curr_sck e' = 0)
    /\ (forall cmd tx rx len v e',
          spi_put_cmd api lib cmd tx rx len e = (Ok v, e') ->
          mode0 0 (added_since e (hw e')) = true
          /\ sck_after 0 (added_since e (hw e')) = level api 0
          /\ _curr_sck e' = 0)
    /\ (forall cmd mask cond timeout verbose v e',
          spi_wait api lib cmd mask cond timeout verbose e = (Ok v, e') ->
          mode0 0 (added_since e (hw e')) = true
          /\ sck_after 0 (added_since e (hw e')) = level api 0
          /\ _curr_sck e' = 0).
Proof.
  intros api lib e S.
  assert (K : forall mode l e',
             hw e' = hw e ++ transfer_wire api mode l (_curr_cs e)
                               (_curr_mosi e) (_curr_sck e) ->
             mode0 0 (added_since e (hw e')) = true
             /\ sck_after 0 (added_since e (hw e')) = level api 0).
  { intros mode l e' W. rewrite (@added_since_app e e' _ W), S.
    split; [apply mode0_transfer_wire|].
    unfold sck_after. destruct mode; cbn [transfer_wire].
    - rewrite !last_set_app, last_set_sck_bytes_wire.
      rewrite last_set_other_pin_write by reflexivity.
      cbn [last_set line_eqb]. destruct l; [|reflexivity].
      now rewrite level_0.
    - rewrite last_set_sck_bytes_wire. destruct l; [|reflexivity].
      now rewrite level_0. }
  split; [|split].
  - intros tx rx len v e' E. unfold spi_put in E.
    destruct (spi_wr_and_rd_wire _ _ _ _ _ _ E) as (_ & W & _ & S' & _).
    destruct (K _ _ _ W) as [M0 SA].
    split; [exact M0|]. split; [exact SA|].
    rewrite S', S. apply final_sck_low.
  - intros cmd tx rx len v e' E.
    destruct (spi_put_cmd_shape api lib cmd tx rx len e)
      as [(f & F) | (jtx & k & F)]; rewrite F in E; [discriminate|].
    destruct (bind_ok_inv _ _ _ E) as (a & e1 & E1 & R).
    unfold ret in R. injection R as _ <-.
    destruct (spi_wr_and_rd_wire _ _ _ _ _ _ E1) as (_ & W & _ & S' & _).
    destruct (K _ _ _ W) as [M0 SA].
    split; [exact M0|]. split; [exact SA|].
    rewrite S', S. apply final_sck_low.
  - intros cmd mask cond timeout verbose v e' E.
    destruct (@spi_wait_wire api lib cmd mask cond timeout verbose e v e' E)
      as (k & _ & _ & W & _ & _ & S').
    destruct (K _ _ _ W) as [M0 SA]. auto.
Qed.

Lemma public_calls_from_low_clock_obey_mode0_witness :
  let lib := board (status_miso [0; 1]) (fun _ => 0) in
  let e := engine_on APIv2 (status_miso [0; 1]) in
  (forall tx rx len v e',
      spi_put APIv2 lib tx rx len e = (Ok v, e') ->
      mode0 0 (added_since e (hw e')) = true
      /\ sck_after 0 (added_since e (hw e')) = level APIv2 0
      /\ _curr_sck e' = 0)
  /\ (forall cmd tx rx len v e',
        spi_put_cmd APIv2 lib cmd tx rx len e = (Ok v, e') ->
        mode0 0 (added_since e (hw e')) = true
        /\ sck_after 0 (added_since e (hw e')) = level APIv2 0
        /\ _curr_sck e' = 0)
  /\ (forall cmd mask cond timeout verbose v e',
        spi_wait APIv2 lib cmd mask cond timeout verbose e = (Ok v, e') ->
        mode0 0 (added_since e (hw e')) = true
        /\ sck_after 0 (added_since e (hw e')) = level APIv2 0
        /\ _curr_sck e' = 0).
Proof.
  intros lib e.
  apply (@public_calls_from_low_clock_obey_mode0 APIv2 lib e).
  reflexivity.
Defined.

(** ** What is printed *)

Lemma keeps_silent_modify o f :
  (forall e, _verbose (f e) = _verbose e /\ out (f e) = out e) ->
  keeps (silent o) (modify f).
Proof.
  intros F e [V O]. destruct (F e) as [V' O']. split; simpl; congruence.
Qed.

Lemma keeps_silent_display o d : keeps (silent o) (display d).
Proof.
  intros e [V O]. unfold display. rewrite bind_gets, V. now split.
Qed.

Ltac silent_step :=
  first
    [ apply keeps_silent_display
    | apply keeps_silent_modify; intros; split; reflexivity
    | apply keeps_gets | apply keeps_ret | apply keeps_throw
    | apply keeps_undefined | apply keeps_when
    | apply keeps_bind; [|intros ?] ].

Lemma keeps_silent_set_line o api lib l v :
  keeps (silent o) (set_line api lib l v).
Proof. unfold set_line. repeat silent_step. Qed.

Lemma keeps_silent_update_pins o api lib cs sck mosi :
  keeps (silent o) (update_pins api lib cs sck mosi).
Proof.
  unfold update_pins.
  repeat first [apply keeps_silent_set_line | silent_step].
Qed.














(** ** Calls on a MISO line that never fails *)

Lemma wait_loop_not_thrown api lib mask cond timeout verbose fuel :
  reads_never_throw api lib ->
  forall count e x e',
    wait_loop api lib fuel mask cond timeout verbose count e
    <> (Throw x, e').
Proof.
  intros N. induction fuel as [|fuel IH]; intros count e x e';
    cbn [wait_loop]; [discriminate|].
  destruct (@spi_wr_and_rd_returns api lib 1 None true e N I)
    as (rd & e1 & E1).
  rewrite (bind_ok _ E1).
  destruct (u32 (count + 1) =? timeout).
  - unfold printf. rewrite bind_modify. discriminate.
  - destruct verbose; cbn [when]; unfold printf;
      rewrite ?bind_modify, ?bind_ret;
      (destruct (negb _); [apply IH | discriminate]).
Qed.

Lemma spi_wait_returns api lib cmd mask cond timeout verbose e :
  reads_never_throw api lib ->
  exists st e',
    spi_wait api lib cmd mask cond timeout verbose e = (Ok st, e')
    /\ (st = 0 \/ st = - ETIME).
Proof.
  intros N.
  destruct (spi_wait_ends api lib cmd mask cond timeout verbose e)
    as (e' & mid & _ & [(st & E & St & _) | (E & _)]); [eauto|].
  exfalso. unfold spi_wait in E.
  rewrite (bind_ok _ (setCSmode_spec SPI_CS_MANUAL e)) in E.
  destruct (clearCs_spec api lib (set_cs_mode SPI_CS_MANUAL e))
    as (e1 & E1 & _).
  rewrite (bind_ok _ E1) in E.
  destruct (@spi_wr_and_rd_returns api lib 1 (Some [cmd]) false e1 N)
    as (rd & e2 & E2); [simpl; lia|].
  rewrite (bind_ok _ E2) in E.
  destruct (wait_loop api lib (wait_bound (u32 timeout)) mask cond
              (u32 timeout) verbose 0 e2) as [[w|x|x] e3] eqn:E3.
  - rewrite (bind_ok _ E3) in E.
    destruct (setCs_spec api lib e3) as (e4 & E4 & _).
    rewrite (bind_ok _ E4), (bind_ok _ (setCSmode_spec SPI_CS_AUTO e4)) in E.
    destruct (snd w =? u32 timeout); [|discriminate].
    unfold printf in E. rewrite bind_modify in E. discriminate.
  - exact (@wait_loop_not_thrown api lib mask cond (u32 timeout) verbose _ N
             0 e2 x e3 E3).
  - rewrite (bind_fault _ E3) in E. discriminate.
Qed.

(** X19. On a MISO line whose reads never fail (every line with the v1
    API, and with the v2 API one for which libgpiod never answers
    GPIOD_LINE_VALUE_ERROR), every public call returns: [spi_put] of either
    overload returns 0 on arguments it can be called with, and [spi_wait]
    returns 0 or [-ETIME] for every command, mask, condition and timeout,
    a timeout of 0 included, so that its polling loop always ends. *)
Theorem healthy_miso_calls_return :
  forall api lib e,
    reads_never_throw api lib ->
    (forall tx rx len,
        wp_ok (Z.to_nat len) tx ->
        exists rxd e', spi_put api lib tx rx len e = (Ok (0, rxd), e'))
    /\ (forall cmd tx rx len,
          put_args_ok tx len ->
          exists rxd e',
            spi_put_cmd api lib cmd tx rx len e = (Ok (0, rxd), e'))
    /\ (forall cmd mask cond timeout verbose,
          exists st e',
            spi_wait api lib cmd mask cond timeout verbose e = (Ok st, e')
            /\ (st = 0 \/ st = - ETIME)).
Proof.
  intros api lib e N. split; [|split].
  - intros tx rx len W. unfold spi_put.
    exact (@spi_wr_and_rd_returns api lib len tx rx e N W).
  - intros cmd tx rx len A.
    rewrite (spi_put_cmd_unfold api lib cmd rx e A).
    destruct (@spi_wr_and_rd_returns api lib (len + 1)
                (Some (jtx_buffer lib cmd tx len)) rx e N)
      as (rd & e1 & E1).
    + unfold wp_ok. rewrite (jtx_buffer_length lib cmd A). apply Nat.le_refl.
    + rewrite (bind_ok _ E1). unfold ret. eauto.
  - intros cmd mask cond timeout verbose.
    exact (@spi_wait_returns api lib cmd mask cond timeout verbose e N).
Qed.

Lemma healthy_miso_calls_return_witness :
  let lib := board (fun _ => -1) (fun _ => 0) in
  let e := engine_on APIv1 (fun _ => -1) in
  (forall tx rx len,
      wp_ok (Z.to_nat len) tx ->
      exists rxd e', spi_put APIv1 lib tx rx len e = (Ok (0, rxd), e'))
  /\ (forall cmd tx rx len,
        put_args_ok tx len ->
        exists rxd e',
          spi_put_cmd APIv1 lib cmd tx rx len e = (Ok (0, rxd), e'))
  /\ (forall cmd mask cond timeout verbose,
        exists st e',
          spi_wait APIv1 lib cmd mask cond timeout verbose e = (Ok st, e')
          /\ (st = 0 \/ st = - ETIME)).
Proof.
  intros lib e.
  apply (@healthy_miso_calls_return APIv1 lib e).
  intros h. simpl. discriminate.
Defined.

(** ** [spi_wait] on a stream of status bytes *)

Lemma bits_of_bits b : Forall is_bit (bits_of b).
Proof.
  unfold bits_of. cbn [map].
  repeat (apply Forall_cons;
          [unfold is_bit; destruct (Z.testbit b _); auto|]).
  apply Forall_nil.
Qed.

Lemma flat_bits_of_bits l : Forall is_bit (flat_map bits_of l).
Proof.
  induction l as [|b l IH]; cbn [flat_map]; [apply Forall_nil|].
  apply Forall_app. split; [apply bits_of_bits | exact IH].
Qed.

Lemma nth_is_byte l k : Forall is_byte l -> is_byte (nth k l 0).
Proof.
  intros F. destruct (nth_in_or_default k l 0) as [I | ->].
  - rewrite Forall_forall in F. now apply F.
  - unfold is_byte. lia.
Qed.

(** The eight bits at byte [i] of the bits of a list of bytes. *)
Lemma stream_window l : forall i,
  map (fun j => nth j (flat_map bits_of l) 0) (seq (8 * i) 8)
  = bits_of (nth i l 0).
Proof.
  induction l as [|b l IH]; intros i.
  - replace (nth i [] 0) with 0 by now destruct i.
    cbn [flat_map seq map]. rewrite !nth_overflow by apply Nat.le_0_l.
    reflexivity.
  - destruct i as [|i].
    + reflexivity.
    + replace (8 * S i)%nat
        with (S (S (S (S (S (S (S (S (8 * i)))))))))%nat by lia.
      cbn [nth]. rewrite <- IH. reflexivity.
Qed.

(** One read attempt on a stream of status bytes samples the byte at the
    place the reads made so far have reached. *)
Lemma poll_reads_status api lib statuses e n :
  (forall h, gpiod_get_value lib h = status_miso statuses h) ->
  Forall is_byte statuses ->
  count_reads (hw e) = (8 * S n)%nat ->
  fst (spi_wr_and_rd api lib 1 None true e)
  = Ok (0, Some [nth n statuses 0]).
Proof.
  intros L F C.
  rewrite (@transfer_on_stream api lib (flat_map bits_of (0 :: statuses))
             1 None e L (flat_bits_of_bits _) I).
  change (Z.to_nat 1) with 1%nat. rewrite C.
  change (8 * 1)%nat with 8%nat.
  rewrite (stream_window (0 :: statuses) (S n)). cbn [nth].
  rewrite <- (app_nil_r (bits_of _)), pack_bits_of by now apply nth_is_byte.
  reflexivity.
Qed.

(** The polling loop on a stream of status bytes, entered before attempt
    number [count + 1]: it leaves at attempt number [k], the first whose
    byte satisfies the condition, or the one at which the counter meets the
    timeout. *)
Lemma wait_loop_stream api lib statuses mask cond timeout verbose fuel :
  (forall h, gpiod_get_value lib h = status_miso statuses h) ->
  Forall is_byte statuses ->
  0 <= timeout < 4294967296 ->
  forall count e rx c e',
    0 <= count < wait_limit timeout ->
    Z.of_nat (count_reads (hw e)) = 8 * (count + 1) ->
    wait_loop api lib fuel mask cond timeout verbose count e
      = (Ok (rx, c), e') ->
    exists k : Z,
      count < k <= wait_limit timeout
      /\ c = u32 k
      /\ Z.of_nat (count_reads (hw e')) = 8 * (k + 1)
      /\ (forall j, count <= j < k - 1 ->
                    Z.land (nth (Z.to_nat j) statuses 0) mask <> cond)
      /\ (k < wait_limit timeout ->
          Z.land (nth (Z.to_nat (k - 1)) statuses 0) mask = cond).
Proof.
  intros L F T.
  induction fuel as [|fuel IH]; intros count e rx c e' C R H;
    cbn [wait_loop] in H; [discriminate|].
  destruct (bind_ok_inv _ _ _ H) as (r & e1 & E1 & H1). clear H.
  assert (P : fst (spi_wr_and_rd api lib 1 None true e)
              = Ok (0, Some [nth (Z.to_nat count) statuses 0])).
  { apply (@poll_reads_status api lib statuses e (Z.to_nat count) L F). lia. }
  rewrite E1 in P. cbn [fst] in P. injection P as ->.
  destruct (@adds_reads_spi_wr_and_rd api lib 1 None true e _ e1 E1)
    as (evs1 & W1 & N1).
  change (8 * Z.to_nat 1)%nat with 8%nat in N1.
  assert (R1 : Z.of_nat (count_reads (hw e1)) = 8 * (count + 2)).
  { rewrite W1, count_reads_app. lia. }
  cbn [snd] in H1.
  destruct (wait_limit_cases T) as [Lm U].
  destruct (Z.eqb_spec (u32 (count + 1)) timeout) as [Q|Q].
  - unfold printf in H1. rewrite bind_modify in H1. unfold ret in H1.
    injection H1 as _ <- <-. exists (count + 1).
    assert (K : count + 1 = wait_limit timeout).
    { destruct (Z.eq_dec (count + 1) (wait_limit timeout)) as [K|K];
        [exact K | exfalso].
      unfold u32 in Q. rewrite Z.mod_small in Q by lia.
      unfold wait_limit in K, C. destruct (Z.eqb_spec timeout 0); lia. }
    split; [lia|]. split; [reflexivity|].
    split; [cbn [log_out hw]; lia|].
    split; [intros j J; lia | intros J; lia].
  - destruct (wait_count_below T C Q) as [B V].
    destruct (bind_ok_inv _ _ _ H1) as ([] & e2 & E2 & H2). clear H1.
    assert (W2 : hw e2 = hw e1).
    { destruct verbose; simpl in E2; inversion E2; reflexivity. }
    destruct (Z.eqb_spec (Z.land (nth (Z.to_nat count) statuses 0) mask) cond)
      as [M'|M']; cbn [negb] in H2.
    + unfold ret in H2. injection H2 as _ <- <-. exists (count + 1).
      split; [lia|]. split; [reflexivity|].
      split; [rewrite W2; lia|].
      split; [intros j J; lia|]. intros _.
      replace (count + 1 - 1) with count by lia. exact M'.
    + rewrite V in H2.
      destruct (IH (count + 1) e2 rx c e') as (k & K1 & K2 & K3 & K4 & K5);
        [lia | rewrite W2; lia | exact H2 |].
      exists k. split; [lia|]. split; [exact K2|]. split; [exact K3|].
      split; [|exact K5].
      intros j J. destruct (Z.eq_dec j count) as [->|Nj];
        [exact M' | apply K4; lia].
Qed.

(** The parts of a [spi_wait] call that returns: the command byte, the
    polling loop, and the status decided by the loop's counter alone. *)
Lemma spi_wait_parts api lib cmd mask cond timeout verbose e st e' :
  spi_wait api lib cmd mask cond timeout verbose e = (Ok st, e') ->
  exists e2 rx c e3,
    count_reads (hw e2) = (count_reads (hw e) + 8)%nat
    /\ wait_loop api lib (wait_bound (u32 timeout)) mask cond (u32 timeout)
         verbose 0 e2 = (Ok (rx, c), e3)
    /\ count_reads (hw e') = count_reads (hw e3)
    /\ st = (if c =? u32 timeout then - ETIME else 0).
Proof.
  intros H. unfold spi_wait in H.
  destruct (bind_ok_inv _ _ _ H) as ([] & e0 & E0 & H0). clear H.
  destruct (bind_ok_inv _ _ _ H0) as ([] & e1 & E1 & H1). clear H0.
  destruct (bind_ok_inv _ _ _ H1) as (r & e2 & E2 & H2). clear H1.
  destruct (bind_ok_inv _ _ _ H2) as ([rx c] & e3 & E3 & H3). clear H2.
  destruct (bind_ok_inv _ _ _ H3) as ([] & e4 & E4 & H4). clear H3.
  destruct (bind_ok_inv _ _ _ H4) as ([] & e5 & E5 & H5). clear H4.
  destruct (@adds_reads_setCSmode _ _ _ _ E0) as (x0 & W0 & N0).
  destruct (@adds_reads_clearCs api lib _ _ _ E1) as (x1 & W1 & N1).
  destruct (@adds_reads_spi_wr_and_rd api lib 1 (Some [cmd]) false _ _ _ E2)
    as (x2 & W2 & N2).
  change (8 * Z.to_nat 1)%nat with 8%nat in N2.
  destruct (@adds_reads_setCs api lib _ _ _ E4) as (x4 & W4 & N4).
  destruct (@adds_reads_setCSmode _ _ _ _ E5) as (x5 & W5 & N5).
  exists e2, rx, c, e3.
  split; [rewrite W2, W1, W0, !count_reads_app; lia|].
  split; [exact E3|].
  cbn [fst snd] in H5.
  destruct (c =? u32 timeout).
  - unfold printf in H5. rewrite bind_modify in H5. unfold ret in H5.
    injection H5 as <- <-. split; [|reflexivity].
    cbn [log_out hw]. rewrite W5, W4, !count_reads_app. lia.
  - unfold ret in H5. injection H5 as <- <-. split; [|reflexivity].
    rewrite W5, W4, !count_reads_app. lia.
Qed.

(** X20. What [spi_wait] computes.  Against a peripheral that answers the
    command slot with zeros and then the successive read attempts with a
    list of status bytes (zeros once the list is exhausted), from an engine
    that has not read MISO yet, [spi_wait] returns after [k] read attempts,
    where no attempt before the [k]-th sampled a byte [b] with
    [(b & mask) == cond]; if [k] is below the bound ([timeout], or 2^32 for
    a [timeout] of 0) the [k]-th byte satisfies the condition and the status
    is 0, and if [k] is the bound the status is [-ETIME], whatever the
    [k]-th byte is. *)
Theorem spi_wait_stops_at_first_match :
  forall api lib statuses cmd mask cond timeout verbose e,
    (forall h, gpiod_get_value lib h = status_miso statuses h) ->
    Forall is_byte statuses ->
    count_reads (hw e) = O ->
    exists st e' k,
      spi_wait api lib cmd mask cond timeout verbose e = (Ok st, e')
      /\ read_attempts e e' = k
      /\ 1 <= k <= wait_limit (u32 timeout)
      /\ (forall j, 0 <= j < k - 1 ->
                    Z.land (nth (Z.to_nat j) statuses 0) mask <> cond)
      /\ (k < wait_limit (u32 timeout) ->
          st = 0 /\ Z.land (nth (Z.to_nat (k - 1)) statuses 0) mask = cond)
      /\ (k = wait_limit (u32 timeout) -> st = - ETIME).
Proof.
  intros api lib statuses cmd mask cond timeout verbose e L F R.
  assert (N : reads_never_throw api lib).
  { apply (@stream_never_throws api lib (flat_map bits_of (0 :: statuses)) L).
    apply flat_bits_of_bits. }
  destruct (@spi_wait_returns api lib cmd mask cond timeout verbose e N)
    as (st & e' & E & _).
  assert (T : 0 <= u32 timeout < 4294967296) by (apply Z.mod_pos_bound; lia).
  destruct (@spi_wait_parts api lib cmd mask cond timeout verbose e st e' E)
    as (e2 & rx & c & e3 & R2 & E3 & R3 & Hst).
  destruct (@wait_loop_stream api lib statuses mask cond (u32 timeout) verbose
              (wait_bound (u32 timeout)) L F T 0 e2 rx c e3)
    as (k & K1 & K2 & K3 & K4 & K5);
    [destruct (wait_limit_cases T); lia | lia | exact E3 |].
  destruct (@spi_wait_wire api lib cmd mask cond timeout verbose e st e' E)
    as (k' & B & Hst' & W & _).
  assert (Q : Z.of_nat k' = k).
  { assert (C : count_reads (hw e') = (0 + 8 * S k')%nat).
    { rewrite W, count_reads_app, R. cbn [transfer_wire].
      rewrite !count_reads_app, count_reads_pin_write, count_reads_bytes_wire.
      cbn [count_reads List.length]. rewrite repeat_length. lia. }
    lia. }
  exists st, e', k. split; [exact E|].
  split.
  { unfold read_attempts. rewrite (@added_since_app e e' _ W).
    cbn [transfer_wire].
    rewrite !count_reads_app, count_reads_pin_write, count_reads_bytes_wire.
    cbn [count_reads List.length]. rewrite repeat_length.
    replace (Z.of_nat (0 + (8 * S k' + 0)) - 8) with (k * 8) by lia.
    apply Z.div_mul. lia. }
  rewrite Q in Hst'.
  split; [lia|]. split; [exact K4|]. split.
  - intros J. split; [|exact (K5 J)].
    rewrite Hst'. destruct (Z.eqb_spec k (wait_limit (u32 timeout))); [lia|].
    reflexivity.
  - intros J. rewrite Hst', J, Z.eqb_refl. reflexivity.
Qed.

Lemma spi_wait_stops_at_first_match_witness :
  let lib := board (status_miso [0; 2; 3]) (fun _ => 0) in
  let e := engine_on APIv2 (status_miso [0; 2; 3]) in
  exists st e' k,
    spi_wait APIv2 lib 5 1 1 4 false e = (Ok st, e')
    /\ read_attempts e e' = k
    /\ 1 <= k <= wait_limit (u32 4)
    /\ (forall j, 0 <= j < k - 1 ->
                  Z.land (nth (Z.to_nat j) [0; 2; 3] 0) 1 <> 1)
    /\ (k < wait_limit (u32 4) ->
        st = 0 /\ Z.land (nth (Z.to_nat (k - 1)) [0; 2; 3] 0) 1 = 1)
    /\ (k = wait_limit (u32 4) -> st = - ETIME).
Proof.
  intros lib e.
  apply (@spi_wait_stops_at_first_match APIv2 lib [0; 2; 3] 5 1 1 4 false e).
  - intros h. reflexivity.
  - repeat (apply Forall_cons; [unfold is_byte; lia|]). apply Forall_nil.
  - reflexivity.
Defined.

(** ** What the constructor prints *)

Lemma keeps_silent_check_duplicate o p rest :
  keeps (silent o) (check_duplicate p rest).
Proof.
  induction rest as [|q rest IH]; cbn [check_duplicate]; [apply keeps_ret|].
  destruct (p =? q); [repeat silent_step | exact IH].
Qed.

Lemma keeps_silent_validate_pins o pins :
  keeps (silent o) (validate_pins pins).
Proof.
  induction pins as [|p rest IH]; cbn [validate_pins]; [apply keeps_ret|].
  destruct ((p <? 0) || (p >=? 1000)); [repeat silent_step|].
  apply keeps_bind; [apply keeps_silent_check_duplicate | intros _; exact IH].
Qed.

Lemma keeps_silent_get_line o lib offset val output :
  keeps (silent o) (get_line lib offset val output).
Proof.
  unfold get_line. apply keeps_bind; [apply keeps_gets | intros h].
  apply keeps_bind; [silent_step | intros _].
  destruct (negb _); [repeat silent_step|].
  apply keeps_bind; [apply keeps_gets | intros h'].
  apply keeps_bind; [silent_step | intros _].
  destruct (_ <? 0); repeat silent_step.
Qed.

Lemma keeps_silent_request_lines o api lib :
  keeps (silent o) (request_lines api lib).
Proof.
  unfold request_lines.
  do 4 (apply keeps_bind; [apply keeps_gets | intros ?]).
  destruct api.
  - do 3 (apply keeps_bind; [apply keeps_silent_get_line | intros _]).
    apply keeps_silent_get_line.
  - repeat silent_step.
Qed.

(** X21. A constructor called with [verbose] 0 prints nothing, however it
    ends: every message of the constructor, the banner and the messages
    that go with its errors included, goes through [display], and
    [_verbose] is set from the argument before the first of them. *)
Theorem quiet_constructor_prints_nothing :
  forall api lib c dev e,
    out (snd (LibgpiodSpiBitbang api lib c dev 0 e)) = out e
    /\ _verbose (snd (LibgpiodSpiBitbang api lib c dev 0 e)) = false.
Proof.
  intros api lib c dev e.
  assert (K : silent (out e) (snd (LibgpiodSpiBitbang api lib c dev 0 e))).
  { unfold LibgpiodSpiBitbang. rewrite bind_modify.
    change (negb (0 =? 0)) with false.
    assert (S0 : silent (out e) (set_config false c e)) by (split; reflexivity).
    generalize (set_config false c e) S0.
    match goal with
    | |- forall e0, silent ?o e0 -> silent ?o (snd (?m e0)) =>
        change (keeps (silent o) m)
    end.
    apply keeps_bind; [apply keeps_silent_display | intros _].
    destruct (_ || _); [repeat silent_step|].
    do 4 (apply keeps_bind; [apply keeps_gets | intros ?]).
    apply keeps_bind; [apply keeps_silent_validate_pins | intros _].
    apply keeps_bind; [silent_step | intros _].
    destruct (negb _); [repeat silent_step|].
    apply keeps_bind; [apply keeps_silent_request_lines | intros _].
    apply keeps_bind; [silent_step | intros _].
    apply keeps_bind; [apply keeps_silent_update_pins | intros _].
    unfold setCSmode. silent_step. }
  destruct K as [V O]. now split.
Qed.
